(** * utcore: hand-eye calibration and multi-camera pose estimation

    A shallow embedding of

    - [HandEyeCalibration.cpp]: the Tsai-Lenz style two-stage solver behind
      [performHandEyeCalibration],
    - [MultipleCameraPoseOptimization.cpp]: [multipleCameraEstimatePose],
      [checkConsistency] and the driver on local bundles, and
    - [utMath/Geometry/Conic.h]: the closed-form functors on conics,

    followed by the properties the specification states about the first
    two, and by further properties of all three.

    Conventions of the embedding.

    - Scalars ([float], [double], the template parameter [T]) are real
      numbers: rounding is not modelled.
    - [unsigned] and [size_t] values are integers reduced modulo [2^32] and
      [2^64].  [int] values are integers; a conversion from [size_t] wraps
      into the [int] range, and the products of sizes the code computes in
      [int] are checked (signed overflow is undefined behaviour).  Loop
      indices that stay below a size are exact.
    - A call returns, throws, or has undefined behaviour.  A loop whose
      counter is [unsigned] and could wrap runs on fuel; a loop over a known
      range is a fold.
    - The functions of utMath, LAPACK and utCalibration the two files call
      are the fields of two classes; logging is left out. *)

From Stdlib Require Import String Ascii.
From Stdlib Require Import Reals Lra Lia ZArith List Bool Arith.
Import ListNotations.


(* ===================================================================== *)
(** ** C++ outcomes, machine integers, vectors and loops *)
(* ===================================================================== *)

Module Cpp.

(** What a call can do. [OutOfFuel] is not a C++ behaviour: a loop that
    reaches it for every amount of fuel does not terminate. *)
Inductive outcome (A : Type) : Type :=
| Return (a : A)
| Throw (what : string)
| Undefined
| OutOfFuel.

Arguments Return {A} a.
Arguments Throw {A} what.
Arguments Undefined {A}.
Arguments OutOfFuel {A}.

Definition bind {A B : Type} (m : outcome A) (k : A -> outcome B) : outcome B :=
  match m with
  | Return a => k a
  | Throw w => Throw w
  | Undefined => Undefined
  | OutOfFuel => OutOfFuel
  end.

Declare Scope cpp_scope.
Delimit Scope cpp_scope with cpp.
Notation "x <- m ;; k" := (bind m (fun x => k))
  (at level 61, m at next level, right associativity) : cpp_scope.
Notation "m ;;; k" := (bind m (fun _ => k))
  (at level 61, right associativity) : cpp_scope.
Open Scope cpp_scope.

Definition returns {A : Type} (m : outcome A) : Prop := exists a, m = Return a.

Definition throws {A : Type} (m : outcome A) : Prop := exists w, m = Throw w.

(** *** Integers *)

Definition INT_MAX : Z := 2147483647.
Definition INT_MIN : Z := -2147483648.

Definition to_unsigned (z : Z) : Z := z mod 4294967296.
Definition to_size_t (z : Z) : Z := z mod 18446744073709551616.
Definition to_int (z : Z) : Z := (z + 2147483648) mod 4294967296 - 2147483648.

(** The value of an [int] expression: undefined when it leaves the range. *)
Definition int_result (z : Z) : outcome Z :=
  if ((INT_MIN <=? z) && (z <=? INT_MAX))%Z then Return z else Undefined.

(** *** [std::vector] *)

Definition size {A : Type} (v : list A) : Z := Z.of_nat (length v).

Definition out_of_range : string := "std::out_of_range".
Definition length_error : string := "std::length_error".
Definition bad_alloc : string := "std::bad_alloc".

(** [v.at(i)]: checked access. *)
Definition at_ {A : Type} (v : list A) (i : Z) : outcome A :=
  if (i <? 0)%Z then Throw out_of_range
  else match nth_error v (Z.to_nat i) with
       | Some a => Return a
       | None => Throw out_of_range
       end.

(** [v[i]]: unchecked access. *)
Definition index {A : Type} (v : list A) (i : Z) : outcome A :=
  if (i <? 0)%Z then Undefined
  else match nth_error v (Z.to_nat i) with
       | Some a => Return a
       | None => Undefined
       end.

Fixpoint list_set {A : Type} (l : list A) (n : nat) (x : A) : option (list A) :=
  match l, n with
  | [], _ => None
  | _ :: t, O => Some (x :: t)
  | h :: t, S n' => option_map (cons h) (list_set t n' x)
  end.

(** [v.at(i) = x] and [v[i] = x]. *)
Definition set_at {A : Type} (v : list A) (i : Z) (x : A) : outcome (list A) :=
  if (i <? 0)%Z then Throw out_of_range
  else match list_set v (Z.to_nat i) x with
       | Some v' => Return v'
       | None => Throw out_of_range
       end.

Definition set_index {A : Type} (v : list A) (i : Z) (x : A) : outcome (list A) :=
  if (i <? 0)%Z then Undefined
  else match list_set v (Z.to_nat i) x with
       | Some v' => Return v'
       | None => Undefined
       end.

(** [v.reserve(n)], [n] already converted to [size_t]: only the capacity
    changes.  [max_size] is [PTRDIFF_MAX / sizeof(T)]; the elements reserved
    here are 4x4 matrices of at least 64 bytes. *)
Definition max_size : Z := 9223372036854775807 / 64.

Definition reserve {A : Type} (v : list A) (n : Z) : outcome (list A) :=
  if (max_size <? n)%Z then Throw length_error else Return v.

(** *** Loops *)

(** [for (i = i0; cond(i); i = step(i)) body], the loop state threaded
    through the body. *)
Fixpoint for_loop {S : Type} (fuel : nat) (cond : Z -> bool) (step : Z -> Z)
    (body : Z -> S -> outcome S) (i : Z) (s : S) : outcome S :=
  match fuel with
  | O => OutOfFuel
  | Datatypes.S fuel' =>
      if cond i
      then s' <- body i s ;; for_loop fuel' cond step body (step i) s'
      else Return s
  end.

(** A loop over a list of known iterations. *)
Fixpoint foldM {X S : Type} (body : X -> S -> outcome S) (xs : list X) (s : S)
    : outcome S :=
  match xs with
  | [] => Return s
  | x :: xs' => s' <- body x s ;; foldM body xs' s'
  end.

(** The [int] values [lo, lo+1, ..., hi]. *)
Definition int_range (lo hi : Z) : list Z :=
  map (fun j => (lo + Z.of_nat j)%Z) (seq 0 (Z.to_nat (hi - lo + 1))).

End Cpp.

Import Cpp.

(* ===================================================================== *)
(** ** Vectors, matrices, quaternions and poses ([utMath]) *)
(* ===================================================================== *)

Module Math.

Open Scope R_scope.

Record Vector2 : Type := mkVector2 { u0 : R; u1 : R }.

Record Vector3 : Type := mkVector3 { c0 : R; c1 : R; c2 : R }.

Record Matrix33 : Type := mkMatrix33 {
  m00 : R; m01 : R; m02 : R;
  m10 : R; m11 : R; m12 : R;
  m20 : R; m21 : R; m22 : R;
}.

Record Matrix44 : Type := mkMatrix44 {
  h00 : R; h01 : R; h02 : R; h03 : R;
  h10 : R; h11 : R; h12 : R; h13 : R;
  h20 : R; h21 : R; h22 : R; h23 : R;
  h30 : R; h31 : R; h32 : R; h33 : R;
}.

(** [Math::Quaternion]: vector part [qx qy qz], scalar part [qw]. *)
Record Quaternion : Type := mkQuaternion { qx : R; qy : R; qz : R; qw : R }.

Record Pose : Type := mkPose { rotation : Quaternion; translation : Vector3 }.

(** Modelled from the spec: the default constructor [Math::Quaternion()]
    is declared in [utMath/Quaternion.h], which is not among the sources;
    the specification calls the value it yields the identity rotation. *)
Definition Quaternion_default : Quaternion := mkQuaternion 0 0 0 1.

(** *** Fixed-size operations of [boost::numeric::ublas] *)

Definition vadd (a b : Vector3) : Vector3 :=
  mkVector3 (c0 a + c0 b) (c1 a + c1 b) (c2 a + c2 b).

Definition vsub (a b : Vector3) : Vector3 :=
  mkVector3 (c0 a - c0 b) (c1 a - c1 b) (c2 a - c2 b).

Definition identity_matrix3 : Matrix33 := mkMatrix33 1 0 0 0 1 0 0 0 1.

Definition madd (a b : Matrix33) : Matrix33 :=
  mkMatrix33 (m00 a + m00 b) (m01 a + m01 b) (m02 a + m02 b)
             (m10 a + m10 b) (m11 a + m11 b) (m12 a + m12 b)
             (m20 a + m20 b) (m21 a + m21 b) (m22 a + m22 b).

Definition msub (a b : Matrix33) : Matrix33 :=
  mkMatrix33 (m00 a - m00 b) (m01 a - m01 b) (m02 a - m02 b)
             (m10 a - m10 b) (m11 a - m11 b) (m12 a - m12 b)
             (m20 a - m20 b) (m21 a - m21 b) (m22 a - m22 b).

Definition mscale (a : Matrix33) (s : R) : Matrix33 :=
  mkMatrix33 (m00 a * s) (m01 a * s) (m02 a * s)
             (m10 a * s) (m11 a * s) (m12 a * s)
             (m20 a * s) (m21 a * s) (m22 a * s).

Definition outer_prod (a b : Vector3) : Matrix33 :=
  mkMatrix33 (c0 a * c0 b) (c0 a * c1 b) (c0 a * c2 b)
             (c1 a * c0 b) (c1 a * c1 b) (c1 a * c2 b)
             (c2 a * c0 b) (c2 a * c1 b) (c2 a * c2 b).

(** [ublas::prod] of a 3x3 matrix and a 3-vector. *)
Definition prod33v (a : Matrix33) (v : Vector3) : Vector3 :=
  mkVector3 (m00 a * c0 v + m01 a * c1 v + m02 a * c2 v)
            (m10 a * c0 v + m11 a * c1 v + m12 a * c2 v)
            (m20 a * c0 v + m21 a * c1 v + m22 a * c2 v).

(** [ublas::prod] of two 4x4 matrices. *)
Definition prod44 (a b : Matrix44) : Matrix44 :=
  mkMatrix44
    (h00 a * h00 b + h01 a * h10 b + h02 a * h20 b + h03 a * h30 b)
    (h00 a * h01 b + h01 a * h11 b + h02 a * h21 b + h03 a * h31 b)
    (h00 a * h02 b + h01 a * h12 b + h02 a * h22 b + h03 a * h32 b)
    (h00 a * h03 b + h01 a * h13 b + h02 a * h23 b + h03 a * h33 b)
    (h10 a * h00 b + h11 a * h10 b + h12 a * h20 b + h13 a * h30 b)
    (h10 a * h01 b + h11 a * h11 b + h12 a * h21 b + h13 a * h31 b)
    (h10 a * h02 b + h11 a * h12 b + h12 a * h22 b + h13 a * h32 b)
    (h10 a * h03 b + h11 a * h13 b + h12 a * h23 b + h13 a * h33 b)
    (h20 a * h00 b + h21 a * h10 b + h22 a * h20 b + h23 a * h30 b)
    (h20 a * h01 b + h21 a * h11 b + h22 a * h21 b + h23 a * h31 b)
    (h20 a * h02 b + h21 a * h12 b + h22 a * h22 b + h23 a * h32 b)
    (h20 a * h03 b + h21 a * h13 b + h22 a * h23 b + h23 a * h33 b)
    (h30 a * h00 b + h31 a * h10 b + h32 a * h20 b + h33 a * h30 b)
    (h30 a * h01 b + h31 a * h11 b + h32 a * h21 b + h33 a * h31 b)
    (h30 a * h02 b + h31 a * h12 b + h32 a * h22 b + h33 a * h32 b)
    (h30 a * h03 b + h31 a * h13 b + h32 a * h23 b + h33 a * h33 b).

(** [ublas::subrange(h, 0, 3, 0, 3)]: the rotation block. *)
Definition rotation_block (h : Matrix44) : Matrix33 :=
  mkMatrix33 (h00 h) (h01 h) (h02 h)
             (h10 h) (h11 h) (h12 h)
             (h20 h) (h21 h) (h22 h).

(** [ublas::subrange(ublas::column(h, 3), 0, 3)]: the translation column. *)
Definition translation_column (h : Matrix44) : Vector3 :=
  mkVector3 (h03 h) (h13 h) (h23 h).

Definition identity_matrix4 : Matrix44 :=
  mkMatrix44 1 0 0 0  0 1 0 0  0 0 1 0  0 0 0 1.

(** *** Dynamically sized [ublas::matrix]: a list of rows *)

Definition matrix : Type := list (list R).

Definition mget (m : matrix) (i j : Z) : outcome R :=
  row <- index m i ;; index row j.

Definition mset (m : matrix) (i j : Z) (x : R) : outcome matrix :=
  row <- index m i ;;
  row' <- set_index row j x ;;
  set_index m i row'.

(** A C array [T a[n]] read at a computed position. *)
Definition arr (a : list R) (i : nat) : R := nth i a 0.

End Math.

Import Math.

(* ===================================================================== *)
(** ** What the two files take from outside *)
(* ===================================================================== *)

(** Functions of [utMath], LAPACK and the allocator that
    [HandEyeCalibration.cpp] calls; none of them is defined in the file. *)
Class LinearAlgebra : Type := {
  (** [Math::invert_matrix] of [utMath/MatrixOperations.h]. *)
  invert_matrix : Matrix44 -> Matrix44;
  (** [lapack::gels(trans, A, B)]: LAPACK's [info] and the content of [B] on
      exit, entry by entry.  [A] is not read again by the callers. *)
  gels : ascii -> matrix -> matrix -> Z * (Z -> Z -> R);
  (** The constructor [Math::Quaternion(const Math::Matrix<3,3>&)]. *)
  Quaternion_of_Matrix33 : Matrix33 -> Quaternion;
  (** The conversion [Math::Matrix<4,4,double>(const Math::Pose&)]. *)
  Matrix44_of_Pose : Pose -> Matrix44;
  (** The indeterminate content of a freshly constructed [ublas::matrix]. *)
  uninitialized : Z -> Z -> R;
}.

(* ===================================================================== *)
(** ** [HandEyeCalibration.cpp] *)
(* ===================================================================== *)

Module HandEyeCalibration.

Open Scope R_scope.

(** *** [TransformCont] *)

Record TransformCont : Type := mkTransformCont {
  m_hg : list Matrix44;
  m_hc : list Matrix44;
}.

Definition TransformCont_new : TransformCont := mkTransformCont [] [].

(** [int p = bUseAllPairs ? i * i / 2 : i], then the two [reserve(p)]. *)
Definition setNumber (tc : TransformCont) (i : Z) (bUseAllPairs : bool)
    : outcome TransformCont :=
  p <- (if bUseAllPairs
        then (sq <- int_result (i * i) ;; Return (Z.quot sq 2))
        else Return i) ;;
  hg <- reserve (m_hg tc) (to_size_t p) ;;
  hc <- reserve (m_hc tc) (to_size_t p) ;;
  Return (mkTransformCont hg hc).

Definition getNumber (tc : TransformCont) : Z := to_int (size (m_hg tc)).

Definition push_back_hg (tc : TransformCont) (hg : Matrix44) : TransformCont :=
  mkTransformCont (m_hg tc ++ [hg]) (m_hc tc).

Definition push_back_hc (tc : TransformCont) (hc : Matrix44) : TransformCont :=
  mkTransformCont (m_hg tc) (m_hc tc ++ [hc]).

Definition hg_at (tc : TransformCont) (i : Z) : outcome Matrix44 :=
  index (m_hg tc) i.

Definition hc_at (tc : TransformCont) (i : Z) : outcome Matrix44 :=
  index (m_hc tc) i.

(** *** The closed-form helpers *)

Definition skew (rotVec : Vector3) : Matrix33 :=
  mkMatrix33 0            (- c2 rotVec) (c1 rotVec)
             (c2 rotVec)  0             (- c0 rotVec)
             (- c1 rotVec) (c0 rotVec)  0.

Definition getMatrix (source : Vector3) : Matrix33 :=
  let v0 := c0 source * c0 source in
  let v1 := c1 source * c1 source in
  let v2 := c2 source * c2 source in
  let length := v0 + v1 + v2 in
  let a := 1 - length / 2 in
  let identity := mscale identity_matrix3 a in
  let skewT := skew source in
  let alpha := sqrt (4 - length) in
  let skewT := mscale skewT alpha in
  let right := madd (outer_prod source source) skewT in
  let right := mscale right (1 / 2) in
  madd identity right.

Definition getRcg (pcg_ : Vector3) : Matrix33 :=
  let v := [c0 pcg_ * c0 pcg_; c1 pcg_ * c1 pcg_; c2 pcg_ * c2 pcg_] in
  let twice := [2 * c0 pcg_; 2 * c1 pcg_; 2 * c2 pcg_] in
  let divisor := sqrt (1 + (arr v 0 + arr v 1 + arr v 2)) in
  let pcg := mkVector3 (arr twice 0 / divisor) (arr twice 1 / divisor)
                       (arr twice 2 / divisor) in
  getMatrix pcg.

(** [getQuaternion], in the four steps of its body. *)

(** The four trace-based candidates [q[0..3]]. *)
Definition getQuaternion_q (source : Matrix33) : list R :=
  [ (1 + m00 source + m11 source + m22 source) / 4;
    (1 + m00 source - m11 source - m22 source) / 4;
    (1 - m00 source + m11 source - m22 source) / 4;
    (1 - m00 source - m11 source + m22 source) / 4 ].

(** The three comparisons that choose [c]. *)
Definition getQuaternion_c (q : list R) : nat :=
  let c := 0%nat in
  let c := if Rlt_dec (arr q c) (arr q 1) then 1%nat else c in
  let c := if Rlt_dec (arr q c) (arr q 2) then 2%nat else c in
  let c := if Rlt_dec (arr q c) (arr q 3) then 3%nat else c in
  c.

Definition getQuaternion_qoff (source : Matrix33) : list R :=
  [ (m21 source - m12 source) / 4;
    (m02 source - m20 source) / 4;
    (m10 source - m01 source) / 4;
    (m10 source + m01 source) / 4;
    (m02 source + m20 source) / 4;
    (m21 source + m12 source) / 4 ].

(** The branch taken for [c]: [d] is the square root every other component
    is divided by; the result is [quat[0..3]]. *)
Definition getQuaternion_branch (c : nat) (d : R) (qoff : list R) : list R :=
  match c with
  | 0%nat => [arr qoff 0 / d; arr qoff 1 / d; arr qoff 2 / d; d]
  | 1%nat => [d; arr qoff 3 / d; arr qoff 4 / d; arr qoff 0 / d]
  | 2%nat => [arr qoff 3 / d; d; arr qoff 5 / d; arr qoff 1 / d]
  | _ => [arr qoff 4 / d; arr qoff 5 / d; d; arr qoff 2 / d]
  end.

(** "ensure w to be positive" *)
Definition getQuaternion_positive_w (quat : list R) : list R :=
  if Rlt_dec (arr quat 3) 0
  then [- arr quat 0; - arr quat 1; - arr quat 2; - arr quat 3]
  else quat.

Definition getQuaternion (source : Matrix33) : Vector3 :=
  let q := getQuaternion_q source in
  let c := getQuaternion_c q in
  let qoff := getQuaternion_qoff source in
  let quat := getQuaternion_branch c (sqrt (arr q c)) qoff in
  let quat := getQuaternion_positive_w quat in
  mkVector3 (arr quat 0) (arr quat 1) (arr quat 2).

(** [computeSidesRot]: the returned vector and the matrix written to
    [skewP]. *)
Definition computeSidesRot (hgij hcij : Matrix44) : Vector3 * Matrix33 :=
  let source := rotation_block hgij in
  let pgij := getQuaternion source in
  let source := rotation_block hcij in
  let pcij := getQuaternion source in
  let temp := vadd pgij pcij in
  let skewP := skew temp in
  (vsub pcij pgij, skewP).

(** [computeSidesTrans]: the returned vector and the matrix written to
    [leftT]. *)
Definition computeSidesTrans (hgij hcij : Matrix44) (rcg : Matrix33)
    : Vector3 * Matrix33 :=
  let identity := identity_matrix3 in
  let rgij := rotation_block hgij in
  let tgij := translation_column hgij in
  let tcij := translation_column hcij in
  let leftT := msub rgij identity in
  (vsub (prod33v rcg tcij) tgij, leftT).

(** [mode]: 0 to compute Hgij, anything else to compute Hcij. *)
Definition computeTransformation `{LA : LinearAlgebra} (hi hj : Matrix44) (mode : Z)
    : Matrix44 :=
  if (mode =? 0)%Z
  then let inverted := invert_matrix hj in prod44 inverted hi
  else let inverted := invert_matrix hi in prod44 hj inverted.

Section WithLinearAlgebra.

Context `{LA : LinearAlgebra}.

(** *** The stacked systems *)

(** [ublas::matrix<T> m(size1, size2)], the sizes given as [int]. *)
Definition new_matrix (size1 size2 : Z) : outcome matrix :=
  if ((size1 <? 0) || (size2 <? 0))%Z then Throw bad_alloc
  else Return (map (fun i => map (fun j => uninitialized i j)
                                 (int_range 0 (size2 - 1)))
                   (int_range 0 (size1 - 1))).

(** The content of [B] after [gels] wrote [x] into it. *)
Definition overwrite (B : matrix) (x : Z -> Z -> R) : matrix :=
  map (fun i => map (fun j => x i j)
                    (int_range 0 (size (nth (Z.to_nat i) B []) - 1)))
      (int_range 0 (size B - 1)).

(** The nine assignments [tA(3*i + r, c) = block(r, c)], column by column as
    the source writes them. *)
Definition store_block (tA : matrix) (i : Z) (block : Matrix33)
    : outcome matrix :=
  (tA <- mset tA (3 * i) 0 (m00 block) ;;
   tA <- mset tA (3 * i + 1) 0 (m10 block) ;;
   tA <- mset tA (3 * i + 2) 0 (m20 block) ;;
   tA <- mset tA (3 * i) 1 (m01 block) ;;
   tA <- mset tA (3 * i + 1) 1 (m11 block) ;;
   tA <- mset tA (3 * i + 2) 1 (m21 block) ;;
   tA <- mset tA (3 * i) 2 (m02 block) ;;
   tA <- mset tA (3 * i + 1) 2 (m12 block) ;;
   mset tA (3 * i + 2) 2 (m22 block))%Z.

(** The three assignments [tB(3*i + r, 0) = right(r)]. *)
Definition store_right (tB : matrix) (i : Z) (right : Vector3)
    : outcome matrix :=
  (tB <- mset tB (3 * i) 0 (c0 right) ;;
   tB <- mset tB (3 * i + 1) 0 (c1 right) ;;
   mset tB (3 * i + 2) 0 (c2 right))%Z.

(** The loop of [computePcg]: the state is the pair [(tA, tB)]. *)
Definition computePcg_body (tc : TransformCont) (i : Z) (s : matrix * matrix)
    : outcome (matrix * matrix) :=
  let (tA, tB) := s in
  hgij <- hg_at tc i ;;
  hcij <- hc_at tc i ;;
  let (rightR, skew) := computeSidesRot hgij hcij in
  tB <- store_right tB i rightR ;;
  tA <- store_block tA i skew ;;
  Return (tA, tB).

(** [computePcg] up to the call of [gels]: the system handed to LAPACK. *)
Definition computePcg_system (tc : TransformCont) : outcome (matrix * matrix) :=
  rows <- int_result (3 * getNumber tc) ;;
  tA <- new_matrix rows 3 ;;
  tB <- new_matrix rows 1 ;;
  foldM (computePcg_body tc) (int_range 0 (getNumber tc - 1)) (tA, tB).

Definition computePcg (tc : TransformCont) : outcome Matrix33 :=
  s <- computePcg_system tc ;;
  let (tA, tB) := s in
  let tB := overwrite tB (snd (gels "N"%char tA tB)) in
  p0 <- mget tB 0 0 ;;
  p1 <- mget tB 1 0 ;;
  p2 <- mget tB 2 0 ;;
  let pcg_ := mkVector3 p0 p1 p2 in
  Return (getRcg pcg_).

Definition computeTcg_body (tc : TransformCont) (rcg : Matrix33) (i : Z)
    (s : matrix * matrix) : outcome (matrix * matrix) :=
  let (tA, tB) := s in
  hgij <- hg_at tc i ;;
  hcij <- hc_at tc i ;;
  let (rightT, leftT) := computeSidesTrans hgij hcij rcg in
  tB <- store_right tB i rightT ;;
  tA <- store_block tA i leftT ;;
  Return (tA, tB).

Definition computeTcg_system (tc : TransformCont) (rcg : Matrix33)
    : outcome (matrix * matrix) :=
  rows <- int_result (3 * getNumber tc) ;;
  tA <- new_matrix rows 3 ;;
  tB <- new_matrix rows 1 ;;
  foldM (computeTcg_body tc rcg) (int_range 0 (getNumber tc - 1)) (tA, tB).

Definition computeTcg (tc : TransformCont) (rcg : Matrix33) : outcome Vector3 :=
  s <- computeTcg_system tc rcg ;;
  let (tA, tB) := s in
  let tB := overwrite tB (snd (gels "N"%char tA tB)) in
  t0 <- mget tB 0 0 ;;
  t1 <- mget tB 1 0 ;;
  t2 <- mget tB 2 0 ;;
  Return (mkVector3 t0 t1 t2).

(** *** Building the motion pairs *)

(** The body of the inner loop of [fillTransformationVectors]; [conv] is the
    conversion applied to an element ([Math::Matrix<4,4,double>(pose)] in the
    overload on poses, nothing in the template). *)
Definition fill_pair {E : Type} (conv : E -> Matrix44) (hand eye : list E)
    (i k : Z) (tc : TransformCont) : outcome TransformCont :=
  hi <- at_ hand i ;;
  hj <- at_ hand k ;;
  let hij := computeTransformation (conv hi) (conv hj) 0 in
  let tc := push_back_hg tc hij in
  hi <- at_ eye i ;;
  hj <- at_ eye k ;;
  let hij := computeTransformation (conv hi) (conv hj) 1 in
  Return (push_back_hc tc hij).

(** [for (unsigned i = 0; i < hand.size() - 1; i++)] around
    [for (unsigned k = i + 1; k < to; k++)]. *)
Definition fill_loops {E : Type} (conv : E -> Matrix44) (fuel : nat)
    (tc : TransformCont) (hand eye : list E) (bUseAllPairs : bool)
    : outcome TransformCont :=
  for_loop fuel
    (fun i => (i <? to_size_t (size hand - 1))%Z)
    (fun i => to_unsigned (i + 1))
    (fun i tc =>
       let to := to_unsigned (if bUseAllPairs then size hand
                              else to_unsigned (i + 2)) in
       for_loop fuel
         (fun k => (k <? to)%Z)
         (fun k => to_unsigned (k + 1))
         (fun k tc => fill_pair conv hand eye i k tc)
         (to_unsigned (i + 1)) tc)
    0%Z tc.

(** The template on 4x4 matrices. *)
Definition fillTransformationVectors (fuel : nat) (tc : TransformCont)
    (hand eye : list Matrix44) (bUseAllPairs : bool) : outcome TransformCont :=
  fill_loops (fun h => h) fuel tc hand eye bUseAllPairs.

(** The overload on poses. *)
Definition fillTransformationVectors_Pose (fuel : nat) (tc : TransformCont)
    (hand eye : list Pose) (bUseAllPairs : bool) : outcome TransformCont :=
  fill_loops Matrix44_of_Pose fuel tc hand eye bUseAllPairs.

(** *** The entry points *)

Definition sizes_do_not_match : string := "Input sizes do not match".

Definition sentinel : Pose := mkPose Quaternion_default (mkVector3 0 0 0).

Definition performHandEyeCalibrationImp (fuel : nat)
    (hand eye : list Matrix44) (bUseAllPairs : bool) : outcome Pose :=
  if negb (size eye =? size hand)%Z then Throw sizes_do_not_match
  else if (size eye <=? 2)%Z then Return sentinel
  else
    tc <- setNumber TransformCont_new (to_int (size eye)) bUseAllPairs ;;
    tc <- fillTransformationVectors fuel tc hand eye bUseAllPairs ;;
    rcg <- computePcg tc ;;
    tcg <- computeTcg tc rcg ;;
    Return (mkPose (Quaternion_of_Matrix33 rcg) tcg).

(** The overload on [std::vector<Math::Pose>]. *)
Definition performHandEyeCalibration (fuel : nat)
    (hand eye : list Pose) (bUseAllPairs : bool) : outcome Pose :=
  if negb (size eye =? size hand)%Z then Throw sizes_do_not_match
  else if (size eye <=? 2)%Z then Return sentinel
  else
    tc <- setNumber TransformCont_new (to_int (size eye)) bUseAllPairs ;;
    tc <- fillTransformationVectors_Pose fuel tc hand eye bUseAllPairs ;;
    rcg <- computePcg tc ;;
    tcg <- computeTcg tc rcg ;;
    Return (mkPose (Quaternion_of_Matrix33 rcg) tcg).

End WithLinearAlgebra.

End HandEyeCalibration.

(* ===================================================================== *)
(** ** [MultipleCameraPoseOptimization.cpp] *)
(* ===================================================================== *)

Module MultipleCameraPoseOptimization.

Open Scope R_scope.

Record Vector6 : Type := mkVector6 {
  p0 : R; p1 : R; p2 : R; p3 : R; p4 : R; p5 : R;
}.

(** [Math::ErrorPose]: a pose with a 6x6 covariance. *)
Record ErrorPose : Type := mkErrorPose {
  ep_rotation : Quaternion;
  ep_translation : Vector3;
  ep_covariance : matrix;
}.

(** What the constructor of [ObjectiveFunction<double>] is given. *)
Record ObjectiveFunction : Type := mkObjectiveFunction {
  of_p3D : list Vector3;
  of_cameraRotations : list Matrix33;
  of_cameraTranslations : list Vector3;
  of_cameraIntrinsics : list Matrix33;
  of_observations : list (Z * Z);
}.

(** [Math::OptTerminate(maxIterations, eps)] *)
Record OptTerminate : Type := mkOptTerminate {
  maxIterations : Z;
  eps : R;
}.

Inductive InitializationMethod_t : Type := PLANAR_HOMOGRAPHY | NONPLANAR_PROJECTION.

(** Functions of [utMath] and [utCalibration] the file calls without
    defining them. *)
Class PoseEstimation : Type := {
  (** [Calibration::computePose] of [utCalibration/2D3DPoseEstimation.h]. *)
  computePose : list Vector2 -> list Vector3 -> Matrix33 ->
                InitializationMethod_t -> Pose;
  (** [Math::levenbergMarquardt] with [Math::OptNoNormalize]: the parameter
      vector it leaves in [param] and the residual it returns. *)
  levenbergMarquardt : ObjectiveFunction -> Vector6 -> list R -> OptTerminate ->
                       Vector6 * R;
  (** [operator*] on poses. *)
  Pose_mul : Pose -> Pose -> Pose;
  toLogarithm : Quaternion -> Vector3;
  fromLogarithm : Vector3 -> Quaternion;
  (** The conversion [Math::Matrix<3,3>(const Math::Quaternion&)]. *)
  Matrix33_of_Quaternion : Quaternion -> Matrix33;
  (** The default constructors [Math::ErrorPose()], [Math::Pose()],
      [Math::Matrix<3,3>()] and [Math::Vector<3>()]. *)
  ErrorPose_default : ErrorPose;
  Pose_default : Pose;
  Matrix33_default : Matrix33;
  Vector3_default : Vector3;
  (** The indeterminate content of a freshly constructed [ublas::vector]. *)
  uninitialized_vector : Z -> R;
}.

(** [Math::Matrix<6,6>::identity() * res] *)
Definition scaled_identity6 (res : R) : matrix :=
  map (fun i => map (fun j => if (i =? j)%Z then 1 * res else 0 * res)
                    (int_range 0 5))
      (int_range 0 5).

(** [std::min_element] and [std::max_element], as offsets from [begin()];
    on an empty range both return [end()], which is offset 0. *)
Fixpoint min_element_from (smallest : nat) (vsmallest : Z) (first : nat)
    (l : list Z) : nat :=
  match l with
  | [] => smallest
  | x :: t => if (x <? vsmallest)%Z
              then min_element_from first x (S first) t
              else min_element_from smallest vsmallest (S first) t
  end.

Definition min_element (l : list Z) : nat :=
  match l with
  | [] => 0%nat
  | x :: t => min_element_from 0 x 1 t
  end.

Fixpoint max_element_from (largest : nat) (vlargest : Z) (first : nat)
    (l : list Z) : nat :=
  match l with
  | [] => largest
  | x :: t => if (vlargest <? x)%Z
              then max_element_from first x (S first) t
              else max_element_from largest vlargest (S first) t
  end.

Definition max_element (l : list Z) : nat :=
  match l with
  | [] => 0%nat
  | x :: t => max_element_from 0 x 1 t
  end.

(** [v.at(i).push_back(x)] and [v.at(i)++]. *)
Definition modify_at {A : Type} (v : list A) (i : Z) (f : A -> A)
    : outcome (list A) :=
  x <- at_ v i ;; set_at v i (f x).

(** The vectors the filtering loop fills.  The counters
    [observationCountTotal] and, further down, [iIndex] are [int] in the
    code and integers here: the model follows the code as long as twice the
    number of observations is within [int]. *)
Record Filtered : Type := mkFiltered {
  observations : list (Z * Z);
  p3dLocal : list Vector3;
  p3dLocalFiltered : list (list Vector3);
  p2dLocal : list (list Vector2);
  observationCountTotal : Z;
  observationCount : list Z;
}.

Definition Filtered_new (numberCameras : nat) : Filtered :=
  mkFiltered [] [] (repeat [] numberCameras) (repeat [] numberCameras)
             0 (repeat 0%Z numberCameras).

Section WithPoseEstimation.

Context `{PE : PoseEstimation}.

Variable points3d : list Vector3.
Variable points2d : list (list Vector2).
Variable points2dWeights : list (list R).
Variable camPoses : list Pose.
Variable camMatrices : list Matrix33.

(** The body of the two filtering loops. *)
Definition filter_body (startIndex : Z) (cameraIndex pointIndex : Z)
    (st : Filtered) : outcome Filtered :=
  wrow <- index points2dWeights cameraIndex ;;
  w <- index wrow pointIndex ;;
  st <- (if Req_dec_T w 0 then Return st
         else
           let obs := observations st ++
                      [(to_unsigned (pointIndex - startIndex),
                        to_unsigned cameraIndex)] in
           cam2d <- at_ points2d cameraIndex ;;
           pt2d <- at_ cam2d pointIndex ;;
           p2d <- modify_at (p2dLocal st) cameraIndex (fun l => l ++ [pt2d]) ;;
           pt3d <- at_ points3d pointIndex ;;
           p3df <- modify_at (p3dLocalFiltered st) cameraIndex
                             (fun l => l ++ [pt3d]) ;;
           let total := (observationCountTotal st + 1)%Z in
           cnt <- modify_at (observationCount st) cameraIndex Z.succ ;;
           Return (mkFiltered obs (p3dLocal st) p3df p2d total cnt)) ;;
  if (cameraIndex =? 0)%Z
  then pt3d <- at_ points3d pointIndex ;;
       Return (mkFiltered (observations st) (p3dLocal st ++ [pt3d])
                          (p3dLocalFiltered st) (p2dLocal st)
                          (observationCountTotal st) (observationCount st))
  else Return st.

Definition filter_loops (startIndex endIndex : Z) : outcome Filtered :=
  let numberCameras := size points2dWeights in
  foldM (fun cameraIndex st =>
           foldM (filter_body startIndex cameraIndex)
                 (int_range startIndex endIndex) st)
        (int_range 0 (numberCameras - 1))
        (Filtered_new (length points2dWeights)).

(** The loop that copies the local 2D points into [measurements]; the state
    is the vector and [iIndex]. *)
Definition measurements_body (p2dLocal : list (list Vector2))
    (cameraIndex pointIndex : Z) (s : list R * Z) : outcome (list R * Z) :=
  let (measurements, iIndex) := s in
  cam2d <- at_ p2dLocal cameraIndex ;;
  pt <- at_ cam2d pointIndex ;;
  measurements <- set_index measurements (2 * iIndex) (u0 pt) ;;
  measurements <- set_index measurements (2 * iIndex + 1) (u1 pt) ;;
  Return (measurements, (iIndex + 1)%Z).

(** The condition of the inner loop, [pointIndex < p2dLocal.at(cameraIndex)
    .size()], can itself throw; the model then enters the body, whose first
    step is the same [at] and throws the same exception. *)
Definition measurements_loops (fuel : nat) (p2dLocal : list (list Vector2))
    (observationCountTotal : Z) : outcome (list R) :=
  let numberCameras := size points2dWeights in
  let measurements := map uninitialized_vector
                          (int_range 0 (2 * observationCountTotal - 1)) in
  s <- for_loop fuel
         (fun cameraIndex => (cameraIndex <? numberCameras)%Z)
         (fun cameraIndex => to_unsigned (cameraIndex + 1))
         (fun cameraIndex s =>
            for_loop fuel
              (fun pointIndex =>
                 match at_ p2dLocal cameraIndex with
                 | Return cam2d => (pointIndex <? size cam2d)%Z
                 | _ => true
                 end)
              (fun pointIndex => to_unsigned (pointIndex + 1))
              (measurements_body p2dLocal cameraIndex)
              0%Z s)
         0%Z (measurements, 0%Z) ;;
  Return (fst s).

(** The loop that fills [camRotations] and [camTranslations]. *)
Definition cameras_body (cameraIndex : Z) (s : list Matrix33 * list Vector3)
    : outcome (list Matrix33 * list Vector3) :=
  let (camRotations, camTranslations) := s in
  pose <- index camPoses cameraIndex ;;
  camRotations <- set_index camRotations cameraIndex
                            (Matrix33_of_Quaternion (rotation pose)) ;;
  pose <- index camPoses cameraIndex ;;
  camTranslations <- set_index camTranslations cameraIndex (translation pose) ;;
  Return (camRotations, camTranslations).

Definition cameras_loop (fuel : nat) : outcome (list Matrix33 * list Vector3) :=
  let numberCameras := size points2dWeights in
  for_loop fuel
    (fun cameraIndex => (cameraIndex <? numberCameras)%Z)
    (fun cameraIndex => to_unsigned (cameraIndex + 1))
    cameras_body
    0%Z
    (repeat Matrix33_default (length camPoses),
     repeat Vector3_default (length camPoses)).

(** The rejected result: [(Math::ErrorPose(), -1.0)]. *)
Definition rejected : ErrorPose * R := (ErrorPose_default, -1).

Definition multipleCameraEstimatePose (fuel : nat) (minCorrespondences : Z)
    (hasInitialPoseProvided : bool) (initialPose : Pose)
    (startIndex endIndex : Z) : outcome (ErrorPose * R) :=
  let endIndex := if (endIndex =? -1)%Z then (to_int (size points3d) - 1)%Z
                  else endIndex in
  st <- filter_loops startIndex endIndex ;;
  let minElement := min_element (observationCount st) in
  minObs <- index (observationCount st) (Z.of_nat minElement) ;;
  let maxObsIndex := to_int (Z.of_nat (max_element (observationCount st))) in
  maxObs <- at_ (observationCount st) maxObsIndex ;;
  if ((minCorrespondences <=? minObs)%Z
      && (hasInitialPoseProvided || (4 <=? maxObs)%Z))%bool
  then
    initialPose <-
      (if negb hasInitialPoseProvided
       then camPose <- at_ camPoses maxObsIndex ;;
            p2d <- at_ (p2dLocal st) maxObsIndex ;;
            p3d <- at_ (p3dLocalFiltered st) maxObsIndex ;;
            camMatrix <- at_ camMatrices maxObsIndex ;;
            Return (Pose_mul camPose
                      (computePose p2d p3d camMatrix PLANAR_HOMOGRAPHY))
       else Return initialPose) ;;
    measurements <- measurements_loops fuel (p2dLocal st)
                                       (observationCountTotal st) ;;
    cams <- cameras_loop fuel ;;
    let (camRotations, camTranslations) := cams in
    let f := mkObjectiveFunction (p3dLocal st) camRotations camTranslations
                                 camMatrices (observations st) in
    let t := translation initialPose in
    let l := toLogarithm (rotation initialPose) in
    let param := mkVector6 (c0 t) (c1 t) (c2 t) (c0 l) (c1 l) (c2 l) in
    let (param, res) :=
      levenbergMarquardt f param measurements
                         (mkOptTerminate 10 (1 / 1000000)) in
    let finalPose :=
      mkErrorPose (fromLogarithm (mkVector3 (p3 param) (p4 param) (p5 param)))
                  (mkVector3 (p0 param) (p1 param) (p2 param))
                  (scaled_identity6 res) in
    Return (finalPose, res)
  else Return rejected.

Definition requires_3_points : string :=
  "2D6D pose estimation requires at least 3 points".
Definition same_number_of_cameras : string :=
  "All input sets must have the same number of cameras".
Definition same_number_of_measurements : string :=
  "All cameras must have same number of measurements as 3D points".

Definition checkConsistency_body (cameraIndex : Z) (_ : unit) : outcome unit :=
  w <- index points2dWeights cameraIndex ;;
  if negb (size points3d =? size w)%Z
  then Throw same_number_of_measurements
  else
    p <- index points2d cameraIndex ;;
    if negb (size points3d =? size p)%Z
    then Throw same_number_of_measurements
    else Return tt.

Definition checkConsistency : outcome unit :=
  let numberCameras := size points2dWeights in
  if (size points3d <? 3)%Z then Throw requires_3_points
  else if (negb (size points2d =? size points2dWeights)%Z
           || negb (size points2d =? size camPoses)%Z
           || negb (size points2d =? size camMatrices)%Z)%bool
  then Throw same_number_of_cameras
  else foldM checkConsistency_body (int_range 0 (numberCameras - 1)) tt.

(** The loop body of [multipleCameraPoseEstimationWithLocalBundles]: the
    state is [poses], [poseWeights] and [localBundleOffset]. *)
Definition bundle_body (fuel : nat) (minCorrespondences : Z)
    (localBundleSizes : list Z)
    (localBundleIndex : Z) (s : list ErrorPose * list R * Z)
    : outcome (list ErrorPose * list R * Z) :=
  let '(poses, poseWeights, localBundleOffset) := s in
  localBundleSize <- at_ localBundleSizes localBundleIndex ;;
  size_again <- at_ localBundleSizes localBundleIndex ;;
  estimate <- multipleCameraEstimatePose fuel minCorrespondences false
                Pose_default
                localBundleOffset (localBundleOffset + size_again - 1)%Z ;;
  Return (poses ++ [fst estimate], poseWeights ++ [snd estimate],
          (localBundleOffset + localBundleSize)%Z).

(** The vectors [poses] and [poseWeights] are passed by reference; the model
    takes their content on entry and returns their content on exit. *)
Definition multipleCameraPoseEstimationWithLocalBundles (fuel : nat)
    (minCorrespondences : Z)
    (poses : list ErrorPose) (poseWeights : list R) (localBundleSizes : list Z)
    : outcome (list ErrorPose * list R) :=
  checkConsistency ;;;
  let localBundleOffset := 0%Z in
  s <- foldM (bundle_body fuel minCorrespondences localBundleSizes)
             (int_range 0 (size localBundleSizes - 1))
             (poses, poseWeights, localBundleOffset) ;;
  Return (fst s).

End WithPoseEstimation.

End MultipleCameraPoseOptimization.

(* ===================================================================== *)
(** ** The specification's wording *)
(* ===================================================================== *)

(** Definitions that follow the text of the specification; the properties
    below compare them with the code. *)
Module Spec.

Open Scope R_scope.

(** Section 4.1: "for i in [0,N-1): for each k in the selected range
    (k=i+1 only, or i+1..N-1)". *)
Definition selected_pairs (N : nat) (useAllPairs : bool) : list (nat * nat) :=
  flat_map (fun i => map (pair i)
                         (seq (S i) (if useAllPairs then N - S i else 1)))
           (seq 0 (N - 1)).

(** Section 3: "H_ik = inverse(pose_k) * pose_i; E_ik = pose_k * inverse(pose_i)". *)
Definition H_ik `{LA : LinearAlgebra} (pose_i pose_k : Matrix44) : Matrix44 :=
  prod44 (invert_matrix pose_k) pose_i.

Definition E_ik `{LA : LinearAlgebra} (pose_i pose_k : Matrix44) : Matrix44 :=
  prod44 pose_k (invert_matrix pose_i).

(** The motion pair for the index pair [(i, k)]: [conv] turns an element of
    the input sequences into a 4x4 matrix, [d] stands for an element out of
    range. *)
Definition motion_pair `{LA : LinearAlgebra} {E : Type} (conv : E -> Matrix44)
    (d : E) (hand eye : list E) (ik : nat * nat) : Matrix44 * Matrix44 :=
  (H_ik (conv (nth (fst ik) hand d)) (conv (nth (snd ik) hand d)),
   E_ik (conv (nth (fst ik) eye d)) (conv (nth (snd ik) eye d))).

(** The container after the given pairs were pushed. *)
Definition append_pairs (tc : HandEyeCalibration.TransformCont)
    (l : list (Matrix44 * Matrix44)) : HandEyeCalibration.TransformCont :=
  HandEyeCalibration.mkTransformCont
    (HandEyeCalibration.m_hg tc ++ map fst l)
    (HandEyeCalibration.m_hc tc ++ map snd l).

(** The container holding exactly the given pairs. *)
Definition container (pairs : list (Matrix44 * Matrix44))
    : HandEyeCalibration.TransformCont :=
  HandEyeCalibration.mkTransformCont (map fst pairs) (map snd pairs).

(** The three rows of a 3x3 block and the three rows of a 3-vector, as rows
    of a stacked system. *)
Definition rows_of (m : Matrix33) : matrix :=
  [ [m00 m; m01 m; m02 m]; [m10 m; m11 m; m12 m]; [m20 m; m21 m; m22 m] ].

Definition column_of (v : Vector3) : matrix := [ [c0 v]; [c1 v]; [c2 v] ].

(** A stacked 3P x 3 system: one left-hand block and one right-hand block
    per pair. *)
Definition stacked (left : Matrix44 * Matrix44 -> Matrix33)
    (right : Matrix44 * Matrix44 -> Vector3)
    (pairs : list (Matrix44 * Matrix44)) : matrix * matrix :=
  (flat_map (fun p => rows_of (left p)) pairs,
   flat_map (fun p => column_of (right p)) pairs).

(** The common shape of the loop bodies of [computePcg] and [computeTcg]:
    [sides] computes the right-hand vector and the left-hand block of a
    pair. *)
Definition stack_body (sides : Matrix44 -> Matrix44 -> Vector3 * Matrix33)
    (tc : HandEyeCalibration.TransformCont) (i : Z) (s : matrix * matrix)
    : outcome (matrix * matrix) :=
  let (tA, tB) := s in
  hgij <- HandEyeCalibration.hg_at tc i ;;
  hcij <- HandEyeCalibration.hc_at tc i ;;
  let (right, left) := sides hgij hcij in
  tB <- HandEyeCalibration.store_right tB i right ;;
  tA <- HandEyeCalibration.store_block tA i left ;;
  Return (tA, tB).

Definition left_block (sides : Matrix44 -> Matrix44 -> Vector3 * Matrix33)
    (p : Matrix44 * Matrix44) : Matrix33 :=
  snd (sides (fst p) (snd p)).

Definition right_block (sides : Matrix44 -> Matrix44 -> Vector3 * Matrix33)
    (p : Matrix44 * Matrix44) : Vector3 :=
  fst (sides (fst p) (snd p)).

(** The two pair-vectors of section 4.2, step 2: the quaternion vectors
    extracted from the rotation blocks of the hand-side and of the eye-side
    transform. *)
Definition hand_vector (p : Matrix44 * Matrix44) : Vector3 :=
  HandEyeCalibration.getQuaternion (rotation_block (fst p)).

Definition eye_vector (p : Matrix44 * Matrix44) : Vector3 :=
  HandEyeCalibration.getQuaternion (rotation_block (snd p)).

(** "left side is the cross-product (skew-symmetric) operator on the sum of
    the two pair-vectors and whose right side is their difference". *)
Definition cross_product_matrix (v : Vector3) : Matrix33 :=
  mkMatrix33 0        (- c2 v) (c1 v)
             (c2 v)   0        (- c0 v)
             (- c1 v) (c0 v)   0.

Definition rotation_system (pairs : list (Matrix44 * Matrix44)) : matrix * matrix :=
  stacked (fun p => cross_product_matrix (vadd (hand_vector p) (eye_vector p)))
          (fun p => vsub (eye_vector p) (hand_vector p))
          pairs.

(** "divide by sqrt(1+|v|^2), scale by 2". *)
Definition rescaled (v : Vector3) : Vector3 :=
  let n := sqrt (1 + (c0 v * c0 v + c1 v * c1 v + c2 v * c2 v)) in
  mkVector3 (2 * c0 v / n) (2 * c1 v / n) (2 * c2 v / n).

(** Section 4.2, step 3: "left side = (hand rotation block - identity) per
    pair, right side = (estimated rotation) * (eye translation) - (hand
    translation)". *)
Definition translation_system (rcg : Matrix33)
    (pairs : list (Matrix44 * Matrix44)) : matrix * matrix :=
  stacked (fun p => msub (rotation_block (fst p)) identity_matrix3)
          (fun p => vsub (prod33v rcg (translation_column (snd p)))
                         (translation_column (fst p)))
          pairs.

(** The first three entries of the solution [gels] leaves in [B]. *)
Definition solution `{LA : LinearAlgebra} (system : matrix * matrix) : Vector3 :=
  let x := snd (gels "N"%char (fst system) (snd system)) in
  mkVector3 (x 0 0)%Z (x 1 0)%Z (x 2 0)%Z.

(** Section 4.2, steps 2 to 4, on the pairs built in step 1. *)
Definition calibration `{LA : LinearAlgebra} (pairs : list (Matrix44 * Matrix44))
    : Pose :=
  let rcg := HandEyeCalibration.getMatrix
               (rescaled (solution (rotation_system pairs))) in
  let tcg := solution (translation_system rcg pairs) in
  mkPose (Quaternion_of_Matrix33 rcg) tcg.

(** The sizes for which the [int] computations of the solver stay in range:
    the sequence length, its square in all-pairs mode, and three times the
    number of pairs. *)
Definition sizes_fit (N : nat) (useAllPairs : bool) : Prop :=
  (Z.of_nat N <= INT_MAX)%Z /\
  (useAllPairs = true -> (Z.of_nat N * Z.of_nat N <= INT_MAX)%Z) /\
  (3 * Z.of_nat (length (selected_pairs N useAllPairs)) <= INT_MAX)%Z.

(** The same environment with a solver that reports the status [status]
    instead of its own, and leaves the same entries in [B]. *)
Definition report_status (LA : LinearAlgebra)
    (status : ascii -> matrix -> matrix -> Z) : LinearAlgebra :=
  {| invert_matrix := invert_matrix;
     gels := fun trans A B => (status trans A B, snd (gels trans A B));
     Quaternion_of_Matrix33 := Quaternion_of_Matrix33;
     Matrix44_of_Pose := Matrix44_of_Pose;
     uninitialized := uninitialized |}.

(** A system whose columns are linearly dependent. *)
Definition rank_deficient (A : matrix) : Prop :=
  exists x0 x1 x2 : R,
    (x0 <> 0 \/ x1 <> 0 \/ x2 <> 0) /\
    Forall (fun row => arr row 0 * x0 + arr row 1 * x1 + arr row 2 * x2 = 0) A.

End Spec.

(* ===================================================================== *)
(** ** A reference environment *)
(* ===================================================================== *)

(** Instances of the external interfaces, for the examples: exact-arithmetic
    counterparts of the library routines. *)
Module Reference.

Open Scope R_scope.

(** The inverse of a rigid transform [[R t; 0 1]] is [[R^T, -R^T t; 0 1]]. *)
Definition invert_rigid (h : Matrix44) : Matrix44 :=
  mkMatrix44
    (h00 h) (h10 h) (h20 h) (- (h00 h * h03 h + h10 h * h13 h + h20 h * h23 h))
    (h01 h) (h11 h) (h21 h) (- (h01 h * h03 h + h11 h * h13 h + h21 h * h23 h))
    (h02 h) (h12 h) (h22 h) (- (h02 h * h03 h + h12 h * h13 h + h22 h * h23 h))
    0 0 0 1.

Definition column (A : matrix) (j : nat) : list R := map (fun row => arr row j) A.

Fixpoint dot (u v : list R) : R :=
  match u, v with
  | a :: u', b :: v' => a * b + dot u' v'
  | _, _ => 0
  end.

Definition det3 (a b c d e f g h i : R) : R :=
  a * (e * i - f * h) - b * (d * i - f * g) + c * (d * h - e * g).

(** Least squares for three unknowns by the normal equations
    [(A^T A) x = A^T b] and Cramer's rule.  As xGELS does, it reports
    [info > 0] when [A] does not have full column rank; [B] is then left as
    it was.  Otherwise [info = 0] and the first three rows of [B] hold the
    solution. *)
Definition normal_equations_gels (trans : ascii) (A B : matrix)
    : Z * (Z -> Z -> R) :=
  let a0 := column A 0 in
  let a1 := column A 1 in
  let a2 := column A 2 in
  let b := column B 0 in
  let n00 := dot a0 a0 in
  let n01 := dot a0 a1 in
  let n02 := dot a0 a2 in
  let n11 := dot a1 a1 in
  let n12 := dot a1 a2 in
  let n22 := dot a2 a2 in
  let r0 := dot a0 b in
  let r1 := dot a1 b in
  let r2 := dot a2 b in
  let D := det3 n00 n01 n02 n01 n11 n12 n02 n12 n22 in
  let unchanged := fun i j : Z => arr (nth (Z.to_nat i) B []) (Z.to_nat j) in
  if Req_dec_T D 0
  then (1%Z, unchanged)
  else (0%Z,
        fun i j =>
          if (j =? 0)%Z
          then if (i =? 0)%Z then det3 r0 n01 n02 r1 n11 n12 r2 n12 n22 / D
               else if (i =? 1)%Z then det3 n00 r0 n02 n01 r1 n12 n02 r2 n22 / D
               else if (i =? 2)%Z then det3 n00 n01 r0 n01 n11 r1 n02 n12 r2 / D
               else unchanged i j
          else unchanged i j).

(** The unit quaternion with non-negative scalar part whose vector part is
    the one [getQuaternion] extracts. *)
Definition quaternion_of_rotation (m : Matrix33) : Quaternion :=
  let v := HandEyeCalibration.getQuaternion m in
  mkQuaternion (c0 v) (c1 v) (c2 v)
               (sqrt (1 - (c0 v * c0 v + c1 v * c1 v + c2 v * c2 v))).

Definition rotation_of_quaternion (q : Quaternion) : Matrix33 :=
  let x := qx q in let y := qy q in let z := qz q in let w := qw q in
  mkMatrix33
    (1 - 2 * (y * y + z * z)) (2 * (x * y - z * w)) (2 * (x * z + y * w))
    (2 * (x * y + z * w)) (1 - 2 * (x * x + z * z)) (2 * (y * z - x * w))
    (2 * (x * z - y * w)) (2 * (y * z + x * w)) (1 - 2 * (x * x + y * y)).

Definition homogeneous (p : Pose) : Matrix44 :=
  let r := rotation_of_quaternion (rotation p) in
  let t := translation p in
  mkMatrix44 (m00 r) (m01 r) (m02 r) (c0 t)
             (m10 r) (m11 r) (m12 r) (c1 t)
             (m20 r) (m21 r) (m22 r) (c2 t)
             0 0 0 1.

#[local] Instance linear_algebra : LinearAlgebra := {|
  invert_matrix := invert_rigid;
  gels := normal_equations_gels;
  Quaternion_of_Matrix33 := quaternion_of_rotation;
  Matrix44_of_Pose := homogeneous;
  uninitialized := fun _ _ => 0;
|}.

End Reference.

(** Concrete inputs for the examples. *)
Module Examples.

Open Scope R_scope.

(** Three times the same pose: no relative motion at all. *)
Definition identity_poses : list Matrix44 :=
  [identity_matrix4; identity_matrix4; identity_matrix4].

Definition sentinel_poses : list Pose :=
  [HandEyeCalibration.sentinel; HandEyeCalibration.sentinel;
   HandEyeCalibration.sentinel].

(** The two motion pairs of [identity_poses] in consecutive mode. *)
Definition identical_pairs : list (Matrix44 * Matrix44) :=
  [(identity_matrix4, identity_matrix4); (identity_matrix4, identity_matrix4)].

(** The stacked system of two pairs whose blocks all vanish. *)
Definition zero_system : matrix * matrix :=
  (repeat [0; 0; 0] 6, repeat [0] 6).

End Examples.

(* ===================================================================== *)
(** ** The specification's wording: multi-camera refinement *)
(* ===================================================================== *)

Module RigSpec.

Import MultipleCameraPoseOptimization.

Open Scope R_scope.

Section WithInputs.

Context `{PE : PoseEstimation}.

Variable points3d : list Vector3.
Variable points2d : list (list Vector2).
Variable points2dWeights : list (list R).
Variable camPoses : list Pose.
Variable camMatrices : list Matrix33.

(** The weight of point [p] in camera [c]; "0 => not visible". *)
Definition weight (c p : Z) : R :=
  nth (Z.to_nat p) (nth (Z.to_nat c) points2dWeights []) 0.

Definition visible (c p : Z) : bool :=
  if Req_dec_T (weight c p) 0 then false else true.

Definition point3 (p : Z) : Vector3 := nth (Z.to_nat p) points3d Vector3_default.

Definition point2 (c p : Z) : Vector2 :=
  nth (Z.to_nat p) (nth (Z.to_nat c) points2d []) (mkVector2 0 0).

(** The cameras, and the range the end index stands for. *)
Definition cameras : list Z := int_range 0 (size points2dWeights - 1).

Definition last_index (endIndex : Z) : Z :=
  if (endIndex =? -1)%Z then (size points3d - 1)%Z else endIndex.

(** Section 4.3, filtering: "restrict to point indices in [start,end]. For
    each camera, keep only indices whose weight is not 0". *)
Definition visible_points (startIndex endIndex c : Z) : list Z :=
  filter (visible c) (int_range startIndex endIndex).

(** "per-camera observation counts" *)
Definition observation_counts (startIndex endIndex : Z) : list Z :=
  map (fun c => size (visible_points startIndex endIndex c)) cameras.

Definition sumZ (l : list Z) : Z := fold_right Z.add 0%Z l.

(** "the flattened (localPointIndex, cameraIndex) observation list plus the
    corresponding filtered 2D/3D arrays and per-camera observation counts" *)
Definition filtered (startIndex endIndex : Z) : Filtered :=
  mkFiltered
    (flat_map (fun c => map (fun p => (to_unsigned (p - startIndex), to_unsigned c))
                            (visible_points startIndex endIndex c))
              cameras)
    (match cameras with
     | [] => []
     | _ :: _ => map point3 (int_range startIndex endIndex)
     end)
    (map (fun c => map point3 (visible_points startIndex endIndex c)) cameras)
    (map (fun c => map (point2 c) (visible_points startIndex endIndex c)) cameras)
    (sumZ (observation_counts startIndex endIndex))
    (observation_counts startIndex endIndex).

(** The precondition of section 4.3: "points3D has >= 3 entries; for every
    camera, its 2D-observation and weight arrays have the same length as
    points3D; camPoses and camMatrices both have length K equal to the number
    of weight arrays". *)
Definition precondition : Prop :=
  (3 <= length points3d)%nat /\
  length points2d = length points2dWeights /\
  length camPoses = length points2dWeights /\
  length camMatrices = length points2dWeights /\
  forall c, (c < length points2dWeights)%nat ->
    length (nth c points2dWeights []) = length points3d /\
    length (nth c points2d []) = length points3d.

(** The state of the filtering loops while camera [c] is being scanned and
    the points [ps] of the range were seen: the entries of the cameras before
    [c] come first, those of the cameras after [c] last. *)
Definition scanning (startIndex : Z)
    (obs : list (Z * Z)) (p3d : list Vector3)
    (before3 : list (list Vector3)) (before2 : list (list Vector2))
    (total : Z) (beforeC : list Z)
    (after3 : list (list Vector3)) (after2 : list (list Vector2))
    (afterC : list Z) (c : Z) (ps : list Z) : Filtered :=
  let seen := filter (visible c) ps in
  mkFiltered
    (obs ++ map (fun p => (to_unsigned (p - startIndex), to_unsigned c)) seen)
    (p3d ++ (if (c =? 0)%Z then map point3 ps else []))
    (before3 ++ map point3 seen :: after3)
    (before2 ++ map (point2 c) seen :: after2)
    (total + size seen)
    (beforeC ++ size seen :: afterC).

(** The state of the filtering loops after the first [k] cameras. *)
Definition scanned (startIndex endIndex : Z) (k : nat) : Filtered :=
  let done := map Z.of_nat (seq 0 k) in
  let rest := (length points2dWeights - k)%nat in
  mkFiltered
    (flat_map (fun c => map (fun p => (to_unsigned (p - startIndex), to_unsigned c))
                            (visible_points startIndex endIndex c))
              done)
    (match done with
     | [] => []
     | _ :: _ => map point3 (int_range startIndex endIndex)
     end)
    (map (fun c => map point3 (visible_points startIndex endIndex c)) done
     ++ repeat [] rest)
    (map (fun c => map (point2 c) (visible_points startIndex endIndex c)) done
     ++ repeat [] rest)
    (sumZ (map (fun c => size (visible_points startIndex endIndex c)) done))
    (map (fun c => size (visible_points startIndex endIndex c)) done
     ++ repeat 0%Z rest).

(** "let minObs = min over cameras, maxObs = max over cameras of their
    observation counts" *)
Definition minimum (l : list Z) : Z :=
  match l with
  | [] => 0%Z
  | x :: t => fold_left Z.min t x
  end.

Definition maximum (l : list Z) : Z :=
  match l with
  | [] => 0%Z
  | x :: t => fold_left Z.max t x
  end.


(** The coordinates of a list of 2D points, x then y of each. *)
Definition coordinates (row : list Vector2) : list R :=
  flat_map (fun pt => [u0 pt; u1 pt]) row.

(** The gate as the code tests it. *)
Definition accepted (minCorrespondences : Z) (hasInitialPose : bool)
    (counts : list Z) : bool :=
  ((minCorrespondences <=? minimum counts)%Z
   && (hasInitialPose || (4 <=? maximum counts)%Z))%bool.

(** "Flatten all filtered 2D observations (x,y per observation, ordered
    camera-major then point-minor) into the measurement vector." *)
Definition measurement_vector (startIndex endIndex : Z) : list R :=
  flat_map (fun c => flat_map (fun p => [u0 (point2 c p); u1 (point2 c p)])
                              (visible_points startIndex endIndex c))
           cameras.

(** Bootstrap: the pose of the most-observed camera composed with the
    closed-form solve on that camera's filtered correspondences. *)
Definition bootstrap (startIndex endIndex : Z) : Pose :=
  let best := Z.of_nat (max_element (observation_counts startIndex endIndex)) in
  Pose_mul (nth (Z.to_nat best) camPoses Pose_default)
           (computePose (map (point2 best) (visible_points startIndex endIndex best))
                        (map point3 (visible_points startIndex endIndex best))
                        (nth (Z.to_nat best) camMatrices Matrix33_default)
                        PLANAR_HOMOGRAPHY).

(** The objective function, the 6-parameter encoding of the starting pose,
    and the result built from the optimized parameters and the residual. *)
Definition objective (startIndex endIndex : Z) : ObjectiveFunction :=
  let st := filtered startIndex endIndex in
  mkObjectiveFunction
    (p3dLocal st)
    (map (fun pose => Matrix33_of_Quaternion (rotation pose)) camPoses)
    (map translation camPoses)
    camMatrices
    (observations st).

Definition encode (pose : Pose) : Vector6 :=
  let t := translation pose in
  let l := toLogarithm (rotation pose) in
  mkVector6 (c0 t) (c1 t) (c2 t) (c0 l) (c1 l) (c2 l).

Definition decode (optimized : Vector6 * R) : ErrorPose * R :=
  let (param, res) := optimized in
  (mkErrorPose (fromLogarithm (mkVector3 (p3 param) (p4 param) (p5 param)))
               (mkVector3 (p0 param) (p1 param) (p2 param))
               (scaled_identity6 res),
   res).

(** Refinement: "iterative damped least-squares engine, capped at 10
    iterations with a 1e-6 residual-improvement termination tolerance". *)
Definition refined (hasInitialPose : bool) (initialPose : Pose)
    (startIndex endIndex : Z) : ErrorPose * R :=
  let start := if hasInitialPose then initialPose
               else bootstrap startIndex endIndex in
  decode (levenbergMarquardt (objective startIndex endIndex) (encode start)
            (measurement_vector startIndex endIndex)
            (mkOptTerminate 10 (1 / 1000000))).

(** The sub-range [[offset, offset + size - 1]] of each local bundle, the
    offsets advancing by the sizes. *)
Fixpoint bundle_ranges_from (offset : Z) (sizes : list Z) : list (Z * Z) :=
  match sizes with
  | [] => []
  | s :: rest =>
      (offset, (offset + s - 1)%Z) :: bundle_ranges_from (offset + s)%Z rest
  end.

Definition bundle_ranges (sizes : list Z) : list (Z * Z) :=
  bundle_ranges_from 0 sizes.

End WithInputs.

(** The results of a list of calls, in order; the first call that does not
    return decides the outcome. *)
Fixpoint collect {A : Type} (calls : list (outcome A)) : outcome (list A) :=
  match calls with
  | [] => Return []
  | call :: rest => x <- call ;; xs <- collect rest ;; Return (x :: xs)
  end.

End RigSpec.

(** An environment for the examples of the multi-camera part.  The pose
    algebra is the usual one; the two solvers are stand-ins of the right
    type: a point-pose solve that answers the identity pose and an optimizer
    that stops at once, its residual the squared norm of the measurements. *)
Module RigReference.

Import MultipleCameraPoseOptimization.

Open Scope R_scope.

Definition quaternion_mul (a b : Quaternion) : Quaternion :=
  mkQuaternion
    (qw a * qx b + qx a * qw b + qy a * qz b - qz a * qy b)
    (qw a * qy b - qx a * qz b + qy a * qw b + qz a * qx b)
    (qw a * qz b + qx a * qy b - qy a * qx b + qz a * qw b)
    (qw a * qw b - qx a * qx b - qy a * qy b - qz a * qz b).

Definition pose_mul (a b : Pose) : Pose :=
  mkPose (quaternion_mul (rotation a) (rotation b))
         (vadd (prod33v (Reference.rotation_of_quaternion (rotation a))
                        (translation b))
               (translation a)).

Definition squared_norm (v : list R) : R :=
  fold_right (fun x acc => x * x + acc) 0 v.

#[local] Instance pose_estimation : PoseEstimation := {|
  computePose := fun _ _ _ _ => HandEyeCalibration.sentinel;
  levenbergMarquardt := fun _ param measurements _ =>
                          (param, squared_norm measurements);
  Pose_mul := pose_mul;
  toLogarithm := fun q => mkVector3 (qx q) (qy q) (qz q);
  fromLogarithm := fun v =>
    mkQuaternion (c0 v) (c1 v) (c2 v)
                 (sqrt (1 - (c0 v * c0 v + c1 v * c1 v + c2 v * c2 v)));
  Matrix33_of_Quaternion := Reference.rotation_of_quaternion;
  ErrorPose_default :=
    mkErrorPose Quaternion_default (mkVector3 0 0 0) (scaled_identity6 0);
  Pose_default := HandEyeCalibration.sentinel;
  Matrix33_default := identity_matrix3;
  Vector3_default := mkVector3 0 0 0;
  uninitialized_vector := fun _ => 0;
|}.

(** A rig of one camera that sees three points, the second one not. *)
Definition three_points : list Vector3 :=
  [mkVector3 0 0 0; mkVector3 1 0 0; mkVector3 0 1 0].

Definition one_camera_2d : list (list Vector2) :=
  [[mkVector2 0 0; mkVector2 1 0; mkVector2 0 1]].

Definition one_camera_weights : list (list R) := [[1; 0; 1]].

Definition one_camera_poses : list Pose := [HandEyeCalibration.sentinel].

Definition one_camera_matrices : list Matrix33 := [identity_matrix3].


End RigReference.
(* ===================================================================== *)
(** ** [utMath/Geometry/Conic.h] *)
(* ===================================================================== *)

(** The functors of the header, each as the function its [operator()]
    computes; a functor with data members is a record, each of its
    constructors a function that builds the record.

    A conic is the 6-vector [(a, b, c, d, e, f)] of the curve
    [a x^2 + b x y + c y^2 + d x + e y + f = 0]; it has the type of the
    parameter vector of the pose optimization, [Math::Vector<6>].

    [ConicAngle], and with it [ConicSemiAxes] and [ConicArea], are left out:
    the angle is [std::atan] of a quotient whose divisor vanishes for every
    circle, where IEEE arithmetic goes on with an infinity and still answers
    a finite angle; real numbers have no counterpart of that. *)
Module Conic.

Import MultipleCameraPoseOptimization.

Open Scope R_scope.

(** *** Expressions that may leave the real numbers *)

(** [x / y] and [std::sqrt(x)].  A quotient by zero and the root of a
    negative number are an infinity or a NaN in IEEE arithmetic, and so is
    every product, quotient and sum computed from one; the model has [None]
    for a result with such a component. *)
Definition divide (x y : R) : option R :=
  if Req_dec_T y 0 then None else Some (x / y).

Definition square_root (x : R) : option R :=
  if Rlt_dec x 0 then None else Some (sqrt x).

Definition and_then {A B : Type} (m : option A) (k : A -> option B) : option B :=
  match m with
  | Some a => k a
  | None => None
  end.

Notation "'let?' x ':=' m 'in' k" := (and_then m (fun x => k))
  (at level 10, x name, m at level 200, k at level 200).

(** *** Representations *)

Definition MatrixFromConic (conic : Vector6) : Matrix33 :=
  mkMatrix33 (p0 conic)           (p1 conic * (1 / 2)) (p3 conic * (1 / 2))
             (p1 conic * (1 / 2)) (p2 conic)           (p4 conic * (1 / 2))
             (p3 conic * (1 / 2)) (p4 conic * (1 / 2)) (p5 conic).

Definition ConicFromMatrix (matrix : Matrix33) : Vector6 :=
  mkVector6 (m00 matrix)
            (m10 matrix + m01 matrix)
            (m11 matrix)
            (m20 matrix + m02 matrix)
            (m21 matrix + m12 matrix)
            (m22 matrix).

(** *** Inverse and determinant *)

Definition ConicInverse (conic : Vector6) : option Vector6 :=
  let a := p0 conic in
  let b := p1 conic in
  let c := p2 conic in
  let d := p3 conic in
  let e := p4 conic in
  let f := p5 conic in
  let? divisor :=
    divide 1 (a * (e * e) + c * (d * d) + (b * b) * f - a * c * f * 4 - b * d * e) in
  Some (mkVector6 (- (c * f * 4 - e * e) * divisor)
                  (2 * (b * f * 2 - d * e) * divisor)
                  (- (a * f * 4 - d * d) * divisor)
                  (2 * (- (b * e - c * d * 2) * divisor))
                  (2 * (a * e * 2 - b * d) * divisor)
                  (- (a * c * 4 - b * b) * divisor)).

Definition ConicDeterminant (conic : Vector6) : R :=
  let a := p0 conic in
  let b := p1 conic in
  let c := p2 conic in
  let d := p3 conic in
  let e := p4 conic in
  let f := p5 conic in
  a * c * f + (1 / 4) * (- b * b * f + b * e * d - c * d * d - a * e * e).

(** *** Centre and eccentricity *)

Definition divisor_equals_zero : string :=
  "Could not calculate the center, divisor equals zero".

(** When [b*b - a*c] is zero, [divisor] is an infinity: the test
    [divisor == 0] fails and both coordinates are an infinity or a NaN. *)
Definition ConicCenter (conic : Vector6) : outcome (option Vector2) :=
  let a := p0 conic in
  let b := p1 conic * (1 / 2) in
  let c := p2 conic in
  let d := p3 conic * (1 / 2) in
  let e := p4 conic * (1 / 2) in
  match divide 1 (b * b - a * c) with
  | None => Return None
  | Some divisor =>
      if Req_dec_T divisor 0 then Throw divisor_equals_zero
      else
        let x := (c * d - b * e) * divisor in
        let y := (a * e - b * d) * divisor in
        Return (Some (mkVector2 x y))
  end.

Definition ConicEccentricity (conic : Vector6) : option R :=
  let a := p0 conic in
  let b := p1 conic * (1 / 2) in
  let c := p2 conic in
  let? upper := square_root ((a - c) ^ 2 + b * b) in
  let ac := a + c in
  let det := ConicDeterminant conic in
  if Rlt_dec det 0
  then (let? q := divide (2 * upper) (upper + ac) in square_root q)
  else (let? q := divide (2 * upper) (upper - ac) in square_root q).

(** *** Classification *)

(** The default arguments of the three constructors with a tolerance. *)
Definition IsConicCircle_error : R := 1 / 100.
Definition IsConicDegenerate_epsilon : R := 1 / 100000.
Definition IsConicParabola_epsilon : R := 1 / 100000.



Definition IsConicEllipse (conic : Vector6) : bool :=
  if Rlt_dec (p1 conic * p1 conic - 4 * p0 conic * p2 conic) 0
  then true else false.


(** *** Scaling, translation and reflection *)

Record ScaleConicUnsafe : Type := mkScaleConicUnsafe {
  m_scaleA1 : R;
  m_scaleA2 : R;
  m_scaleB1 : R;
  m_scaleB2 : R;
}.

(** [ScaleConicUnsafe( scaleA, scaleB )] *)
Definition ScaleConicUnsafe_new (scaleA scaleB : R) : option ScaleConicUnsafe :=
  let? scaleA1 := divide 1 scaleA in
  let scaleA2 := scaleA1 * scaleA1 in
  let? scaleB1 := divide 1 scaleB in
  let scaleB2 := scaleB1 * scaleB1 in
  Some (mkScaleConicUnsafe scaleA1 scaleA2 scaleB1 scaleB2).

(** [ScaleConicUnsafe( scale )] *)
Definition ScaleConicUnsafe_uniform (scale : R) : option ScaleConicUnsafe :=
  let? scaleA1 := divide 1 scale in
  let scaleA2 := scaleA1 * scaleA1 in
  let scaleB1 := scaleA1 in
  let scaleB2 := scaleA2 in
  Some (mkScaleConicUnsafe scaleA1 scaleA2 scaleB1 scaleB2).

Definition ScaleConicUnsafe_call (this : ScaleConicUnsafe) (conic : Vector6)
    : Vector6 :=
  let a := p0 conic in
  let b := p1 conic in
  let c := p2 conic in
  let d := p3 conic in
  let e := p4 conic in
  let f := p5 conic in
  mkVector6 (a * m_scaleA2 this)
            (b * m_scaleA1 this * m_scaleB1 this)
            (c * m_scaleB2 this)
            (d * m_scaleA1 this)
            (e * m_scaleB1 this)
            f.

Definition TranslateConic (translation : Vector2) (conic : Vector6) : Vector6 :=
  let a := p0 conic in
  let b := p1 conic * (1 / 2) in
  let c := p2 conic in
  let d := p3 conic * (1 / 2) in
  let e := p4 conic * (1 / 2) in
  let f := p5 conic in
  let tx := u0 translation in
  let ty := u1 translation in
  let atx := a * tx in
  let btx := b * tx in
  let bty := b * ty in
  let vec3 := d - atx - bty in
  let vec4 := e - btx - c * ty in
  let vec5 := f - d * tx - e * ty + tx * (- d + atx + bty)
              + ty * (- e + btx + ty * c) in
  let vec3 := vec3 * 2 in
  let vec4 := vec4 * 2 in
  mkVector6 (p0 conic) (p1 conic) (p2 conic) vec3 vec4 vec5.

Definition ConicPixel (conic : Vector6) (pixel : Vector2) : R :=
  let x := u0 pixel in
  let y := u1 pixel in
  let a := p0 conic in
  let b := p1 conic * (1 / 2) in
  let c := p2 conic in
  let d := p3 conic * (1 / 2) in
  let e := p4 conic * (1 / 2) in
  let f := p5 conic in
  f + e * y + d * x + x * (d + a * x + b * y) + y * (e + b * x + c * y).

Record FlipConicHorizontal : Type := mkFlipConicHorizontal { m_y : R }.

(** [FlipConicHorizontal( height )] *)
Definition FlipConicHorizontal_new (height : R) : FlipConicHorizontal :=
  mkFlipConicHorizontal (height - 1).

Definition FlipConicHorizontal_call (this : FlipConicHorizontal)
    (conic : Vector6) : Vector6 :=
  let a := p0 conic in
  let b := p1 conic * (1 / 2) in
  let c := p2 conic in
  let d := p3 conic * (1 / 2) in
  let e := p4 conic * (1 / 2) in
  let f := p5 conic in
  let vec1 := - b in
  let vec3 := d + b * m_y this in
  let vec4 := - (e + c * m_y this) in
  let vec5 := f + e * m_y this + m_y this * (e + c * m_y this) in
  let vec1 := vec1 * 2 in
  let vec3 := vec3 * 2 in
  let vec4 := vec4 * 2 in
  mkVector6 a vec1 c vec3 vec4 vec5.

(** *** Limits and intersections *)

Definition ConicUpperLowerLimit (conic : Vector6) : option Vector2 :=
  let a := p0 conic in
  let b := p1 conic * (1 / 2) in
  let c := p2 conic in
  let d := p3 conic * (1 / 2) in
  let e := p4 conic * (1 / 2) in
  let f := p5 conic in
  let lower := 4 * (b * b - a * c) in
  let upper1 := 8 * (b * d - a * e) in
  let temp := 4 * (d * d - a * f) in
  let? upper2 := square_root (upper1 * upper1 - (4 * lower * temp)) in
  let lower := lower * 2 in
  let? q1 := divide upper1 lower in
  let? q2 := divide upper2 lower in
  let y1 := - (q1 + q2) in
  let y2 := - (q1 - q2) in
  if Rlt_dec y1 y2 then Some (mkVector2 y1 y2) else Some (mkVector2 y2 y1).

Definition ConicLeftRightLimit (conic : Vector6) : option Vector2 :=
  let a := p0 conic in
  let b := p1 conic * (1 / 2) in
  let c := p2 conic in
  let d := p3 conic * (1 / 2) in
  let e := p4 conic * (1 / 2) in
  let f := p5 conic in
  let? q := divide (a * (e * e) + c * (d * d) + (b * b) * f - a * c * f
                    - b * d * e * 2) c in
  let? r := square_root q in
  let? x1 := divide (b * e - c * d + c * r) (a * c - b * b) in
  let? x2 := divide (- (- b * e + c * d + c * r)) (a * c - b * b) in
  if Rlt_dec x1 x2 then Some (mkVector2 x1 x2) else Some (mkVector2 x2 x1).

Definition ConicHorizontalIntersection (conic : Vector6) (y : R)
    : option Vector2 :=
  let b := p1 conic * (1 / 2) * y + p3 conic * (1 / 2) in
  let c := (p2 conic * y + p4 conic) * y + p5 conic in
  let? d := square_root (b * b - p0 conic * c) in
  let? x1 := divide (- b + d) (p0 conic) in
  let? x2 := divide (- b - d) (p0 conic) in
  if Rlt_dec x1 x2 then Some (mkVector2 x1 x2) else Some (mkVector2 x2 x1).

End Conic.
(* ===================================================================== *)
(** ** Notions the further properties are stated with *)
(* ===================================================================== *)

Module Algebra.

Open Scope R_scope.

(** The product, the transpose and the determinant of 3x3 matrices. *)
Definition prod33 (a b : Matrix33) : Matrix33 :=
  mkMatrix33
    (m00 a * m00 b + m01 a * m10 b + m02 a * m20 b)
    (m00 a * m01 b + m01 a * m11 b + m02 a * m21 b)
    (m00 a * m02 b + m01 a * m12 b + m02 a * m22 b)
    (m10 a * m00 b + m11 a * m10 b + m12 a * m20 b)
    (m10 a * m01 b + m11 a * m11 b + m12 a * m21 b)
    (m10 a * m02 b + m11 a * m12 b + m12 a * m22 b)
    (m20 a * m00 b + m21 a * m10 b + m22 a * m20 b)
    (m20 a * m01 b + m21 a * m11 b + m22 a * m21 b)
    (m20 a * m02 b + m21 a * m12 b + m22 a * m22 b).

Definition transpose33 (a : Matrix33) : Matrix33 :=
  mkMatrix33 (m00 a) (m10 a) (m20 a)
             (m01 a) (m11 a) (m21 a)
             (m02 a) (m12 a) (m22 a).

Definition det33 (a : Matrix33) : R :=
  m00 a * (m11 a * m22 a - m12 a * m21 a)
  - m01 a * (m10 a * m22 a - m12 a * m20 a)
  + m02 a * (m10 a * m21 a - m11 a * m20 a).

(** A proper rotation: orthogonal, with determinant one. *)
Definition is_rotation (r : Matrix33) : Prop :=
  prod33 r (transpose33 r) = identity_matrix3 /\
  prod33 (transpose33 r) r = identity_matrix3 /\
  det33 r = 1.

(** The matrix of the rotation by the quaternion with scalar part [w] and
    vector part [(x, y, z)], in its homogeneous form. *)
Definition versor_matrix (w x y z : R) : Matrix33 :=
  mkMatrix33
    (w * w + x * x - y * y - z * z) (2 * (x * y - z * w)) (2 * (x * z + y * w))
    (2 * (x * y + z * w)) (w * w - x * x + y * y - z * z) (2 * (y * z - x * w))
    (2 * (x * z - y * w)) (2 * (y * z + x * w)) (w * w - x * x - y * y + z * z).

Definition squared_norm3 (v : Vector3) : R :=
  c0 v * c0 v + c1 v * c1 v + c2 v * c2 v.

Definition scale3 (s : R) (v : Vector3) : Vector3 :=
  mkVector3 (s * c0 v) (s * c1 v) (s * c2 v).

(** The rigid transform [[r t; 0 0 0 1]]. *)
Definition rigid (r : Matrix33) (t : Vector3) : Matrix44 :=
  mkMatrix44 (m00 r) (m01 r) (m02 r) (c0 t)
             (m10 r) (m11 r) (m12 r) (c1 t)
             (m20 r) (m21 r) (m22 r) (c2 t)
             0 0 0 1.

(** A 4x4 matrix with last row [0 0 0 1]. *)
Definition is_affine (h : Matrix44) : Prop :=
  h30 h = 0 /\ h31 h = 0 /\ h32 h = 0 /\ h33 h = 1.

(** A hand motion [fst p] and an eye motion [snd p] that belong to the
    transform [X]: [A X = X B]. *)
Definition exact_pair (X : Matrix44) (p : Matrix44 * Matrix44) : Prop :=
  is_affine (snd p) /\ prod44 (fst p) X = prod44 X (snd p).

(** A quaternion of norm one with positive scalar part: a rotation by less
    than half a turn. *)
Definition is_versor (w x y z : R) : Prop :=
  0 < w /\ w * w + x * x + y * y + z * z = 1.

(** The rotations of a hand motion and of an eye motion, each by less than
    half a turn, that belong to the rotation [rx]: [Ra Rx = Rx Rb]. *)
Definition exact_rotation_pair (rx : Matrix33) (p : Matrix44 * Matrix44) : Prop :=
  (exists w x y z, is_versor w x y z /\
                   rotation_block (fst p) = versor_matrix w x y z) /\
  (exists w x y z, is_versor w x y z /\
                   rotation_block (snd p) = versor_matrix w x y z) /\
  prod33 (rotation_block (fst p)) rx = prod33 rx (rotation_block (snd p)).

(** The rows of [A x = b] for a stacked system [(A, b)] of three unknowns. *)
Definition solves (system : matrix * matrix) (x : Vector3) : Prop :=
  Forall2 (fun row rhs =>
             arr row 0 * c0 x + arr row 1 * c1 x + arr row 2 * c2 x = arr rhs 0)
          (fst system) (snd system).

(** The residuals [A x - b] of such a system, row by row, and the sum of
    their squares, which the least-squares solver minimizes. *)
Definition residuals (system : matrix * matrix) (x : Vector3) : list R :=
  map (fun rr => arr (fst rr) 0 * c0 x + arr (fst rr) 1 * c1 x
                 + arr (fst rr) 2 * c2 x - arr (snd rr) 0)
      (combine (fst system) (snd system)).

Definition squared_residual (system : matrix * matrix) (x : Vector3) : R :=
  fold_right (fun r acc => r * r + acc) 0 (residuals system x).

(** The matrix with every entry negated. *)
Definition negated (m : matrix) : matrix := map (map Ropp) m.

(** The homogeneous point [(x, y, 1)] of a pixel, and the value
    [p^T m p] of the quadratic form of a 3x3 matrix at it. *)
Definition quadratic_form (m : Matrix33) (pixel : Vector2) : R :=
  let x := u0 pixel in
  let y := u1 pixel in
  x * (m00 m * x + m01 m * y + m02 m)
  + y * (m10 m * x + m11 m * y + m12 m)
  + (m20 m * x + m21 m * y + m22 m).

End Algebra.

(** Concrete inputs for the examples of the hand-eye part. *)
Module MoreExamples.

Open Scope R_scope.

(** The shortest sequence whose squared length leaves the [int] range. *)
Definition many_poses : list Matrix44 :=
  repeat identity_matrix4 (Z.to_nat 46341).

Definition many_sentinels : list Pose :=
  repeat HandEyeCalibration.sentinel (Z.to_nat 46341).

(** A hand motion, a quarter turn about the z axis with a shift, and the
    eye motion that belongs to it for the transform that shifts by
    [(1, 0, 0)]. *)
Definition quarter_turn : Matrix44 :=
  mkMatrix44 0 (-1) 0 1
             1 0 0 2
             0 0 1 3
             0 0 0 1.

Definition shifted_quarter_turn : Matrix44 :=
  mkMatrix44 0 (-1) 0 0
             1 0 0 3
             0 0 1 3
             0 0 0 1.

Definition shifted_pairs : list (Matrix44 * Matrix44) :=
  [(quarter_turn, shifted_quarter_turn); (identity_matrix4, identity_matrix4)].

(** The turn about the z axis of the quaternion [(4/5, 0, 0, 3/5)], as hand
    motion and as eye motion of a transform that turns about the same
    axis. *)
Definition turn : Matrix44 :=
  mkMatrix44 (7 / 25) (- (24 / 25)) 0 1
             (24 / 25) (7 / 25) 0 2
             0 0 1 3
             0 0 0 1.

Definition turns : list (Matrix44 * Matrix44) := [(turn, turn)].

(** A hand that turns while the eye rests. *)
Definition turn_and_rest : list (Matrix44 * Matrix44) :=
  [(turn, identity_matrix4)].

(** Four hand poses and three eye poses. *)
Definition four_poses : list Matrix44 :=
  [identity_matrix4; identity_matrix4; identity_matrix4; identity_matrix4].

End MoreExamples.

(** A second rig for the examples of the multi-camera part: it agrees with
    the rig of three points on the first two points and goes on
    differently. *)
Module MoreRigExamples.

Import MultipleCameraPoseOptimization.

Open Scope R_scope.




End MoreRigExamples.

(** Concrete conics for the examples. *)
Module ConicExamples.

Import MultipleCameraPoseOptimization.

Open Scope R_scope.

(** The unit circle [x^2 + y^2 - 1 = 0]. *)
Definition unit_circle : Vector6 := mkVector6 1 0 1 0 0 (-1).

(** The ellipse [x^2 / 4 + y^2 - 1 = 0], and the same ellipse with its
    centre at [(3, 1)] and its axes turned. *)
Definition flat_ellipse : Vector6 := mkVector6 (1 / 4) 0 1 0 0 (-1).

Definition tilted_ellipse : Vector6 := mkVector6 2 1 1 (-13) (-5) 20.

End ConicExamples.

(* ===================================================================== *)
(** * Properties *)
(* ===================================================================== *)

(** ** Outcomes, loops and vectors *)

Module CppFacts.

Lemma bind_Return_inv {A B : Type} (m : outcome A) (k : A -> outcome B) (b : B) :
  bind m k = Return b -> exists a, m = Return a /\ k a = Return b.
Proof.
  destruct m as [a | w | |]; simpl; intros E; try discriminate.
  exists a; split; [reflexivity | exact E].
Qed.

Lemma foldM_app {X S : Type} (body : X -> S -> outcome S) (xs ys : list X) (s : S) :
  foldM body (xs ++ ys) s = (s' <- foldM body xs s ;; foldM body ys s').
Proof.
  revert s; induction xs as [| x xs IH]; intros s; simpl.
  - reflexivity.
  - destruct (body x s) as [s' | w | |]; simpl; auto.
Qed.

Lemma foldM_map {X Y S : Type} (f : X -> Y) (body : Y -> S -> outcome S)
    (xs : list X) (s : S) :
  foldM body (map f xs) s = foldM (fun x => body (f x)) xs s.
Proof.
  revert s; induction xs as [| x xs IH]; intros s; simpl.
  - reflexivity.
  - destruct (body (f x) s); simpl; auto.
Qed.

(** A loop whose body always returns is a left fold. *)
Lemma foldM_pure {X S : Type} (body : X -> S -> outcome S) (g : S -> X -> S)
    (xs : list X) :
  (forall x s, In x xs -> body x s = Return (g s x)) ->
  forall s, foldM body xs s = Return (fold_left g xs s).
Proof.
  induction xs as [| x xs IH]; intros E s; simpl.
  - reflexivity.
  - rewrite (E x s (or_introl eq_refl)). simpl.
    apply IH. intros y t Hy. apply E. right; exact Hy.
Qed.

Lemma flat_map_single {A B : Type} (f : A -> B) (l : list A) :
  flat_map (fun x => [f x]) l = map f l.
Proof.
  induction l as [| x l IH]; [reflexivity |].
  cbn [flat_map map app]. rewrite IH. reflexivity.
Qed.

Lemma map_flat_map {A B C : Type} (g : B -> C) (f : A -> list B) (l : list A) :
  map g (flat_map f l) = flat_map (fun x => map g (f x)) l.
Proof.
  induction l as [| x l IH]; [reflexivity |].
  cbn [flat_map]. rewrite map_app, IH. reflexivity.
Qed.

Lemma int_range_length (lo hi : Z) :
  length (int_range lo hi) = Z.to_nat (hi - lo + 1).
Proof. unfold int_range. rewrite length_map, length_seq. reflexivity. Qed.

Lemma int_range_of_nat (a n : nat) :
  int_range (Z.of_nat a) (Z.of_nat a + Z.of_nat n - 1) = map Z.of_nat (seq a n).
Proof.
  unfold int_range.
  replace (Z.to_nat (Z.of_nat a + Z.of_nat n - 1 - Z.of_nat a + 1)) with n by lia.
  revert a. induction n as [| n IH]; intros a; simpl.
  - reflexivity.
  - f_equal; [lia |].
    rewrite <- seq_shift, map_map, <- IH.
    apply map_ext. intros j. lia.
Qed.

Lemma int_range_0 (n : nat) :
  int_range 0 (Z.of_nat n - 1) = map Z.of_nat (seq 0 n).
Proof. exact (int_range_of_nat 0 n). Qed.

Lemma int_range_empty (lo hi : Z) : (hi < lo)%Z -> int_range lo hi = [].
Proof.
  intros H. unfold int_range.
  replace (Z.to_nat (hi - lo + 1)) with 0%nat by lia. reflexivity.
Qed.

Lemma in_int_range (lo hi x : Z) :
  In x (int_range lo hi) <-> (lo <= x <= hi)%Z.
Proof.
  unfold int_range. rewrite in_map_iff. split.
  - intros [j [E Hj]]. apply in_seq in Hj. lia.
  - intros H. exists (Z.to_nat (x - lo)). split; [lia |]. apply in_seq. lia.
Qed.

Lemma int_range_cons (a : Z) (n : nat) :
  int_range a (a + Z.of_nat (Datatypes.S n) - 1)
  = a :: int_range (a + 1) (a + 1 + Z.of_nat n - 1).
Proof.
  unfold int_range.
  replace (Z.to_nat (a + Z.of_nat (Datatypes.S n) - 1 - a + 1))
    with (Datatypes.S n) by lia.
  replace (Z.to_nat (a + 1 + Z.of_nat n - 1 - (a + 1) + 1)) with n by lia.
  cbn [seq map]. f_equal; [lia |].
  rewrite <- (seq_shift n 0), map_map.
  apply map_ext. intros j. lia.
Qed.

(** A counted loop: when the counter runs from [a] through exactly [n]
    values without wrapping and there is fuel for them, [for_loop] is the
    loop over that range. *)
Lemma for_loop_counted {S : Type} (cond : Z -> bool) (step : Z -> Z)
    (body : Z -> S -> outcome S) (n : nat) :
  forall (fuel : nat) (a : Z) (s : S),
    (n < fuel)%nat ->
    (forall j, (j < n)%nat ->
       cond (a + Z.of_nat j)%Z = true /\
       step (a + Z.of_nat j)%Z = (a + Z.of_nat j + 1)%Z) ->
    cond (a + Z.of_nat n)%Z = false ->
    for_loop fuel cond step body a s
    = foldM body (int_range a (a + Z.of_nat n - 1)) s.
Proof.
  induction n as [| n IH]; intros fuel a s Hf Hin Hout.
  - rewrite int_range_empty by lia.
    destruct fuel as [| fuel]; [lia |]. cbn [for_loop foldM].
    replace (a + Z.of_nat 0)%Z with a in Hout by lia.
    rewrite Hout. reflexivity.
  - destruct fuel as [| fuel]; [lia |].
    rewrite int_range_cons. cbn [for_loop foldM].
    destruct (Hin 0%nat ltac:(lia)) as [Hc Hs].
    replace (a + Z.of_nat 0)%Z with a in Hc, Hs by lia.
    rewrite Hc, Hs.
    destruct (body a s) as [s' | w | |]; cbn [bind]; try reflexivity.
    apply IH.
    + lia.
    + intros j Hj. destruct (Hin (Datatypes.S j) ltac:(lia)) as [Hc' Hs'].
      replace (a + 1 + Z.of_nat j)%Z with (a + Z.of_nat (Datatypes.S j))%Z by lia.
      split; [exact Hc' | rewrite Hs'; lia].
    + replace (a + 1 + Z.of_nat n)%Z with (a + Z.of_nat (Datatypes.S n))%Z by lia.
      exact Hout.
Qed.

(** *** Checked and unchecked access *)

Lemma at_in_range {A : Type} (v : list A) (i : nat) (d : A) :
  (i < length v)%nat -> at_ v (Z.of_nat i) = Return (nth i v d).
Proof.
  intros H. unfold at_.
  destruct (Z.ltb_spec (Z.of_nat i) 0); [lia |].
  rewrite Nat2Z.id.
  rewrite (nth_error_nth' v d H). reflexivity.
Qed.

Lemma index_in_range {A : Type} (v : list A) (i : nat) (d : A) :
  (i < length v)%nat -> index v (Z.of_nat i) = Return (nth i v d).
Proof.
  intros H. unfold index.
  destruct (Z.ltb_spec (Z.of_nat i) 0); [lia |].
  rewrite Nat2Z.id.
  rewrite (nth_error_nth' v d H). reflexivity.
Qed.

Lemma index_map_range {A : Type} (f : Z -> A) (n r : nat) :
  (r < n)%nat ->
  index (map f (int_range 0 (Z.of_nat n - 1))) (Z.of_nat r) = Return (f (Z.of_nat r)).
Proof.
  intros H. rewrite int_range_0, map_map. unfold index.
  destruct (Z.ltb_spec (Z.of_nat r) 0); [lia |].
  rewrite Nat2Z.id, nth_error_map.
  rewrite (nth_error_nth' (seq 0 n) 0%nat) by (rewrite length_seq; exact H).
  rewrite seq_nth by exact H. reflexivity.
Qed.

Lemma list_set_app {A : Type} (pre : list A) (x y : A) (post : list A) :
  list_set (pre ++ x :: post) (length pre) y = Some (pre ++ y :: post).
Proof.
  induction pre as [| h pre IH]; simpl.
  - reflexivity.
  - rewrite IH. reflexivity.
Qed.

Lemma set_index_app {A : Type} (pre : list A) (x y : A) (post : list A) (i : Z) :
  i = Z.of_nat (length pre) ->
  set_index (pre ++ x :: post) i y = Return (pre ++ y :: post).
Proof.
  intros ->. unfold set_index.
  destruct (Z.ltb_spec (Z.of_nat (length pre)) 0); [lia |].
  rewrite Nat2Z.id, list_set_app. reflexivity.
Qed.

Lemma set_at_app {A : Type} (pre : list A) (x y : A) (post : list A) (i : Z) :
  i = Z.of_nat (length pre) ->
  set_at (pre ++ x :: post) i y = Return (pre ++ y :: post).
Proof.
  intros ->. unfold set_at.
  destruct (Z.ltb_spec (Z.of_nat (length pre)) 0); [lia |].
  rewrite Nat2Z.id, list_set_app. reflexivity.
Qed.

Lemma index_app {A : Type} (pre : list A) (x : A) (post : list A) (i : Z) :
  i = Z.of_nat (length pre) ->
  index (pre ++ x :: post) i = Return x.
Proof.
  intros ->. unfold index.
  destruct (Z.ltb_spec (Z.of_nat (length pre)) 0); [lia |].
  rewrite Nat2Z.id, nth_error_app2, Nat.sub_diag by lia. reflexivity.
Qed.

Lemma at_app {A : Type} (pre : list A) (x : A) (post : list A) (i : Z) :
  i = Z.of_nat (length pre) ->
  at_ (pre ++ x :: post) i = Return x.
Proof.
  intros ->. unfold at_.
  destruct (Z.ltb_spec (Z.of_nat (length pre)) 0); [lia |].
  rewrite Nat2Z.id, nth_error_app2, Nat.sub_diag by lia. reflexivity.
Qed.

Lemma at_Z {A : Type} (v : list A) (i : Z) (d : A) :
  (0 <= i < size v)%Z -> at_ v i = Return (nth (Z.to_nat i) v d).
Proof.
  intros H. unfold size in H.
  rewrite <- (Z2Nat.id i) at 1 by lia. apply at_in_range. lia.
Qed.

Lemma index_Z {A : Type} (v : list A) (i : Z) (d : A) :
  (0 <= i < size v)%Z -> index v i = Return (nth (Z.to_nat i) v d).
Proof.
  intros H. unfold size in H.
  rewrite <- (Z2Nat.id i) at 1 by lia. apply index_in_range. lia.
Qed.

Lemma to_unsigned_small (z : Z) :
  (0 <= z < 4294967296)%Z -> to_unsigned z = z.
Proof. intros H. unfold to_unsigned. apply Z.mod_small. exact H. Qed.

Lemma to_size_t_small (z : Z) :
  (0 <= z < 18446744073709551616)%Z -> to_size_t z = z.
Proof. intros H. unfold to_size_t. apply Z.mod_small. exact H. Qed.

Lemma to_int_small (z : Z) :
  (INT_MIN <= z <= INT_MAX)%Z -> to_int z = z.
Proof.
  unfold INT_MIN, INT_MAX, to_int. intros H.
  rewrite Z.mod_small by lia. lia.
Qed.

Lemma int_result_small (z : Z) :
  (INT_MIN <= z <= INT_MAX)%Z -> int_result z = Return z.
Proof.
  intros [H1 H2]. unfold int_result.
  destruct (Z.leb_spec INT_MIN z); [| lia].
  destruct (Z.leb_spec z INT_MAX); [| lia].
  reflexivity.
Qed.

End CppFacts.

Import CppFacts.

(* ===================================================================== *)
(** ** Hand-eye calibration *)
(* ===================================================================== *)

Module HandEyeProofs.

Import HandEyeCalibration Spec Examples.

Section MotionPairs.

Context `{LA : LinearAlgebra}.
Context {E : Type} (conv : E -> Matrix44) (d : E).
Variables hand eye : list E.

Abbreviation motion_pair := (Spec.motion_pair conv d hand eye).

Lemma append_pairs_app tc l1 l2 :
  append_pairs (append_pairs tc l1) l2 = append_pairs tc (l1 ++ l2).
Proof.
  unfold append_pairs; simpl. rewrite !map_app, !app_assoc. reflexivity.
Qed.

Lemma append_pairs_nil tc : append_pairs tc [] = tc.
Proof. destruct tc; unfold append_pairs; simpl. rewrite !app_nil_r. reflexivity. Qed.

Lemma fold_left_append_pairs {X : Type} (f : X -> list (Matrix44 * Matrix44))
    (xs : list X) (tc : TransformCont) :
  fold_left (fun tc x => append_pairs tc (f x)) xs tc
  = append_pairs tc (flat_map f xs).
Proof.
  revert tc; induction xs as [| x xs IH]; intros tc; simpl.
  - symmetry; apply append_pairs_nil.
  - rewrite IH, append_pairs_app. reflexivity.
Qed.

Lemma fill_pair_in_range (i k : nat) (tc : TransformCont) :
  (i < length hand)%nat -> (k < length hand)%nat -> length eye = length hand ->
  fill_pair conv hand eye (Z.of_nat i) (Z.of_nat k) tc
  = Return (append_pairs tc [motion_pair (i, k)]).
Proof.
  intros Hi Hk He. unfold fill_pair.
  rewrite (at_in_range hand i d Hi), (at_in_range hand k d Hk). cbn [bind].
  rewrite (at_in_range eye i d), (at_in_range eye k d) by lia. cbn [bind].
  reflexivity.
Qed.

(** The inner loop, for one [i]. *)
Lemma inner_loop (fuel i cnt : nat) (to : Z) (tc : TransformCont) :
  length eye = length hand ->
  (i < length hand)%nat -> (S i + cnt <= length hand)%nat ->
  (Z.of_nat (length hand) < 4294967296)%Z ->
  (cnt < fuel)%nat ->
  to = Z.of_nat (S i + cnt) ->
  for_loop fuel (fun k => (k <? to)%Z) (fun k => to_unsigned (k + 1))
           (fun k tc => fill_pair conv hand eye (Z.of_nat i) k tc)
           (to_unsigned (Z.of_nat i + 1)) tc
  = Return (append_pairs tc (map motion_pair (map (pair i) (seq (S i) cnt)))).
Proof.
  intros He Hi Hc Hsmall Hf ->.
  rewrite to_unsigned_small by lia.
  rewrite (for_loop_counted _ _ _ cnt).
  - replace (Z.of_nat i + 1)%Z with (Z.of_nat (S i)) by lia.
    rewrite int_range_of_nat, foldM_map.
    rewrite (foldM_pure _ (fun tc k => append_pairs tc [motion_pair (i, k)])).
    + rewrite (fold_left_append_pairs (fun k => [motion_pair (i, k)])).
      rewrite flat_map_single, map_map. reflexivity.
    + intros k s Hk. apply in_seq in Hk.
      apply fill_pair_in_range; lia.
  - exact Hf.
  - intros j Hj. split.
    + apply Z.ltb_lt. lia.
    + apply to_unsigned_small. lia.
  - apply Z.ltb_ge. lia.
Qed.

(** Both loops. *)
Lemma fill_loops_result (fuel : nat) (tc : TransformCont) (bUseAllPairs : bool) :
  length eye = length hand ->
  (1 <= length hand)%nat ->
  (Z.of_nat (length hand) < 4294967296)%Z ->
  (length hand < fuel)%nat ->
  fill_loops conv fuel tc hand eye bUseAllPairs
  = Return (append_pairs tc
              (map motion_pair (selected_pairs (length hand) bUseAllPairs))).
Proof.
  intros He Hn Hsmall Hf. unfold fill_loops, size.
  set (N := length hand) in *.
  rewrite to_size_t_small by lia.
  rewrite (for_loop_counted _ _ _ (N - 1)).
  - replace (0 + Z.of_nat (N - 1) - 1)%Z with (Z.of_nat (N - 1) - 1)%Z by lia.
    rewrite int_range_0, foldM_map.
    rewrite (foldM_pure _
      (fun tc i => append_pairs tc
         (map motion_pair
            (map (pair i) (seq (S i) (if bUseAllPairs then N - S i else 1)))))).
    + rewrite (fold_left_append_pairs
        (fun i => map motion_pair
           (map (pair i) (seq (S i) (if bUseAllPairs then N - S i else 1))))).
      unfold selected_pairs. rewrite map_flat_map. reflexivity.
    + intros i s Hi. apply in_seq in Hi.
      apply inner_loop; try (subst N; lia).
      * destruct bUseAllPairs; subst N; lia.
      * destruct bUseAllPairs; subst N; lia.
      * destruct bUseAllPairs.
        -- rewrite to_unsigned_small by (subst N; lia). subst N; lia.
        -- rewrite (to_unsigned_small (Z.of_nat i + 2)) by (subst N; lia).
           rewrite to_unsigned_small by (subst N; lia). lia.
  - lia.
  - intros j Hj. split.
    + apply Z.ltb_lt. lia.
    + apply to_unsigned_small. lia.
  - apply Z.ltb_ge. lia.
Qed.

End MotionPairs.

(** The number of selected index pairs. *)
Lemma selected_pairs_consecutive (N : nat) :
  length (selected_pairs N false) = (N - 1)%nat.
Proof.
  unfold selected_pairs. cbn [seq map].
  rewrite (flat_map_single (fun i => (i, S i))), length_map, length_seq.
  reflexivity.
Qed.

Lemma selected_pairs_prefix_count (N m : nat) :
  (m <= N - 1)%nat ->
  (2 * length (flat_map (fun i => map (pair i) (seq (S i) (N - S i))) (seq 0 m))
   = m * (2 * N - m - 1))%nat.
Proof.
  induction m as [| m IH]; intros Hm.
  - reflexivity.
  - rewrite seq_S, flat_map_app, length_app. simpl.
    rewrite length_app, length_map, length_seq. simpl.
    specialize (IH ltac:(lia)). nia.
Qed.

Lemma selected_pairs_all (N : nat) :
  length (selected_pairs N true) = (N * (N - 1) / 2)%nat.
Proof.
  unfold selected_pairs.
  apply Nat.div_unique_exact; [lia |].
  rewrite selected_pairs_prefix_count by lia.
  nia.
Qed.

Lemma selected_pairs_ordered (N : nat) (useAllPairs : bool) :
  Forall (fun ik => (fst ik < snd ik < N)%nat) (selected_pairs N useAllPairs).
Proof.
  apply Forall_forall. intros [i k] Hin. unfold selected_pairs in Hin.
  apply in_flat_map in Hin. destruct Hin as [i' [Hi' Hk]].
  apply in_map_iff in Hk. destruct Hk as [k' [Eq Hk']].
  inversion Eq; subst. apply in_seq in Hi'. apply in_seq in Hk'.
  simpl. destruct useAllPairs; lia.
Qed.

(** C1. Given two pose sequences of the same length N >= 3 (N below 2^32,
    the range of the loop counters) and enough fuel, the motion-pair builder
    returns; started on an empty container it leaves exactly N-1 pairs in
    consecutive mode and N*(N-1)/2 pairs in all-pairs mode, one per selected
    index pair i < k and in that order, the hand-side transform being
    inverse(pose_k) * pose_i and the eye-side transform
    pose_k * inverse(pose_i). *)
Theorem motion_pairs_built `{LA : LinearAlgebra} (fuel : nat)
    (hand eye : list Matrix44) (bUseAllPairs : bool) :
  length eye = length hand ->
  (3 <= length hand)%nat ->
  (Z.of_nat (length hand) < 4294967296)%Z ->
  (length hand < fuel)%nat ->
  let N := length hand in
  let pairs := selected_pairs N bUseAllPairs in
  exists tc,
    fillTransformationVectors fuel TransformCont_new hand eye bUseAllPairs
    = Return tc /\
    m_hg tc = map (fun ik => H_ik (nth (fst ik) hand identity_matrix4)
                                  (nth (snd ik) hand identity_matrix4)) pairs /\
    m_hc tc = map (fun ik => E_ik (nth (fst ik) eye identity_matrix4)
                                  (nth (snd ik) eye identity_matrix4)) pairs /\
    length (m_hg tc) = (if bUseAllPairs then N * (N - 1) / 2 else N - 1)%nat /\
    length (m_hc tc) = (if bUseAllPairs then N * (N - 1) / 2 else N - 1)%nat /\
    Forall (fun ik => (fst ik < snd ik < N)%nat) pairs.
Proof.
  intros He H3 Hsmall Hf N pairs.
  assert (Hcount : length pairs
                   = (if bUseAllPairs then N * (N - 1) / 2 else N - 1)%nat).
  { subst pairs. destruct bUseAllPairs.
    - apply selected_pairs_all.
    - apply selected_pairs_consecutive. }
  eexists. split; [| split; [| split; [| split; [| split]]]].
  - unfold fillTransformationVectors.
    apply (fill_loops_result (fun h => h) identity_matrix4); try assumption; lia.
  - simpl. rewrite map_map. reflexivity.
  - simpl. rewrite map_map. reflexivity.
  - simpl. rewrite !length_map. exact Hcount.
  - simpl. rewrite !length_map. exact Hcount.
  - apply selected_pairs_ordered.
Qed.

Lemma motion_pairs_built_witness :
  exists tc,
    fillTransformationVectors (LA := Reference.linear_algebra) 4
      TransformCont_new identity_poses identity_poses true
    = Return tc /\
    m_hg tc = map (fun ik => H_ik (LA := Reference.linear_algebra)
                               (nth (fst ik) identity_poses identity_matrix4)
                               (nth (snd ik) identity_poses identity_matrix4))
                  (selected_pairs 3 true) /\
    m_hc tc = map (fun ik => E_ik (LA := Reference.linear_algebra)
                               (nth (fst ik) identity_poses identity_matrix4)
                               (nth (snd ik) identity_poses identity_matrix4))
                  (selected_pairs 3 true) /\
    length (m_hg tc) = (3 * (3 - 1) / 2)%nat /\
    length (m_hc tc) = (3 * (3 - 1) / 2)%nat /\
    Forall (fun ik => (fst ik < snd ik < 3)%nat) (selected_pairs 3 true).
Proof.
  apply (motion_pairs_built (LA := Reference.linear_algebra) 4
           identity_poses identity_poses true); simpl; lia.
Defined.

(** *** The stacked systems *)

Lemma set_index_0 (a x : R) (l : list R) : set_index (a :: l) 0 x = Return (x :: l).
Proof. reflexivity. Qed.

Lemma set_index_1 (a b x : R) (l : list R) :
  set_index (a :: b :: l) 1 x = Return (a :: x :: l).
Proof. reflexivity. Qed.

Lemma set_index_2 (a b c x : R) (l : list R) :
  set_index (a :: b :: c :: l) 2 x = Return (a :: b :: x :: l).
Proof. reflexivity. Qed.

Lemma mset_row0 (pre : matrix) (r r' : list R) (post : matrix) (i j : Z) (x : R) :
  i = Z.of_nat (length pre) ->
  set_index r j x = Return r' ->
  mset (pre ++ r :: post) i j x = Return (pre ++ r' :: post).
Proof.
  intros Hi Hr. unfold mset.
  rewrite (index_app pre r post i Hi). cbn [bind]. rewrite Hr. cbn [bind].
  apply set_index_app. exact Hi.
Qed.

Lemma mset_row1 (pre : matrix) (r0 r r' : list R) (post : matrix) (i j : Z) (x : R) :
  i = (Z.of_nat (length pre) + 1)%Z ->
  set_index r j x = Return r' ->
  mset (pre ++ r0 :: r :: post) i j x = Return (pre ++ r0 :: r' :: post).
Proof.
  intros Hi Hr.
  change (pre ++ r0 :: r :: post) with (pre ++ [r0] ++ r :: post).
  change (pre ++ r0 :: r' :: post) with (pre ++ [r0] ++ r' :: post).
  rewrite !app_assoc. apply mset_row0; [| exact Hr].
  rewrite length_app. simpl. lia.
Qed.

Lemma mset_row2 (pre : matrix) (r0 r1 r r' : list R) (post : matrix) (i j : Z) (x : R) :
  i = (Z.of_nat (length pre) + 2)%Z ->
  set_index r j x = Return r' ->
  mset (pre ++ r0 :: r1 :: r :: post) i j x = Return (pre ++ r0 :: r1 :: r' :: post).
Proof.
  intros Hi Hr.
  change (pre ++ r0 :: r1 :: r :: post) with (pre ++ [r0; r1] ++ r :: post).
  change (pre ++ r0 :: r1 :: r' :: post) with (pre ++ [r0; r1] ++ r' :: post).
  rewrite !app_assoc. apply mset_row0; [| exact Hr].
  rewrite length_app. simpl. lia.
Qed.

(** The nine assignments replace three rows of width 3 by the block. *)
Lemma store_block_rows (pre post : matrix) (r0 r1 r2 : list R) (i : Z) (block : Matrix33) :
  Z.of_nat (length pre) = (3 * i)%Z ->
  length r0 = 3%nat -> length r1 = 3%nat -> length r2 = 3%nat ->
  store_block (pre ++ r0 :: r1 :: r2 :: post) i block
  = Return (pre ++ rows_of block ++ post).
Proof.
  intros Hi H0 H1 H2.
  destruct r0 as [| a0 [| a1 [| a2 [| ? ?]]]]; try discriminate.
  destruct r1 as [| b0 [| b1 [| b2 [| ? ?]]]]; try discriminate.
  destruct r2 as [| d0 [| d1 [| d2 [| ? ?]]]]; try discriminate.
  unfold store_block.
  erewrite mset_row0; [| lia | apply set_index_0]. cbn [bind].
  erewrite mset_row1; [| lia | apply set_index_0]. cbn [bind].
  erewrite mset_row2; [| lia | apply set_index_0]. cbn [bind].
  erewrite mset_row0; [| lia | apply set_index_1]. cbn [bind].
  erewrite mset_row1; [| lia | apply set_index_1]. cbn [bind].
  erewrite mset_row2; [| lia | apply set_index_1]. cbn [bind].
  erewrite mset_row0; [| lia | apply set_index_2]. cbn [bind].
  erewrite mset_row1; [| lia | apply set_index_2]. cbn [bind].
  erewrite mset_row2; [| lia | apply set_index_2].
  reflexivity.
Qed.

(** The three assignments replace three rows of width 1 by the vector. *)
Lemma store_right_rows (pre post : matrix) (r0 r1 r2 : list R) (i : Z) (right : Vector3) :
  Z.of_nat (length pre) = (3 * i)%Z ->
  length r0 = 1%nat -> length r1 = 1%nat -> length r2 = 1%nat ->
  store_right (pre ++ r0 :: r1 :: r2 :: post) i right
  = Return (pre ++ column_of right ++ post).
Proof.
  intros Hi H0 H1 H2.
  destruct r0 as [| a0 [| ? ?]]; try discriminate.
  destruct r1 as [| b0 [| ? ?]]; try discriminate.
  destruct r2 as [| d0 [| ? ?]]; try discriminate.
  unfold store_right.
  erewrite mset_row0; [| lia | apply set_index_0]. cbn [bind].
  erewrite mset_row1; [| lia | apply set_index_0]. cbn [bind].
  erewrite mset_row2; [| lia | apply set_index_0].
  reflexivity.
Qed.

Section Stacking.

Context `{LA : LinearAlgebra}.

Variable sides : Matrix44 -> Matrix44 -> Vector3 * Matrix33.

Abbreviation stack_body := (Spec.stack_body sides).
Abbreviation left_block := (Spec.left_block sides).
Abbreviation right_block := (Spec.right_block sides).

Lemma stacked_lengths (pairs : list (Matrix44 * Matrix44)) :
  length (fst (stacked left_block right_block pairs)) = (3 * length pairs)%nat /\
  length (snd (stacked left_block right_block pairs)) = (3 * length pairs)%nat.
Proof.
  unfold stacked; simpl.
  induction pairs as [| p pairs [IH1 IH2]]; simpl; [split; reflexivity |].
  rewrite IH1, IH2. split; lia.
Qed.

Lemma stacked_snoc (done : list (Matrix44 * Matrix44)) (p : Matrix44 * Matrix44) :
  stacked left_block right_block (done ++ [p])
  = (fst (stacked left_block right_block done) ++ rows_of (left_block p),
     snd (stacked left_block right_block done) ++ column_of (right_block p)).
Proof.
  unfold stacked; simpl. rewrite !flat_map_app. reflexivity.
Qed.

Lemma stack_loop (todo : list (Matrix44 * Matrix44)) :
  forall (done : list (Matrix44 * Matrix44)) (restA restB : matrix),
    length restA = (3 * length todo)%nat ->
    length restB = (3 * length todo)%nat ->
    Forall (fun r => length r = 3%nat) restA ->
    Forall (fun r => length r = 1%nat) restB ->
    foldM (stack_body (container (done ++ todo)))
          (map Z.of_nat (seq (length done) (length todo)))
          (fst (stacked left_block right_block done) ++ restA,
           snd (stacked left_block right_block done) ++ restB)
    = Return (stacked left_block right_block (done ++ todo)).
Proof.
  induction todo as [| p todo IH]; intros done restA restB HA HB FA FB.
  - destruct restA; [| discriminate]. destruct restB; [| discriminate].
    rewrite !app_nil_r. cbn [length seq map foldM].
    rewrite <- surjective_pairing. reflexivity.
  - destruct restA as [| a0 [| a1 [| a2 restA]]]; try (simpl in HA; lia).
    destruct restB as [| b0 [| b1 [| b2 restB]]]; try (simpl in HB; lia).
    inversion FA as [| ? ? Fa0 FA1]; subst. inversion FA1 as [| ? ? Fa1 FA2]; subst.
    inversion FA2 as [| ? ? Fa2 FA3]; subst.
    inversion FB as [| ? ? Fb0 FB1]; subst. inversion FB1 as [| ? ? Fb1 FB2]; subst.
    inversion FB2 as [| ? ? Fb2 FB3]; subst.
    destruct (stacked_lengths done) as [LA1 LB1].
    cbn [length seq map foldM].
    unfold stack_body at 1. unfold hg_at, hc_at, container. cbn [m_hg m_hc].
    rewrite !map_app. cbn [map].
    rewrite (index_app (map fst done) (fst p)) by (rewrite length_map; reflexivity).
    rewrite (index_app (map snd done) (snd p)) by (rewrite length_map; reflexivity).
    cbn [bind].
    pose proof (surjective_pairing (sides (fst p) (snd p))) as Es.
    fold (right_block p) in Es. fold (left_block p) in Es. rewrite Es.
    rewrite store_right_rows by (try assumption; lia). cbn [bind].
    rewrite store_block_rows by (try assumption; lia). cbn [bind].
    specialize (IH (done ++ [p]) restA restB).
    rewrite stacked_snoc in IH. cbn [fst snd] in IH.
    rewrite <- !app_assoc in IH. cbn [app] in IH.
    rewrite length_app in IH. cbn [length] in IH.
    replace (length done + 1)%nat with (S (length done)) in IH by lia.
    unfold container in IH. rewrite !map_app in IH. cbn [map] in IH.
    rewrite <- ?app_assoc in IH. cbn [app] in IH.
    rewrite <- ?app_assoc. cbn [app].
    apply IH; simpl in HA, HB; try assumption; lia.
Qed.

Lemma new_matrix_shape (rows cols : nat) :
  exists m, new_matrix (Z.of_nat rows) (Z.of_nat cols) = Return m /\
            length m = rows /\ Forall (fun r => length r = cols) m.
Proof.
  unfold new_matrix.
  destruct (Z.ltb_spec (Z.of_nat rows) 0); [lia |].
  destruct (Z.ltb_spec (Z.of_nat cols) 0); [lia |].
  cbn [orb]. eexists. split; [reflexivity |]. split.
  - rewrite length_map, int_range_length. lia.
  - apply Forall_forall. intros r Hr. apply in_map_iff in Hr.
    destruct Hr as [i [<- _]]. rewrite length_map, int_range_length. lia.
Qed.

Lemma getNumber_container (pairs : list (Matrix44 * Matrix44)) :
  (3 * Z.of_nat (length pairs) <= INT_MAX)%Z ->
  getNumber (container pairs) = Z.of_nat (length pairs).
Proof.
  intros H. unfold getNumber, container, size. cbn [m_hg].
  rewrite length_map. apply to_int_small. unfold INT_MIN, INT_MAX in *. lia.
Qed.

(** Allocation and loop together: the system handed to [gels]. *)
Lemma stacked_system (pairs : list (Matrix44 * Matrix44)) :
  (3 * Z.of_nat (length pairs) <= INT_MAX)%Z ->
  (rows <- int_result (3 * getNumber (container pairs)) ;;
   tA <- new_matrix rows 3 ;;
   tB <- new_matrix rows 1 ;;
   foldM (stack_body (container pairs))
         (int_range 0 (getNumber (container pairs) - 1)) (tA, tB))
  = Return (stacked left_block right_block pairs).
Proof.
  intros H. rewrite getNumber_container by exact H.
  rewrite int_result_small by (unfold INT_MIN, INT_MAX in *; lia). cbn [bind].
  replace (3 * Z.of_nat (length pairs))%Z with (Z.of_nat (3 * length pairs)) by lia.
  destruct (new_matrix_shape (3 * length pairs) 3) as [tA [EA [LA3 FA]]].
  destruct (new_matrix_shape (3 * length pairs) 1) as [tB [EB [LB3 FB]]].
  change 3%Z with (Z.of_nat 3) at 1. rewrite EA. cbn [bind].
  change 1%Z with (Z.of_nat 1) at 1. rewrite EB. cbn [bind].
  rewrite int_range_0.
  apply (stack_loop pairs [] tA tB); assumption.
Qed.

(** Reading the solution back after [gels] has overwritten [tB]. *)
Lemma mget_overwrite (B : matrix) (x : Z -> Z -> R) (r c : nat) :
  (r < length B)%nat -> (c < length (nth r B []))%nat ->
  mget (overwrite B x) (Z.of_nat r) (Z.of_nat c) = Return (x (Z.of_nat r) (Z.of_nat c)).
Proof.
  intros Hr Hc. unfold mget, overwrite, size.
  rewrite (index_map_range _ (length B) r Hr). cbn [bind].
  rewrite Nat2Z.id.
  apply (index_map_range _ (length (nth r B [])) c Hc).
Qed.

End Stacking.

(** *** The two stages *)

Section Stages.

Context `{LA : LinearAlgebra}.

Lemma computePcg_system_spec (pairs : list (Matrix44 * Matrix44)) :
  (3 * Z.of_nat (length pairs) <= INT_MAX)%Z ->
  computePcg_system (container pairs) = Return (rotation_system pairs).
Proof.
  intros H. exact (stacked_system computeSidesRot pairs H).
Qed.

Lemma computeTcg_system_spec (rcg : Matrix33) (pairs : list (Matrix44 * Matrix44)) :
  (3 * Z.of_nat (length pairs) <= INT_MAX)%Z ->
  computeTcg_system (container pairs) rcg = Return (translation_system rcg pairs).
Proof.
  intros H.
  exact (stacked_system (fun hg hc => computeSidesTrans hg hc rcg) pairs H).
Qed.

(** The first three entries of the overwritten right-hand side. *)
Lemma read_solution (right : Matrix44 * Matrix44 -> Vector3)
    (pairs : list (Matrix44 * Matrix44)) (x : Z -> Z -> R) :
  pairs <> [] ->
  let tB := overwrite (flat_map (fun p => column_of (right p)) pairs) x in
  mget tB 0 0 = Return (x 0 0)%Z /\
  mget tB 1 0 = Return (x 1 0)%Z /\
  mget tB 2 0 = Return (x 2 0)%Z.
Proof.
  intros Hne tB. subst tB.
  destruct pairs as [| p pairs]; [congruence |].
  cbn [flat_map column_of app].
  repeat split.
  - apply (mget_overwrite _ x 0 0); simpl; lia.
  - apply (mget_overwrite _ x 1 0); simpl; lia.
  - apply (mget_overwrite _ x 2 0); simpl; lia.
Qed.

Lemma getRcg_rescaled (v : Vector3) : getRcg v = getMatrix (rescaled v).
Proof. reflexivity. Qed.

Lemma computePcg_spec (pairs : list (Matrix44 * Matrix44)) :
  pairs <> [] ->
  (3 * Z.of_nat (length pairs) <= INT_MAX)%Z ->
  computePcg (container pairs)
  = Return (getMatrix (rescaled (solution (rotation_system pairs)))).
Proof.
  intros Hne H. unfold computePcg.
  rewrite (computePcg_system_spec pairs H). cbn [bind].
  unfold rotation_system, solution, stacked. cbn [fst snd].
  match goal with
  | |- context [overwrite (flat_map (fun p => column_of (@?r p)) pairs) ?x] =>
      destruct (read_solution r pairs x Hne) as [E0 [E1 E2]]
  end.
  rewrite E0. cbn [bind]. rewrite E1. cbn [bind]. rewrite E2. cbn [bind].
  rewrite getRcg_rescaled. reflexivity.
Qed.

Lemma computeTcg_spec (rcg : Matrix33) (pairs : list (Matrix44 * Matrix44)) :
  pairs <> [] ->
  (3 * Z.of_nat (length pairs) <= INT_MAX)%Z ->
  computeTcg (container pairs) rcg
  = Return (solution (translation_system rcg pairs)).
Proof.
  intros Hne H. unfold computeTcg.
  rewrite (computeTcg_system_spec rcg pairs H). cbn [bind].
  unfold translation_system, solution, stacked. cbn [fst snd].
  match goal with
  | |- context [overwrite (flat_map (fun p => column_of (@?r p)) pairs) ?x] =>
      destruct (read_solution r pairs x Hne) as [E0 [E1 E2]]
  end.
  rewrite E0. cbn [bind]. rewrite E1. cbn [bind]. rewrite E2. cbn [bind].
  reflexivity.
Qed.

End Stages.

(** C4. Rotation stage.  For a non-empty set of pairs (3P within [int]),
    the system [computePcg] hands to the least-squares solver stacks, per
    pair, the cross-product matrix of the sum of the two extracted
    quaternion vectors on the left and their difference (eye-side minus
    hand-side) on the right; the solution v is rescaled to
    2 v / sqrt(1 + |v|^2) and the rotation matrix is rebuilt from the
    rescaled vector by [getMatrix]. *)
Theorem rotation_stage `{LA : LinearAlgebra} (pairs : list (Matrix44 * Matrix44)) :
  pairs <> [] ->
  (3 * Z.of_nat (length pairs) <= INT_MAX)%Z ->
  computePcg_system (container pairs) = Return (rotation_system pairs) /\
  computePcg (container pairs)
  = Return (getMatrix (rescaled (solution (rotation_system pairs)))).
Proof.
  intros Hne H. split.
  - apply computePcg_system_spec; exact H.
  - apply computePcg_spec; assumption.
Qed.

Lemma rotation_stage_witness :
  computePcg_system (LA := Reference.linear_algebra) (container identical_pairs)
  = Return (rotation_system identical_pairs) /\
  computePcg (LA := Reference.linear_algebra) (container identical_pairs)
  = Return (getMatrix
              (rescaled (solution (LA := Reference.linear_algebra)
                                  (rotation_system identical_pairs)))).
Proof.
  apply (rotation_stage (LA := Reference.linear_algebra) identical_pairs).
  - discriminate.
  - unfold INT_MAX. simpl. lia.
Defined.

(** C5. Translation stage.  For a non-empty set of pairs (3P within [int])
    and the rotation estimate [rcg], the system [computeTcg] hands to the
    solver stacks, per pair, (hand rotation block - identity) on the left
    and rcg * (eye translation) - (hand translation) on the right; the
    translation returned is the solution the solver leaves in the first
    three rows of the right-hand side. *)
Theorem translation_stage `{LA : LinearAlgebra} (rcg : Matrix33)
    (pairs : list (Matrix44 * Matrix44)) :
  pairs <> [] ->
  (3 * Z.of_nat (length pairs) <= INT_MAX)%Z ->
  computeTcg_system (container pairs) rcg
  = Return (translation_system rcg pairs) /\
  computeTcg (container pairs) rcg
  = Return (solution (translation_system rcg pairs)).
Proof.
  intros Hne H. split.
  - apply computeTcg_system_spec; exact H.
  - apply computeTcg_spec; assumption.
Qed.

Lemma translation_stage_witness :
  computeTcg_system (LA := Reference.linear_algebra) (container identical_pairs)
                    identity_matrix3
  = Return (translation_system identity_matrix3 identical_pairs) /\
  computeTcg (LA := Reference.linear_algebra) (container identical_pairs)
             identity_matrix3
  = Return (solution (LA := Reference.linear_algebra)
                     (translation_system identity_matrix3 identical_pairs)).
Proof.
  apply (translation_stage (LA := Reference.linear_algebra) identity_matrix3
           identical_pairs).
  - discriminate.
  - unfold INT_MAX. simpl. lia.
Defined.

(** *** The guards of the entry points *)

(** C2. With sequences of different lengths, both entry points (the
    template on matrices and the overload on poses) throw "Input sizes do
    not match", whatever the fuel; no pose is returned. *)
Theorem size_mismatch_throws `{LA : LinearAlgebra} (fuel : nat)
    (hand eye : list Matrix44) (handPoses eyePoses : list Pose)
    (bUseAllPairs : bool) :
  length hand <> length eye ->
  length handPoses <> length eyePoses ->
  performHandEyeCalibrationImp fuel hand eye bUseAllPairs
  = Throw sizes_do_not_match /\
  performHandEyeCalibration fuel handPoses eyePoses bUseAllPairs
  = Throw sizes_do_not_match.
Proof.
  intros H1 H2. unfold performHandEyeCalibrationImp, performHandEyeCalibration, size.
  destruct (Z.eqb_spec (Z.of_nat (length eye)) (Z.of_nat (length hand))); [lia |].
  destruct (Z.eqb_spec (Z.of_nat (length eyePoses)) (Z.of_nat (length handPoses)));
    [lia |].
  split; reflexivity.
Qed.

Lemma size_mismatch_throws_witness :
  performHandEyeCalibrationImp (LA := Reference.linear_algebra) 0
    [identity_matrix4; identity_matrix4; identity_matrix4] [identity_matrix4] false
  = Throw sizes_do_not_match /\
  performHandEyeCalibration (LA := Reference.linear_algebra) 0
    [sentinel] [] false
  = Throw sizes_do_not_match.
Proof.
  apply (size_mismatch_throws (LA := Reference.linear_algebra)); simpl; lia.
Defined.

(** C3. With sequences of the same length, at most 2, both entry points
    return the pose with identity rotation and zero translation, whatever
    the fuel; nothing is thrown. *)
Theorem short_input_returns_sentinel `{LA : LinearAlgebra} (fuel : nat)
    (hand eye : list Matrix44) (handPoses eyePoses : list Pose)
    (bUseAllPairs : bool) :
  length hand = length eye -> (length eye <= 2)%nat ->
  length handPoses = length eyePoses -> (length eyePoses <= 2)%nat ->
  performHandEyeCalibrationImp fuel hand eye bUseAllPairs
  = Return (mkPose (mkQuaternion 0 0 0 1) (mkVector3 0 0 0)) /\
  performHandEyeCalibration fuel handPoses eyePoses bUseAllPairs
  = Return (mkPose (mkQuaternion 0 0 0 1) (mkVector3 0 0 0)).
Proof.
  intros H1 L1 H2 L2.
  unfold performHandEyeCalibrationImp, performHandEyeCalibration, size.
  destruct (Z.eqb_spec (Z.of_nat (length eye)) (Z.of_nat (length hand))); [| lia].
  destruct (Z.eqb_spec (Z.of_nat (length eyePoses)) (Z.of_nat (length handPoses)));
    [| lia].
  destruct (Z.leb_spec (Z.of_nat (length eye)) 2); [| lia].
  destruct (Z.leb_spec (Z.of_nat (length eyePoses)) 2); [| lia].
  split; reflexivity.
Qed.

Lemma short_input_returns_sentinel_witness :
  performHandEyeCalibrationImp (LA := Reference.linear_algebra) 0
    [identity_matrix4; identity_matrix4] [identity_matrix4; identity_matrix4] true
  = Return (mkPose (mkQuaternion 0 0 0 1) (mkVector3 0 0 0)) /\
  performHandEyeCalibration (LA := Reference.linear_algebra) 0 [] [] true
  = Return (mkPose (mkQuaternion 0 0 0 1) (mkVector3 0 0 0)).
Proof.
  apply (short_input_returns_sentinel (LA := Reference.linear_algebra));
    simpl; lia.
Defined.

(** *** The quaternion extraction *)

Open Scope R_scope.

Lemma getQuaternion_c_maximal (a b c d : R) :
  let q := [a; b; c; d] in
  (getQuaternion_c q < 4)%nat /\ Forall (fun x => x <= arr q (getQuaternion_c q)) q.
Proof.
  intros q. subst q. unfold getQuaternion_c, arr. cbn [nth].
  destruct (Rlt_dec a b); cbn [nth];
    match goal with
    | |- context [Rlt_dec ?x c] => destruct (Rlt_dec x c)
    end; cbn [nth];
    match goal with
    | |- context [Rlt_dec ?x d] => destruct (Rlt_dec x d)
    end; cbn [nth];
    (split; [lia | repeat (apply Forall_cons; [lra |]); apply Forall_nil]).
Qed.

Lemma getQuaternion_q_sum (source : Matrix33) :
  let q := getQuaternion_q source in
  arr q 0 + arr q 1 + arr q 2 + arr q 3 = 1.
Proof. unfold getQuaternion_q, arr. cbn [nth]. field. Qed.

Lemma sqrt_quarter : sqrt (1 / 4) = 1 / 2.
Proof.
  replace (1 / 4) with ((1 / 2) * (1 / 2)) by field.
  apply sqrt_square. lra.
Qed.

(** C6. For every 3x3 input - in particular every rotation matrix - the
    index [c] that [getQuaternion] selects designates a largest one of the
    four trace-based candidates; that candidate is at least 1/4, so the
    square root every branch divides by is at least 1/2. *)
Theorem getQuaternion_divisor_bounded (source : Matrix33) :
  let q := getQuaternion_q source in
  let c := getQuaternion_c q in
  (c < 4)%nat /\
  Forall (fun x => x <= arr q c) q /\
  1 / 4 <= arr q c /\
  1 / 2 <= sqrt (arr q c) /\
  getQuaternion source
  = (let quat := getQuaternion_positive_w
                   (getQuaternion_branch c (sqrt (arr q c))
                                         (getQuaternion_qoff source)) in
     mkVector3 (arr quat 0) (arr quat 1) (arr quat 2)).
Proof.
  intros q c.
  pose proof (getQuaternion_q_sum source) as Hsum. cbv zeta in Hsum.
  fold q in Hsum.
  assert (Hq : q = [arr q 0; arr q 1; arr q 2; arr q 3]) by reflexivity.
  destruct (getQuaternion_c_maximal (arr q 0) (arr q 1) (arr q 2) (arr q 3))
    as [Hc Hmax].
  rewrite <- Hq in Hc, Hmax. fold c in Hc, Hmax.
  assert (Hquarter : 1 / 4 <= arr q c).
  { rewrite Hq in Hmax at 1.
    inversion Hmax as [| ? ? H0 Hmax1]; subst.
    inversion Hmax1 as [| ? ? H1 Hmax2]; subst.
    inversion Hmax2 as [| ? ? H2 Hmax3]; subst.
    inversion Hmax3 as [| ? ? H3 _]; subst.
    lra. }
  repeat split; try assumption.
  rewrite <- sqrt_quarter. apply sqrt_le_1_alt. exact Hquarter.
Qed.

(** *** The whole solver *)

Section Solver.

Context `{LA : LinearAlgebra}.

Lemma setNumber_fits (N : nat) (bUseAllPairs : bool) :
  sizes_fit N bUseAllPairs ->
  setNumber TransformCont_new (to_int (Z.of_nat N)) bUseAllPairs
  = Return TransformCont_new.
Proof.
  intros [HN [Hsq _]]. unfold setNumber.
  rewrite to_int_small by (unfold INT_MIN, INT_MAX in *; lia).
  assert (Hres : forall p, (0 <= p <= INT_MAX)%Z ->
            reserve (@nil Matrix44) (to_size_t p) = Return []).
  { intros p Hp. unfold reserve.
    rewrite to_size_t_small by (unfold INT_MAX in *; lia).
    destruct (Z.ltb_spec max_size p) as [Hlt | Hge]; [| reflexivity].
    unfold max_size, INT_MAX in *.
    change (9223372036854775807 / 64)%Z with 144115188075855871%Z in Hlt. lia. }
  destruct bUseAllPairs.
  - specialize (Hsq eq_refl).
    rewrite int_result_small by (unfold INT_MIN, INT_MAX in *; nia).
    cbn [bind TransformCont_new m_hg m_hc].
    assert (Hq : (0 <= Z.quot (Z.of_nat N * Z.of_nat N) 2 <= INT_MAX)%Z).
    { rewrite Z.quot_div_nonneg by nia.
      split; [apply Z.div_pos; nia |].
      apply Z.le_trans with (Z.of_nat N * Z.of_nat N)%Z; [| exact Hsq].
      apply Z.div_le_upper_bound; nia. }
    rewrite !(Hres _ Hq). reflexivity.
  - cbn [bind TransformCont_new m_hg m_hc].
    rewrite !Hres by lia. reflexivity.
Qed.

Lemma selected_pairs_not_empty (N : nat) (useAllPairs : bool) :
  (3 <= N)%nat -> selected_pairs N useAllPairs <> [].
Proof.
  intros H3 E. apply (f_equal (@length _)) in E. simpl in E.
  destruct useAllPairs.
  - pose proof (selected_pairs_prefix_count N (N - 1) (le_n _)) as Hc.
    unfold selected_pairs in E. rewrite E in Hc. nia.
  - rewrite selected_pairs_consecutive in E. lia.
Qed.

(** Everything after the two guards. *)
Lemma solver_result {E : Type} (conv : E -> Matrix44) (d : E) (fuel : nat)
    (hand eye : list E) (bUseAllPairs : bool) :
  length eye = length hand ->
  (3 <= length hand)%nat ->
  sizes_fit (length hand) bUseAllPairs ->
  (length hand < fuel)%nat ->
  (tc <- setNumber TransformCont_new (to_int (size eye)) bUseAllPairs ;;
   tc <- fill_loops conv fuel tc hand eye bUseAllPairs ;;
   rcg <- computePcg tc ;;
   tcg <- computeTcg tc rcg ;;
   Return (mkPose (Quaternion_of_Matrix33 rcg) tcg))
  = Return (calibration (map (motion_pair conv d hand eye)
                             (selected_pairs (length hand) bUseAllPairs))).
Proof.
  intros He H3 Hfit Hf. unfold size. rewrite He.
  rewrite (setNumber_fits _ _ Hfit). cbn [bind].
  destruct Hfit as [HN [_ HP]].
  rewrite (fill_loops_result conv d hand eye fuel TransformCont_new bUseAllPairs)
    by (try assumption; unfold INT_MAX in *; lia).
  cbn [bind].
  set (pairs := map (motion_pair conv d hand eye)
                    (selected_pairs (length hand) bUseAllPairs)).
  change (append_pairs TransformCont_new pairs) with (container pairs).
  assert (Hne : pairs <> []).
  { subst pairs. intros E0. apply map_eq_nil in E0.
    exact (selected_pairs_not_empty _ _ H3 E0). }
  assert (Hlen : (3 * Z.of_nat (length pairs) <= INT_MAX)%Z).
  { subst pairs. rewrite length_map. exact HP. }
  rewrite (computePcg_spec pairs Hne Hlen). cbn [bind].
  rewrite (computeTcg_spec _ pairs Hne Hlen). cbn [bind].
  reflexivity.
Qed.

Lemma performHandEyeCalibrationImp_result (fuel : nat)
    (hand eye : list Matrix44) (bUseAllPairs : bool) :
  length eye = length hand ->
  (3 <= length hand)%nat ->
  sizes_fit (length hand) bUseAllPairs ->
  (length hand < fuel)%nat ->
  performHandEyeCalibrationImp fuel hand eye bUseAllPairs
  = Return (calibration (map (motion_pair (fun h => h) identity_matrix4 hand eye)
                             (selected_pairs (length hand) bUseAllPairs))).
Proof.
  intros He H3 Hfit Hf. unfold performHandEyeCalibrationImp, size.
  destruct (Z.eqb_spec (Z.of_nat (length eye)) (Z.of_nat (length hand))); [| lia].
  destruct (Z.leb_spec (Z.of_nat (length eye)) 2); [lia |].
  cbn [negb].
  exact (solver_result (fun h => h) identity_matrix4 fuel hand eye bUseAllPairs
                       He H3 Hfit Hf).
Qed.

Lemma performHandEyeCalibration_result (fuel : nat)
    (hand eye : list Pose) (bUseAllPairs : bool) :
  length eye = length hand ->
  (3 <= length hand)%nat ->
  sizes_fit (length hand) bUseAllPairs ->
  (length hand < fuel)%nat ->
  performHandEyeCalibration fuel hand eye bUseAllPairs
  = Return (calibration (map (motion_pair Matrix44_of_Pose sentinel hand eye)
                             (selected_pairs (length hand) bUseAllPairs))).
Proof.
  intros He H3 Hfit Hf. unfold performHandEyeCalibration, size.
  destruct (Z.eqb_spec (Z.of_nat (length eye)) (Z.of_nat (length hand))); [| lia].
  destruct (Z.leb_spec (Z.of_nat (length eye)) 2); [lia |].
  cbn [negb].
  exact (solver_result Matrix44_of_Pose sentinel fuel hand eye bUseAllPairs
                       He H3 Hfit Hf).
Qed.

End Solver.

(** C7 (as amended). The status [gels] reports is never inspected: for
    sequences of the same length N >= 3 whose sizes fit the [int]
    computations, and enough fuel, both entry points return - they do not
    throw - whatever status the solver reports, and the pose returned is the
    one computed from the entries the solver leaves in the two right-hand
    sides. *)
Theorem solver_status_ignored `{LA : LinearAlgebra}
    (status : ascii -> matrix -> matrix -> Z) (fuel : nat)
    (hand eye : list Matrix44) (handPoses eyePoses : list Pose)
    (bUseAllPairs : bool) :
  length eye = length hand ->
  (3 <= length hand)%nat ->
  sizes_fit (length hand) bUseAllPairs ->
  (length hand < fuel)%nat ->
  length eyePoses = length handPoses ->
  (3 <= length handPoses)%nat ->
  sizes_fit (length handPoses) bUseAllPairs ->
  (length handPoses < fuel)%nat ->
  performHandEyeCalibrationImp (LA := report_status LA status)
    fuel hand eye bUseAllPairs
  = Return (calibration (LA := LA)
              (map (motion_pair (fun h => h) identity_matrix4 hand eye)
                   (selected_pairs (length hand) bUseAllPairs))) /\
  performHandEyeCalibration (LA := report_status LA status)
    fuel handPoses eyePoses bUseAllPairs
  = Return (calibration (LA := LA)
              (map (motion_pair Matrix44_of_Pose sentinel handPoses eyePoses)
                   (selected_pairs (length handPoses) bUseAllPairs))).
Proof.
  intros He H3 Hfit Hf HeP H3P HfitP HfP. split.
  - rewrite (performHandEyeCalibrationImp_result (LA := report_status LA status)
               fuel hand eye bUseAllPairs He H3 Hfit Hf).
    reflexivity.
  - rewrite (performHandEyeCalibration_result (LA := report_status LA status)
               fuel handPoses eyePoses bUseAllPairs HeP H3P HfitP HfP).
    reflexivity.
Qed.

Lemma sizes_fit_3 : sizes_fit 3 false.
Proof.
  unfold sizes_fit, INT_MAX. split; [simpl; lia |].
  split; [discriminate | simpl; lia].
Qed.

Lemma solver_status_ignored_witness :
  performHandEyeCalibrationImp
    (LA := report_status Reference.linear_algebra (fun _ _ _ => 7%Z))
    4 identity_poses identity_poses false
  = Return (calibration (LA := Reference.linear_algebra)
              (map (motion_pair (LA := Reference.linear_algebra)
                      (fun h => h) identity_matrix4 identity_poses identity_poses)
                   (selected_pairs 3 false))) /\
  performHandEyeCalibration
    (LA := report_status Reference.linear_algebra (fun _ _ _ => 7%Z))
    4 sentinel_poses sentinel_poses false
  = Return (calibration (LA := Reference.linear_algebra)
              (map (motion_pair (LA := Reference.linear_algebra)
                      Reference.homogeneous sentinel sentinel_poses sentinel_poses)
                   (selected_pairs 3 false))).
Proof.
  apply (solver_status_ignored (LA := Reference.linear_algebra)
           (fun _ _ _ => 7%Z) 4 identity_poses identity_poses
           sentinel_poses sentinel_poses false);
    try exact sizes_fit_3; simpl; lia.
Defined.

(** *** A degenerate run: three identical poses *)

Section Degenerate.

Open Scope R_scope.

Ltac reals :=
  repeat match goal with
         | |- @eq R _ _ => first [lra | ring | field]
         | |- _ => f_equal
         end.

Lemma mkMatrix44_eq (a0 a1 a2 a3 b0 b1 b2 b3 d0 d1 d2 d3 e0 e1 e2 e3
                     a0' a1' a2' a3' b0' b1' b2' b3' d0' d1' d2' d3' e0' e1' e2' e3' : R) :
  a0 = a0' -> a1 = a1' -> a2 = a2' -> a3 = a3' ->
  b0 = b0' -> b1 = b1' -> b2 = b2' -> b3 = b3' ->
  d0 = d0' -> d1 = d1' -> d2 = d2' -> d3 = d3' ->
  e0 = e0' -> e1 = e1' -> e2 = e2' -> e3 = e3' ->
  mkMatrix44 a0 a1 a2 a3 b0 b1 b2 b3 d0 d1 d2 d3 e0 e1 e2 e3
  = mkMatrix44 a0' a1' a2' a3' b0' b1' b2' b3' d0' d1' d2' d3' e0' e1' e2' e3'.
Proof. intros. subst. reflexivity. Qed.

Lemma identity_pair :
  H_ik (LA := Reference.linear_algebra) identity_matrix4 identity_matrix4 = identity_matrix4 /\
  E_ik (LA := Reference.linear_algebra) identity_matrix4 identity_matrix4 = identity_matrix4.
Proof.
  unfold H_ik, E_ik, prod44, identity_matrix4. cbn.
  split; apply mkMatrix44_eq; ring.
Qed.

Lemma getQuaternion_identity :
  getQuaternion identity_matrix3 = mkVector3 0 0 0.
Proof.
  unfold getQuaternion, getQuaternion_q, getQuaternion_qoff, identity_matrix3.
  cbn [m00 m01 m02 m10 m11 m12 m20 m21 m22].
  replace ((1 + 1 + 1 + 1) / 4) with 1 by lra.
  replace ((1 + 1 - 1 - 1) / 4) with 0 by lra.
  replace ((1 - 1 + 1 - 1) / 4) with 0 by lra.
  replace ((1 - 1 - 1 + 1) / 4) with 0 by lra.
  replace ((0 - 0) / 4) with 0 by lra.
  replace ((0 + 0) / 4) with 0 by lra.
  unfold getQuaternion_c, arr. cbn [nth].
  repeat match goal with
         | |- context [Rlt_dec 1 0] =>
             destruct (Rlt_dec 1 0) as [H | _]; [lra |]; cbn [nth]
         end.
  rewrite sqrt_1.
  unfold getQuaternion_branch, getQuaternion_positive_w, arr. cbn [nth].
  repeat match goal with
         | |- context [Rlt_dec 1 0] =>
             destruct (Rlt_dec 1 0) as [H | _]; [lra |]; cbn [nth]
         end.
  f_equal; lra.
Qed.

Lemma identical_poses_pairs :
  map (motion_pair (LA := Reference.linear_algebra) (fun h => h)
                   identity_matrix4 identity_poses identity_poses)
      (selected_pairs 3 false)
  = identical_pairs.
Proof.
  destruct identity_pair as [EH EE].
  cbn [selected_pairs seq flat_map map app Nat.sub]. unfold motion_pair, identity_poses.
  cbn [fst snd nth]. rewrite EH, EE. reflexivity.
Qed.

Lemma rotation_system_identical : rotation_system identical_pairs = zero_system.
Proof.
  unfold rotation_system, stacked, identical_pairs, hand_vector, eye_vector.
  cbn [flat_map fst snd app].
  change (rotation_block identity_matrix4) with identity_matrix3.
  rewrite getQuaternion_identity.
  unfold zero_system. cbn. reals.
Qed.

Lemma translation_system_identical :
  translation_system identity_matrix3 identical_pairs = zero_system.
Proof.
  unfold translation_system, stacked, identical_pairs.
  cbn [flat_map fst snd app].
  unfold zero_system. cbn. reals.
Qed.

Lemma gels_zero_system :
  gels (LinearAlgebra := Reference.linear_algebra) "N"%char (fst zero_system) (snd zero_system)
  = (1%Z, fun i j => arr (nth (Z.to_nat i) (snd zero_system) []) (Z.to_nat j)).
Proof.
  cbn [gels Reference.linear_algebra Reference.linear_algebra]. unfold Reference.normal_equations_gels.
  match goal with
  | |- context [Req_dec_T ?D 0] => destruct (Req_dec_T D 0) as [_ | Hn]
  end.
  - reflexivity.
  - exfalso. apply Hn. unfold Reference.det3. cbn. ring.
Qed.

Lemma solution_zero_system :
  solution (LA := Reference.linear_algebra) zero_system = mkVector3 0 0 0.
Proof.
  unfold solution. rewrite gels_zero_system. reflexivity.
Qed.

Lemma getMatrix_zero : getMatrix (rescaled (mkVector3 0 0 0)) = identity_matrix3.
Proof.
  unfold rescaled, getMatrix, identity_matrix3, madd, mscale, outer_prod, skew.
  cbn [c0 c1 c2 m00 m01 m02 m10 m11 m12 m20 m21 m22].
  f_equal; unfold Rdiv; ring.
Qed.

Lemma calibration_identical :
  calibration (LA := Reference.linear_algebra) identical_pairs
  = mkPose (mkQuaternion 0 0 0 1) (mkVector3 0 0 0).
Proof.
  unfold calibration.
  rewrite rotation_system_identical, solution_zero_system, getMatrix_zero.
  rewrite translation_system_identical, solution_zero_system.
  cbn [Quaternion_of_Matrix33 Reference.linear_algebra Reference.linear_algebra].
  unfold Reference.quaternion_of_rotation.
  rewrite getQuaternion_identity. cbn [c0 c1 c2].
  replace (1 - (0 * 0 + 0 * 0 + 0 * 0)) with 1 by lra.
  rewrite sqrt_1. reflexivity.
Qed.

Lemma zero_system_rank_deficient : rank_deficient (fst zero_system).
Proof.
  exists 1, 0, 0. split; [left; lra |].
  unfold zero_system. cbn [fst repeat].
  repeat (apply Forall_cons; [unfold arr; cbn [nth]; lra |]). apply Forall_nil.
Qed.

End Degenerate.

(** C7 (as stated, refuted). Three identical poses: the two motion pairs
    are identity pairs, the stacked rotation system is the zero system, which
    is rank-deficient, and the reference solver reports it ([info = 1]); the
    call nevertheless returns, and what it returns is the identity pose. *)
Lemma calibration_failure_not_surfaced :
  fillTransformationVectors (LA := Reference.linear_algebra) 4
    TransformCont_new identity_poses identity_poses false
  = Return (container identical_pairs) /\
  computePcg_system (LA := Reference.linear_algebra) (container identical_pairs)
  = Return zero_system /\
  rank_deficient (fst zero_system) /\
  fst (gels (LinearAlgebra := Reference.linear_algebra)
            "N"%char (fst zero_system) (snd zero_system)) = 1%Z /\
  performHandEyeCalibrationImp (LA := Reference.linear_algebra)
    4 identity_poses identity_poses false
  = Return (mkPose (mkQuaternion 0 0 0 1) (mkVector3 0 0 0)).
Proof.
  split; [| split; [| split; [| split]]].
  - unfold fillTransformationVectors.
    rewrite (fill_loops_result (LA := Reference.linear_algebra) (fun h => h)
               identity_matrix4 identity_poses identity_poses 4
               TransformCont_new false eq_refl)
      by (simpl; lia).
    change (length identity_poses) with 3%nat.
    rewrite identical_poses_pairs. reflexivity.
  - rewrite <- rotation_system_identical. apply computePcg_system_spec.
    unfold INT_MAX. simpl. lia.
  - apply zero_system_rank_deficient.
  - rewrite gels_zero_system. reflexivity.
  - rewrite (performHandEyeCalibrationImp_result (LA := Reference.linear_algebra)
               4 identity_poses identity_poses false eq_refl);
      [| simpl; lia | exact sizes_fit_3 | simpl; lia].
    change (length identity_poses) with 3%nat.
    rewrite identical_poses_pairs, calibration_identical. reflexivity.
Qed.

End HandEyeProofs.

(* ===================================================================== *)
(** ** Multi-camera pose estimation *)
(* ===================================================================== *)

Module MultipleCameraProofs.

Import MultipleCameraPoseOptimization RigSpec.

Lemma modify_at_app {A : Type} (pre : list A) (x : A) (post : list A) (i : Z)
    (f : A -> A) :
  i = Z.of_nat (length pre) ->
  modify_at (pre ++ x :: post) i f = Return (pre ++ f x :: post).
Proof.
  intros Hi. unfold modify_at.
  rewrite (at_app pre x post i Hi). cbn [bind].
  apply set_at_app. exact Hi.
Qed.

Lemma mkFiltered_eq (o o' : list (Z * Z)) (p p' : list Vector3)
    (f3 f3' : list (list Vector3)) (f2 f2' : list (list Vector2))
    (t t' : Z) (n n' : list Z) :
  o = o' -> p = p' -> f3 = f3' -> f2 = f2' -> t = t' -> n = n' ->
  mkFiltered o p f3 f2 t n = mkFiltered o' p' f3' f2' t' n'.
Proof. intros; subst; reflexivity. Qed.

(** *** [std::min_element] and [std::max_element] *)

Lemma min_element_from_spec (l : list Z) :
  forall (pre : list Z) (smallest : nat) (vsmallest : Z),
    (smallest < length pre)%nat ->
    nth smallest pre 0%Z = vsmallest ->
    (min_element_from smallest vsmallest (length pre) l < length (pre ++ l))%nat /\
    nth (min_element_from smallest vsmallest (length pre) l) (pre ++ l) 0%Z
    = fold_left Z.min l vsmallest.
Proof.
  induction l as [| x t IH]; intros pre smallest vs Hs Hv; cbn [min_element_from].
  - rewrite app_nil_r. split; [exact Hs | exact Hv].
  - replace (pre ++ x :: t) with ((pre ++ [x]) ++ t)
      by (rewrite <- app_assoc; reflexivity).
    replace (S (length pre)) with (length (pre ++ [x]))
      by (rewrite length_app; simpl; lia).
    cbn [fold_left].
    destruct (Z.ltb_spec x vs) as [Hlt | Hge].
    + replace (Z.min vs x) with x by lia.
      apply IH.
      * rewrite length_app; simpl; lia.
      * rewrite app_nth2, Nat.sub_diag by lia. reflexivity.
    + replace (Z.min vs x) with vs by lia.
      apply IH.
      * rewrite length_app; simpl; lia.
      * rewrite app_nth1 by exact Hs. exact Hv.
Qed.

Lemma max_element_from_spec (l : list Z) :
  forall (pre : list Z) (largest : nat) (vlargest : Z),
    (largest < length pre)%nat ->
    nth largest pre 0%Z = vlargest ->
    (max_element_from largest vlargest (length pre) l < length (pre ++ l))%nat /\
    nth (max_element_from largest vlargest (length pre) l) (pre ++ l) 0%Z
    = fold_left Z.max l vlargest.
Proof.
  induction l as [| x t IH]; intros pre largest vl Hs Hv; cbn [max_element_from].
  - rewrite app_nil_r. split; [exact Hs | exact Hv].
  - replace (pre ++ x :: t) with ((pre ++ [x]) ++ t)
      by (rewrite <- app_assoc; reflexivity).
    replace (S (length pre)) with (length (pre ++ [x]))
      by (rewrite length_app; simpl; lia).
    cbn [fold_left].
    destruct (Z.ltb_spec vl x) as [Hlt | Hge].
    + replace (Z.max vl x) with x by lia.
      apply IH.
      * rewrite length_app; simpl; lia.
      * rewrite app_nth2, Nat.sub_diag by lia. reflexivity.
    + replace (Z.max vl x) with vl by lia.
      apply IH.
      * rewrite length_app; simpl; lia.
      * rewrite app_nth1 by exact Hs. exact Hv.
Qed.

Lemma min_element_spec (l : list Z) :
  l <> [] ->
  (min_element l < length l)%nat /\ nth (min_element l) l 0%Z = minimum l.
Proof.
  destruct l as [| x t]; [congruence |]. intros _.
  exact (min_element_from_spec t [x] 0 x (Nat.lt_0_succ 0) eq_refl).
Qed.

Lemma max_element_spec (l : list Z) :
  l <> [] ->
  (max_element l < length l)%nat /\ nth (max_element l) l 0%Z = maximum l.
Proof.
  destruct l as [| x t]; [congruence |]. intros _.
  exact (max_element_from_spec t [x] 0 x (Nat.lt_0_succ 0) eq_refl).
Qed.

(** *** The measurement vector *)

Section Measurements.

Context `{PE : PoseEstimation}.

Variable points2dWeights : list (list R).
Variable rows : list (list Vector2).

Abbreviation measurements_body :=
  (MultipleCameraPoseOptimization.measurements_body rows).

Lemma measurement_row (c : Z) (todo : list Vector2) :
  forall (done : list Vector2) (written rest tail : list R) (i : Z),
    at_ rows c = Return (done ++ todo) ->
    length rest = (2 * length todo)%nat ->
    Z.of_nat (length written) = (2 * i)%Z ->
    foldM (measurements_body c)
          (map Z.of_nat (seq (length done) (length todo)))
          (written ++ rest ++ tail, i)
    = Return (written ++ coordinates todo ++ tail, (i + Z.of_nat (length todo))%Z).
Proof.
  induction todo as [| pt todo IH]; intros done written rest tail i Hrow Hrest Hw.
  - destruct rest; [| discriminate]. cbn [length seq map foldM coordinates flat_map app].
    rewrite Z.add_0_r. reflexivity.
  - destruct rest as [| a [| b rest]]; try (cbn [length] in Hrest; lia).
    cbn [length seq map foldM].
    unfold MultipleCameraPoseOptimization.measurements_body at 1.
    rewrite Hrow. cbn [bind].
    rewrite (at_app done pt todo) by reflexivity. cbn [bind app].
    rewrite (set_index_app written a (u0 pt)) by lia. cbn [bind].
    replace (written ++ u0 pt :: b :: rest ++ tail)
      with ((written ++ [u0 pt]) ++ b :: rest ++ tail)
      by (rewrite <- app_assoc; reflexivity).
    rewrite (set_index_app (written ++ [u0 pt]) b (u1 pt))
      by (rewrite length_app; cbn [length]; lia).
    cbn [bind].
    replace ((written ++ [u0 pt]) ++ u1 pt :: rest ++ tail)
      with ((written ++ [u0 pt; u1 pt]) ++ rest ++ tail)
      by (rewrite <- !app_assoc; reflexivity).
    replace (S (length done)) with (length (done ++ [pt]))
      by (rewrite length_app; cbn [length]; lia).
    rewrite (IH (done ++ [pt]) (written ++ [u0 pt; u1 pt]) rest tail (i + 1)%Z).
    + f_equal. f_equal.
      * unfold coordinates. cbn [flat_map]. rewrite <- !app_assoc. reflexivity.
      * lia.
    + rewrite <- app_assoc. exact Hrow.
    + cbn [length] in Hrest. lia.
    + rewrite length_app. cbn [length]. lia.
Qed.

(** The inner loop for one camera, on fuel. *)
Lemma measurement_camera (fuel : nat) (c : Z) (row : list Vector2)
    (written rest tail : list R) (i : Z) :
  at_ rows c = Return row ->
  (length row < fuel)%nat ->
  (Z.of_nat (length row) < 4294967296)%Z ->
  length rest = (2 * length row)%nat ->
  Z.of_nat (length written) = (2 * i)%Z ->
  for_loop fuel
    (fun pointIndex =>
       match at_ rows c with
       | Return cam2d => (pointIndex <? size cam2d)%Z
       | _ => true
       end)
    (fun pointIndex => to_unsigned (pointIndex + 1))
    (measurements_body c) 0%Z (written ++ rest ++ tail, i)
  = Return (written ++ coordinates row ++ tail, (i + Z.of_nat (length row))%Z).
Proof.
  intros Hrow Hf Hsmall Hrest Hw.
  rewrite (for_loop_counted _ _ _ (length row)).
  - replace (0 + Z.of_nat (length row) - 1)%Z with (Z.of_nat (length row) - 1)%Z by lia.
    rewrite int_range_0.
    exact (measurement_row c row [] written rest tail i Hrow Hrest Hw).
  - exact Hf.
  - intros j Hj. rewrite Hrow. unfold size. split.
    + apply Z.ltb_lt. lia.
    + apply to_unsigned_small. lia.
  - rewrite Hrow. unfold size. apply Z.ltb_ge. lia.
Qed.

Lemma coordinates_length (row : list Vector2) :
  length (coordinates row) = (2 * length row)%nat.
Proof.
  unfold coordinates. induction row as [| pt row IH]; simpl; [reflexivity |].
  rewrite IH. lia.
Qed.

(** The outer loop, as a loop over the remaining cameras. *)
Lemma measurement_cameras (fuel : nat) (todo : list (list Vector2)) :
  forall (done : list (list Vector2)) (written rest : list R) (i : Z),
    rows = done ++ todo ->
    Forall (fun row => (length row < fuel)%nat /\
                       (Z.of_nat (length row) < 4294967296)%Z) todo ->
    length rest = length (flat_map coordinates todo) ->
    Z.of_nat (length written) = (2 * i)%Z ->
    exists i',
      foldM (fun cameraIndex s =>
               for_loop fuel
                 (fun pointIndex =>
                    match at_ rows cameraIndex with
                    | Return cam2d => (pointIndex <? size cam2d)%Z
                    | _ => true
                    end)
                 (fun pointIndex => to_unsigned (pointIndex + 1))
                 (measurements_body cameraIndex) 0%Z s)
            (map Z.of_nat (seq (length done) (length todo)))
            (written ++ rest, i)
      = Return (written ++ flat_map coordinates todo, i').
Proof.
  induction todo as [| row todo IH]; intros done written rest i Hrows Hall Hrest Hw.
  - destruct rest; [| discriminate]. exists i. reflexivity.
  - apply Forall_cons_iff in Hall. destruct Hall as [[Hf Hsmall] Hall'].
    cbn [length seq map foldM flat_map] in *.
    rewrite length_app, coordinates_length in Hrest.
    rewrite <- (firstn_skipn (2 * length row) rest).
    rewrite (measurement_camera fuel (Z.of_nat (length done)) row written
               (firstn (2 * length row) rest) (skipn (2 * length row) rest) i).
    + cbn [bind]. rewrite app_assoc.
      replace (S (length done)) with (length (done ++ [row]))
        by (rewrite length_app; cbn [length]; lia).
      destruct (IH (done ++ [row]) (written ++ coordinates row)
                  (skipn (2 * length row) rest) (i + Z.of_nat (length row))%Z)
        as [i' Ei'].
      * rewrite <- app_assoc. exact Hrows.
      * exact Hall'.
      * rewrite length_skipn. lia.
      * rewrite length_app, coordinates_length. lia.
      * exists i'. rewrite Ei'. rewrite <- app_assoc. reflexivity.
    + rewrite Hrows. apply at_app. reflexivity.
    + exact Hf.
    + exact Hsmall.
    + rewrite length_firstn. lia.
    + exact Hw.
Qed.

Lemma measurements_loops_spec (fuel : nat) (total : Z) :
  length rows = length points2dWeights ->
  (length rows < fuel)%nat ->
  (Z.of_nat (length rows) < 4294967296)%Z ->
  Forall (fun row => (length row < fuel)%nat /\
                     (Z.of_nat (length row) < 4294967296)%Z) rows ->
  (2 * total)%Z = Z.of_nat (length (flat_map coordinates rows)) ->
  measurements_loops points2dWeights fuel rows total
  = Return (flat_map coordinates rows).
Proof.
  intros HK Hf Hsmall Hall Htotal. unfold measurements_loops, size.
  rewrite <- HK.
  rewrite (for_loop_counted _ _ _ (length rows)).
  - replace (0 + Z.of_nat (length rows) - 1)%Z
      with (Z.of_nat (length rows) - 1)%Z by lia.
    rewrite int_range_0.
    destruct (measurement_cameras fuel rows [] []
                (map uninitialized_vector (int_range 0 (2 * total - 1))) 0)
      as [i' Ei']; try reflexivity; try assumption.
    + rewrite length_map, int_range_length. lia.
    + cbn [app length] in Ei'. unfold size in Ei'. rewrite Ei'. reflexivity.
  - exact Hf.
  - intros j Hj. split.
    + apply Z.ltb_lt. lia.
    + apply to_unsigned_small. lia.
  - apply Z.ltb_ge. lia.
Qed.

End Measurements.

(** *** Camera rotations and translations *)

Section Cameras.

Context `{PE : PoseEstimation}.

Variable points2dWeights : list (list R).
Variable camPoses : list Pose.

Lemma cameras_body_loop (todo : list Pose) :
  forall (done : list Pose) (restR : list Matrix33) (restT : list Vector3),
    camPoses = done ++ todo ->
    length restR = length todo -> length restT = length todo ->
    foldM (cameras_body camPoses)
          (map Z.of_nat (seq (length done) (length todo)))
          (map (fun pose => Matrix33_of_Quaternion (rotation pose)) done ++ restR,
           map translation done ++ restT)
    = Return (map (fun pose => Matrix33_of_Quaternion (rotation pose)) camPoses,
              map translation camPoses).
Proof.
  induction todo as [| pose todo IH]; intros done restR restT Hposes HR HT.
  - destruct restR; [| discriminate]. destruct restT; [| discriminate].
    rewrite app_nil_r in Hposes. subst done. rewrite !app_nil_r. reflexivity.
  - destruct restR as [| r restR]; [discriminate |].
    destruct restT as [| t restT]; [discriminate |].
    assert (Hidx : index camPoses (Z.of_nat (length done)) = Return pose)
      by (rewrite Hposes; apply index_app; reflexivity).
    cbn [length seq map foldM]. unfold cameras_body at 1.
    rewrite Hidx. cbn [bind].
    rewrite (set_index_app _ r) by (rewrite length_map; reflexivity). cbn [bind].
    rewrite (set_index_app _ t) by (rewrite length_map; reflexivity). cbn [bind].
    replace (S (length done)) with (length (done ++ [pose]))
      by (rewrite length_app; cbn [length]; lia).
    specialize (IH (done ++ [pose]) restR restT).
    rewrite !map_app in IH. cbn [map] in IH. rewrite <- !app_assoc in IH.
    apply IH.
    + exact Hposes.
    + cbn [length] in HR. lia.
    + cbn [length] in HT. lia.
Qed.

Lemma cameras_loop_spec (fuel : nat) :
  length camPoses = length points2dWeights ->
  (length camPoses < fuel)%nat ->
  (Z.of_nat (length camPoses) < 4294967296)%Z ->
  cameras_loop points2dWeights camPoses fuel
  = Return (map (fun pose => Matrix33_of_Quaternion (rotation pose)) camPoses,
            map translation camPoses).
Proof.
  intros HK Hf Hsmall. unfold cameras_loop, size. rewrite <- HK.
  rewrite (for_loop_counted _ _ _ (length camPoses)).
  - replace (0 + Z.of_nat (length camPoses) - 1)%Z
      with (Z.of_nat (length camPoses) - 1)%Z by lia.
    rewrite int_range_0.
    apply (cameras_body_loop camPoses []); try reflexivity;
      rewrite repeat_length; reflexivity.
  - exact Hf.
  - intros j Hj. split.
    + apply Z.ltb_lt. lia.
    + apply to_unsigned_small. lia.
  - apply Z.ltb_ge. lia.
Qed.

End Cameras.

(** *** The bundle driver as a sequence of direct calls *)

Section Bundles.

Context `{PE : PoseEstimation}.

Variable points3d : list Vector3.
Variable points2d : list (list Vector2).
Variable points2dWeights : list (list R).
Variable camPoses : list Pose.
Variable camMatrices : list Matrix33.
Variable fuel : nat.
Variable minCorrespondences : Z.

Abbreviation direct_call :=
  (fun range : Z * Z =>
     multipleCameraEstimatePose points3d points2d points2dWeights camPoses
       camMatrices fuel minCorrespondences false Pose_default
       (fst range) (snd range)).

Lemma bundle_loop_collect (sizes todo : list Z) :
  forall (done : list Z) (poses : list ErrorPose) (poseWeights : list R)
         (offset : Z),
    sizes = done ++ todo ->
    foldM (bundle_body points3d points2d points2dWeights camPoses camMatrices
                       fuel minCorrespondences sizes)
          (map Z.of_nat (seq (length done) (length todo)))
          (poses, poseWeights, offset)
    = (estimates <- collect (map direct_call (bundle_ranges_from offset todo)) ;;
       Return (poses ++ map fst estimates, poseWeights ++ map snd estimates,
               (offset + sumZ todo)%Z)).
Proof.
  induction todo as [| s todo IH]; intros done poses poseWeights offset Hsz.
  - cbn [length seq map foldM bundle_ranges_from collect bind sumZ fold_right].
    rewrite !app_nil_r, Z.add_0_r. reflexivity.
  - assert (Hat : at_ sizes (Z.of_nat (length done)) = Return s)
      by (rewrite Hsz; apply at_app; reflexivity).
    cbn [length seq map foldM bundle_ranges_from collect].
    unfold bundle_body at 1. rewrite Hat. cbn [bind fst snd].
    destruct (multipleCameraEstimatePose points3d points2d points2dWeights
                camPoses camMatrices fuel minCorrespondences false Pose_default
                offset (offset + s - 1)) as [e | w | |]; cbn [bind];
      try reflexivity.
    replace (S (length done)) with (length (done ++ [s]))
      by (rewrite length_app; cbn [length]; lia).
    rewrite (IH (done ++ [s]) (poses ++ [fst e]) (poseWeights ++ [snd e])
                (offset + s)%Z)
      by (rewrite <- app_assoc; exact Hsz).
    destruct (collect (map direct_call (bundle_ranges_from (offset + s) todo)))
      as [es | w | |]; cbn [bind]; try reflexivity.
    cbn [map]. rewrite <- !app_assoc. cbn [app].
    unfold sumZ. cbn [fold_right]. do 2 f_equal. lia.
Qed.

Lemma bundles_collect (poses : list ErrorPose) (poseWeights : list R)
    (localBundleSizes : list Z) :
  multipleCameraPoseEstimationWithLocalBundles points3d points2d
    points2dWeights camPoses camMatrices fuel minCorrespondences
    poses poseWeights localBundleSizes
  = (checkConsistency points3d points2d points2dWeights camPoses camMatrices ;;;
     estimates <- collect (map direct_call (bundle_ranges localBundleSizes)) ;;
     Return (poses ++ map fst estimates, poseWeights ++ map snd estimates)).
Proof.
  unfold multipleCameraPoseEstimationWithLocalBundles, bundle_ranges, size.
  destruct (checkConsistency points3d points2d points2dWeights camPoses
                             camMatrices) as [[] | w | |]; cbn [bind];
    try reflexivity.
  rewrite int_range_0.
  pose proof (bundle_loop_collect localBundleSizes localBundleSizes [] poses
                poseWeights 0%Z eq_refl) as Eloop.
  cbn [length] in Eloop. rewrite Eloop.
  destruct (collect (map direct_call (bundle_ranges_from 0 localBundleSizes)))
    as [es | w | |]; reflexivity.
Qed.


End Bundles.

Section Filtering.

Context `{PE : PoseEstimation}.

Variable points3d : list Vector3.
Variable points2d : list (list Vector2).
Variable points2dWeights : list (list R).
Variable camPoses : list Pose.
Variable camMatrices : list Matrix33.

Abbreviation K := (length points2dWeights).
Abbreviation M := (length points3d).
Abbreviation precondition :=
  (RigSpec.precondition points3d points2d points2dWeights camPoses camMatrices).
Abbreviation weight := (RigSpec.weight points2dWeights).
Abbreviation visible := (RigSpec.visible points2dWeights).
Abbreviation point3 := (RigSpec.point3 points3d).
Abbreviation point2 := (RigSpec.point2 points2d).
Abbreviation scanning := (RigSpec.scanning points3d points2d points2dWeights).
Abbreviation scanned := (RigSpec.scanned points3d points2d points2dWeights).
Abbreviation filter_body := (filter_body points3d points2d points2dWeights).

(** *** [checkConsistency] *)

Lemma checkConsistency_rows (cs : list nat) :
  length points2d = K ->
  (forall c, In c cs -> (c < K)%nat) ->
  foldM (checkConsistency_body points3d points2d points2dWeights)
        (map Z.of_nat cs) tt = Return tt ->
  forall c, In c cs ->
    length (nth c points2dWeights []) = M /\ length (nth c points2d []) = M.
Proof.
  intros H2d. induction cs as [| c0 cs IH]; intros Hin Hfold c Hc.
  - destruct Hc.
  - cbn [map foldM] in Hfold.
    apply bind_Return_inv in Hfold. destruct Hfold as [[] [Hbody Hrest]].
    assert (Hc0 : (c0 < K)%nat) by (apply Hin; left; reflexivity).
    unfold checkConsistency_body in Hbody.
    rewrite (index_in_range points2dWeights c0 [] Hc0) in Hbody.
    cbn [bind] in Hbody. unfold size in Hbody.
    destruct (Z.eqb_spec (Z.of_nat M) (Z.of_nat (length (nth c0 points2dWeights []))))
      as [E1 | N1]; cbn [negb] in Hbody; [| discriminate].
    rewrite (index_in_range points2d c0 []) in Hbody by lia.
    cbn [bind] in Hbody.
    destruct (Z.eqb_spec (Z.of_nat M) (Z.of_nat (length (nth c0 points2d []))))
      as [E2 | N2]; cbn [negb] in Hbody; [| discriminate].
    destruct Hc as [<- | Hc].
    + split; lia.
    + apply IH; try assumption. intros c' Hc'. apply Hin. right; exact Hc'.
Qed.

Lemma checkConsistency_sound :
  checkConsistency points3d points2d points2dWeights camPoses camMatrices
  = Return tt ->
  precondition.
Proof.
  unfold checkConsistency, size. intros H.
  destruct (Z.ltb_spec (Z.of_nat M) 3) as [| H3]; [discriminate |].
  destruct (Z.eqb_spec (Z.of_nat (length points2d)) (Z.of_nat K)) as [E1 |];
    cbn [negb orb] in H; [| discriminate].
  destruct (Z.eqb_spec (Z.of_nat (length points2d)) (Z.of_nat (length camPoses)))
    as [E2 |]; cbn [negb orb] in H; [| discriminate].
  destruct (Z.eqb_spec (Z.of_nat (length points2d)) (Z.of_nat (length camMatrices)))
    as [E3 |]; cbn [negb orb] in H; [| discriminate].
  rewrite int_range_0 in H.
  unfold RigSpec.precondition. repeat split; try lia.
  - apply (checkConsistency_rows (seq 0 K)); try assumption; try lia.
    + intros c' Hc'. apply in_seq in Hc'. lia.
    + apply in_seq. lia.
  - apply (checkConsistency_rows (seq 0 K)); try assumption; try lia.
    + intros c' Hc'. apply in_seq in Hc'. lia.
    + apply in_seq. lia.
Qed.

(** *** The filtering loops *)

Hypothesis Hpre : precondition.

Lemma filter_body_step (startIndex : Z) (c : nat) (p : Z)
    (obs : list (Z * Z)) (p3d : list Vector3)
    (before3 : list (list Vector3)) (before2 : list (list Vector2))
    (total : Z) (beforeC : list Z)
    (after3 : list (list Vector3)) (after2 : list (list Vector2))
    (afterC : list Z) (ps : list Z) :
  (c < K)%nat -> (0 <= p < Z.of_nat M)%Z ->
  length before3 = c -> length before2 = c -> length beforeC = c ->
  filter_body startIndex (Z.of_nat c) p
    (scanning startIndex obs p3d before3 before2 total beforeC
              after3 after2 afterC (Z.of_nat c) ps)
  = Return (scanning startIndex obs p3d before3 before2 total beforeC
                     after3 after2 afterC (Z.of_nat c) (ps ++ [p])).
Proof.
  intros Hc Hp L3 L2 LC.
  destruct Hpre as [_ [H2d [_ [_ Hrows]]]].
  destruct (Hrows c Hc) as [Hw Hp2].
  unfold MultipleCameraPoseOptimization.filter_body.
  rewrite (index_in_range points2dWeights c [] Hc). cbn [bind].
  rewrite (index_Z (nth c points2dWeights []) p 0) by (unfold size; lia).
  cbn [bind].
  assert (Ew : nth (Z.to_nat p) (nth c points2dWeights []) 0 = weight (Z.of_nat c) p).
  { unfold RigSpec.weight. rewrite Nat2Z.id. reflexivity. }
  rewrite Ew.
  assert (Ept : at_ points3d p = Return (point3 p)).
  { apply at_Z. unfold size. lia. }
  unfold RigSpec.scanning. rewrite filter_app. cbn [filter].
  destruct (Req_dec_T (weight (Z.of_nat c) p) 0) as [Ez | En] eqn:Edec.
  - assert (Hv : visible (Z.of_nat c) p = false)
      by (unfold RigSpec.visible; rewrite Edec; reflexivity).
    rewrite Hv, Ept. rewrite !app_nil_r.
    cbn [bind observations p3dLocal p3dLocalFiltered p2dLocal
         observationCountTotal observationCount].
    destruct (Z.of_nat c =? 0)%Z; cbn [bind]; f_equal;
      apply mkFiltered_eq; try reflexivity;
      rewrite ?map_app, ?app_nil_r, ?app_assoc; reflexivity.
  - assert (Hv : visible (Z.of_nat c) p = true)
      by (unfold RigSpec.visible; rewrite Edec; reflexivity).
    rewrite Hv, Ept.
    cbn [observations p3dLocal p3dLocalFiltered p2dLocal observationCountTotal
         observationCount].
    rewrite (at_Z points2d (Z.of_nat c) []) by (unfold size; lia). cbn [bind].
    rewrite Nat2Z.id.
    rewrite (at_Z (nth c points2d []) p (mkVector2 0 0)) by (unfold size; lia).
    cbn [bind].
    rewrite (modify_at_app before2) by lia. cbn [bind].
    rewrite (modify_at_app before3) by lia. cbn [bind].
    rewrite (modify_at_app beforeC) by lia.
    cbn [bind observations p3dLocal p3dLocalFiltered p2dLocal
         observationCountTotal observationCount].
    assert (E2 : nth (Z.to_nat p) (nth c points2d []) (mkVector2 0 0)
                 = point2 (Z.of_nat c) p).
    { unfold RigSpec.point2. rewrite Nat2Z.id. reflexivity. }
    rewrite E2.
    assert (Esz : forall l : list Z, Z.succ (size l) = size (l ++ [p])).
    { intros l. unfold size. rewrite length_app. cbn [length]. lia. }
    assert (Etot : forall l : list Z, (total + size l + 1 = total + size (l ++ [p]))%Z).
    { intros l. unfold size. rewrite length_app. cbn [length]. lia. }
    rewrite Esz, Etot.
    destruct (Z.of_nat c =? 0)%Z; cbn [bind]; f_equal;
      apply mkFiltered_eq; try reflexivity;
      rewrite ?map_app, ?app_nil_r, ?app_assoc; reflexivity.
Qed.

(** One camera: the inner loop. *)
Lemma scan_camera (startIndex : Z) (c : nat)
    (obs : list (Z * Z)) (p3d : list Vector3)
    (before3 : list (list Vector3)) (before2 : list (list Vector2))
    (total : Z) (beforeC : list Z)
    (after3 : list (list Vector3)) (after2 : list (list Vector2))
    (afterC : list Z) (todo : list Z) :
  (c < K)%nat ->
  length before3 = c -> length before2 = c -> length beforeC = c ->
  Forall (fun p => (0 <= p < Z.of_nat M)%Z) todo ->
  forall ps,
    foldM (filter_body startIndex (Z.of_nat c)) todo
      (scanning startIndex obs p3d before3 before2 total beforeC
                after3 after2 afterC (Z.of_nat c) ps)
    = Return (scanning startIndex obs p3d before3 before2 total beforeC
                       after3 after2 afterC (Z.of_nat c) (ps ++ todo)).
Proof.
  intros Hc L3 L2 LC. induction todo as [| p todo IH]; intros Hb ps.
  - rewrite app_nil_r. reflexivity.
  - inversion Hb as [| ? ? Hp Hb']; subst.
    cbn beta in Hp.
    cbn [foldM]. rewrite filter_body_step by (try assumption; lia). cbn [bind].
    rewrite (IH Hb' (ps ++ [p])). rewrite <- app_assoc. reflexivity.
Qed.

Lemma sumZ_app (l1 l2 : list Z) : sumZ (l1 ++ l2) = (sumZ l1 + sumZ l2)%Z.
Proof.
  unfold sumZ. induction l1 as [| x l1 IH]; simpl; [reflexivity |].
  rewrite IH. lia.
Qed.

Lemma scanned_start (startIndex endIndex : Z) (k : nat) :
  (k < K)%nat ->
  let done := map Z.of_nat (seq 0 k) in
  scanned startIndex endIndex k
  = scanning startIndex
      (flat_map (fun c => map (fun p => (to_unsigned (p - startIndex), to_unsigned c))
                              (visible_points points2dWeights startIndex endIndex c))
                done)
      (match done with
       | [] => []
       | _ :: _ => map point3 (int_range startIndex endIndex)
       end)
      (map (fun c => map point3 (visible_points points2dWeights startIndex endIndex c)) done)
      (map (fun c => map (point2 c) (visible_points points2dWeights startIndex endIndex c)) done)
      (sumZ (map (fun c => size (visible_points points2dWeights startIndex endIndex c)) done))
      (map (fun c => size (visible_points points2dWeights startIndex endIndex c)) done)
      (repeat [] (K - k - 1)) (repeat [] (K - k - 1)) (repeat 0%Z (K - k - 1))
      (Z.of_nat k) [].
Proof.
  intros Hk done. unfold RigSpec.scanned, RigSpec.scanning. fold done.
  set (r := (K - k - 1)%nat).
  replace (K - k)%nat with (S r) by (subst r; lia).
  cbn [repeat filter map]. apply mkFiltered_eq; try reflexivity.
  - rewrite app_nil_r. reflexivity.
  - destruct (Z.of_nat k =? 0)%Z; rewrite app_nil_r; reflexivity.
  - change (size []) with 0%Z. rewrite Z.add_0_r. reflexivity.
Qed.

Lemma scanned_finish (startIndex endIndex : Z) (k : nat) :
  (k < K)%nat ->
  let done := map Z.of_nat (seq 0 k) in
  scanning startIndex
      (flat_map (fun c => map (fun p => (to_unsigned (p - startIndex), to_unsigned c))
                              (visible_points points2dWeights startIndex endIndex c))
                done)
      (match done with
       | [] => []
       | _ :: _ => map point3 (int_range startIndex endIndex)
       end)
      (map (fun c => map point3 (visible_points points2dWeights startIndex endIndex c)) done)
      (map (fun c => map (point2 c) (visible_points points2dWeights startIndex endIndex c)) done)
      (sumZ (map (fun c => size (visible_points points2dWeights startIndex endIndex c)) done))
      (map (fun c => size (visible_points points2dWeights startIndex endIndex c)) done)
      (repeat [] (K - k - 1)) (repeat [] (K - k - 1)) (repeat 0%Z (K - k - 1))
      (Z.of_nat k) (int_range startIndex endIndex)
  = scanned startIndex endIndex (S k).
Proof.
  intros Hk done. unfold RigSpec.scanned, RigSpec.scanning.
  rewrite seq_S, map_app. cbn [Nat.add map]. fold done.
  replace (K - S k)%nat with (K - k - 1)%nat by lia.
  unfold RigSpec.visible_points.
  apply mkFiltered_eq.
  - rewrite flat_map_app. cbn [flat_map]. rewrite app_nil_r. reflexivity.
  - destruct k as [| k'].
    + reflexivity.
    + destruct (Z.eqb_spec (Z.of_nat (S k')) 0) as [E0 | _]; [lia |].
      rewrite app_nil_r.
      subst done. rewrite <- cons_seq. cbn [map app]. reflexivity.
  - rewrite map_app, <- app_assoc. reflexivity.
  - rewrite map_app, <- app_assoc. reflexivity.
  - rewrite map_app, sumZ_app. cbn [map]. unfold sumZ at 3. cbn [fold_right]. lia.
  - rewrite map_app, <- app_assoc. reflexivity.
Qed.

Lemma in_bounds_range (startIndex endIndex : Z) :
  (0 <= startIndex)%Z -> (endIndex < Z.of_nat M)%Z ->
  Forall (fun p => (0 <= p < Z.of_nat M)%Z) (int_range startIndex endIndex).
Proof.
  intros Hs He. apply Forall_forall. intros p Hp.
  apply in_int_range in Hp. lia.
Qed.

Lemma scan_cameras (startIndex endIndex : Z) (k : nat) :
  (0 <= startIndex)%Z -> (endIndex < Z.of_nat M)%Z ->
  (k <= K)%nat ->
  foldM (fun c st => foldM (filter_body startIndex (Z.of_nat c))
                           (int_range startIndex endIndex) st)
        (seq 0 k) (scanned startIndex endIndex 0)
  = Return (scanned startIndex endIndex k).
Proof.
  intros Hs He. induction k as [| k IH]; intros Hk.
  - reflexivity.
  - rewrite seq_S, foldM_app, IH by lia. cbn [bind Nat.add foldM].
    rewrite scanned_start by lia.
    rewrite scan_camera
      by first [ lia
               | rewrite !length_map, length_seq; reflexivity
               | apply in_bounds_range; assumption ].
    cbn [bind app]. rewrite scanned_finish by lia. reflexivity.
Qed.

(** The filtering loops compute the filtered arrays of the specification. *)
Lemma filter_loops_spec (startIndex endIndex : Z) :
  (0 <= startIndex)%Z -> (endIndex < Z.of_nat M)%Z ->
  filter_loops points3d points2d points2dWeights startIndex endIndex
  = Return (filtered points3d points2d points2dWeights startIndex endIndex).
Proof.
  intros Hs He. unfold filter_loops, size.
  rewrite int_range_0, foldM_map.
  replace (Filtered_new K) with (scanned startIndex endIndex 0).
  - rewrite (scan_cameras startIndex endIndex K Hs He (le_n _)).
    f_equal. unfold RigSpec.scanned, RigSpec.filtered, RigSpec.observation_counts,
      RigSpec.cameras, size.
    rewrite int_range_0, Nat.sub_diag. cbn [repeat].
    rewrite !app_nil_r. reflexivity.
  - unfold RigSpec.scanned, Filtered_new. cbn [seq map flat_map app].
    rewrite Nat.sub_0_r. reflexivity.
Qed.

(** *** The whole estimate *)

Abbreviation cameras := (RigSpec.cameras points2dWeights).
Abbreviation observation_counts := (RigSpec.observation_counts points2dWeights).
Abbreviation visible_points := (RigSpec.visible_points points2dWeights).

Lemma cameras_seq : cameras = map Z.of_nat (seq 0 K).
Proof. unfold RigSpec.cameras, size. apply int_range_0. Qed.

Lemma nth_over_cameras {A : Type} (f : Z -> A) (d : A) (c : nat) :
  (c < K)%nat -> nth c (map f cameras) d = f (Z.of_nat c).
Proof.
  intros Hc. rewrite cameras_seq, map_map.
  rewrite (nth_indep _ d (f (Z.of_nat 0))) by (rewrite length_map, length_seq; exact Hc).
  rewrite (map_nth (fun x => f (Z.of_nat x)) (seq 0 K) 0%nat c).
  rewrite seq_nth by exact Hc. reflexivity.
Qed.

Lemma visible_points_length (startIndex endIndex c : Z) :
  (0 <= startIndex)%Z -> (endIndex < Z.of_nat M)%Z ->
  (length (visible_points startIndex endIndex c) <= M)%nat.
Proof.
  intros Hs He. unfold RigSpec.visible_points.
  eapply Nat.le_trans; [apply filter_length_le |].
  rewrite int_range_length. lia.
Qed.

Lemma coordinates_of_rows (startIndex endIndex : Z) :
  flat_map coordinates
    (map (fun c => map (point2 c) (visible_points startIndex endIndex c)) cameras)
  = measurement_vector points2d points2dWeights startIndex endIndex.
Proof.
  unfold measurement_vector. fold cameras.
  induction cameras as [| c cs IH]; [reflexivity |].
  cbn [map flat_map]. rewrite IH. f_equal.
  unfold coordinates. fold (visible_points startIndex endIndex c).
  induction (visible_points startIndex endIndex c) as [| p ps IHp]; [reflexivity |].
  cbn [map flat_map]. rewrite IHp. reflexivity.
Qed.

Lemma total_is_half_the_coordinates (startIndex endIndex : Z) :
  (2 * sumZ (observation_counts startIndex endIndex))%Z
  = Z.of_nat (length (flat_map coordinates
       (map (fun c => map (point2 c) (visible_points startIndex endIndex c))
            cameras))).
Proof.
  unfold RigSpec.observation_counts. fold cameras.
  induction cameras as [| c cs IH]; [reflexivity |].
  cbn [map flat_map]. rewrite length_app, coordinates_length, length_map.
  unfold sumZ in *. cbn [fold_right]. unfold size at 1. lia.
Qed.

Lemma multipleCameraEstimatePose_spec (fuel : nat) (minCorrespondences : Z)
    (hasInitialPoseProvided : bool) (initialPose : Pose)
    (startIndex endIndex : Z) :
  (0 < K)%nat ->
  (Z.of_nat K <= INT_MAX)%Z -> (Z.of_nat M <= INT_MAX)%Z ->
  (0 <= startIndex)%Z ->
  (last_index points3d endIndex < Z.of_nat M)%Z ->
  (K < fuel)%nat -> (M < fuel)%nat ->
  let last := last_index points3d endIndex in
  multipleCameraEstimatePose points3d points2d points2dWeights camPoses camMatrices
    fuel minCorrespondences hasInitialPoseProvided initialPose startIndex endIndex
  = Return (if accepted minCorrespondences hasInitialPoseProvided
                        (observation_counts startIndex last)
            then refined points3d points2d points2dWeights camPoses camMatrices
                         hasInitialPoseProvided initialPose startIndex last
            else rejected).
Proof.
  intros HK0 HK HM Hs He HfK HfM last.
  destruct Hpre as [_ [H2d [Hposes [Hmats Hrows]]]].
  unfold multipleCameraEstimatePose.
  assert (Elast : (if (endIndex =? -1)%Z then (to_int (size points3d) - 1)%Z
                   else endIndex) = last).
  { subst last. unfold last_index, size.
    rewrite to_int_small by (unfold INT_MIN, INT_MAX in *; lia). reflexivity. }
  rewrite Elast.
  rewrite (filter_loops_spec startIndex last Hs He). cbn [bind].
  set (st := filtered points3d points2d points2dWeights startIndex last).
  change (observationCount st) with (observation_counts startIndex last).
  set (counts := observation_counts startIndex last).
  assert (Hlen : length counts = K).
  { subst counts. unfold RigSpec.observation_counts.
    rewrite length_map, cameras_seq, length_map, length_seq. reflexivity. }
  assert (Hne : counts <> []).
  { intros E0. rewrite E0 in Hlen. simpl in Hlen. lia. }
  destruct (min_element_spec counts Hne) as [Hmin1 Hmin2].
  destruct (max_element_spec counts Hne) as [Hmax1 Hmax2].
  rewrite (index_in_range counts _ 0%Z Hmin1), Hmin2. cbn [bind].
  rewrite to_int_small by (unfold INT_MIN, INT_MAX in *; lia).
  rewrite (at_in_range counts _ 0%Z Hmax1), Hmax2. cbn [bind].
  fold (accepted minCorrespondences hasInitialPoseProvided counts).
  destruct (accepted minCorrespondences hasInitialPoseProvided counts);
    [| reflexivity].
  set (best := max_element counts) in *.
  assert (Hbest : (best < K)%nat) by lia.
  assert (Einit :
    (if negb hasInitialPoseProvided
     then camPose <- at_ camPoses (Z.of_nat best) ;;
          p2d <- at_ (p2dLocal st) (Z.of_nat best) ;;
          p3d <- at_ (p3dLocalFiltered st) (Z.of_nat best) ;;
          camMatrix <- at_ camMatrices (Z.of_nat best) ;;
          Return (Pose_mul camPose (computePose p2d p3d camMatrix PLANAR_HOMOGRAPHY))
     else Return initialPose)
    = Return (if hasInitialPoseProvided then initialPose
              else bootstrap points3d points2d points2dWeights camPoses camMatrices
                             startIndex last)).
  { destruct hasInitialPoseProvided; cbn [negb]; [reflexivity |].
    rewrite (at_in_range camPoses best Pose_default) by lia. cbn [bind].
    subst st. unfold filtered. cbn [p2dLocal p3dLocalFiltered]. fold cameras.
    rewrite (at_in_range _ best [])
      by (rewrite length_map, cameras_seq, length_map, length_seq; exact Hbest).
    cbn [bind].
    rewrite (at_in_range _ best [])
      by (rewrite length_map, cameras_seq, length_map, length_seq; exact Hbest).
    cbn [bind].
    rewrite (at_in_range camMatrices best Matrix33_default) by lia. cbn [bind].
    rewrite !nth_over_cameras by exact Hbest.
    unfold bootstrap. fold counts. fold best. rewrite !Nat2Z.id. reflexivity. }
  rewrite Einit. cbn [bind].
  change (p2dLocal st)
    with (map (fun c => map (point2 c) (visible_points startIndex last c)) cameras).
  change (observationCountTotal st) with (sumZ counts).
  rewrite (measurements_loops_spec points2dWeights _ fuel).
  - cbn [bind]. rewrite coordinates_of_rows.
    rewrite (cameras_loop_spec points2dWeights camPoses fuel)
      by (unfold INT_MAX in *; lia).
    cbn [bind]. unfold refined, decode, objective, encode.
    destruct (levenbergMarquardt _ _ _ _) as [param res]. reflexivity.
  - rewrite length_map, cameras_seq, length_map, length_seq. reflexivity.
  - rewrite length_map, cameras_seq, length_map, length_seq. exact HfK.
  - rewrite length_map, cameras_seq, length_map, length_seq.
    unfold INT_MAX in *. lia.
  - apply Forall_forall. intros row Hrow. apply in_map_iff in Hrow.
    destruct Hrow as [c [<- _]]. rewrite length_map.
    pose proof (visible_points_length startIndex last c Hs He) as Hle.
    unfold INT_MAX in *. split; lia.
  - apply total_is_half_the_coordinates.
Qed.



End Filtering.



Lemma one_camera_consistent :
  checkConsistency RigReference.three_points RigReference.one_camera_2d
    RigReference.one_camera_weights RigReference.one_camera_poses
    RigReference.one_camera_matrices
  = Return tt.
Proof. reflexivity. Qed.





(** C10. When the number of 3D points fits an [int],
    [multipleCameraEstimatePose] called with [endIndex = -1] is the call with
    [endIndex = points3d.size() - 1], for every input and every fuel.  And
    the range it then filters is the one from [startIndex] to the last 3D
    point: on an input that [checkConsistency] accepts, with at least one
    camera, a start index that is not negative, enough fuel and few enough
    observations for the [int] counters of the code, the call with
    [endIndex = -1] returns; its result is the gate applied to the
    per-camera counts of the observations with non-zero weight among the
    points [startIndex .. points3d.size() - 1], and, where the gate accepts,
    the pose refined on those observations. *)
Theorem endIndex_sentinel `{PE : PoseEstimation}
    (points3d : list Vector3) (points2d : list (list Vector2))
    (points2dWeights : list (list R)) (camPoses : list Pose)
    (camMatrices : list Matrix33) (fuel : nat) (minCorrespondences : Z)
    (hasInitialPoseProvided : bool) (initialPose : Pose) (startIndex : Z) :
  (Z.of_nat (length points3d) <= INT_MAX)%Z ->
  let last := (Z.of_nat (length points3d) - 1)%Z in
  let counts := observation_counts points2dWeights startIndex last in
  multipleCameraEstimatePose points3d points2d points2dWeights camPoses
    camMatrices fuel minCorrespondences hasInitialPoseProvided initialPose
    startIndex (-1)
  = multipleCameraEstimatePose points3d points2d points2dWeights camPoses
      camMatrices fuel minCorrespondences hasInitialPoseProvided initialPose
      startIndex last /\
  (checkConsistency points3d points2d points2dWeights camPoses camMatrices
   = Return tt ->
   (0 < length points2dWeights)%nat ->
   (Z.of_nat (length points2dWeights) <= INT_MAX)%Z ->
   (0 <= startIndex)%Z ->
   (length points2dWeights < fuel)%nat -> (length points3d < fuel)%nat ->
   (2 * sumZ counts <= INT_MAX)%Z ->
   multipleCameraEstimatePose points3d points2d points2dWeights camPoses
     camMatrices fuel minCorrespondences hasInitialPoseProvided initialPose
     startIndex (-1)
   = Return (if accepted minCorrespondences hasInitialPoseProvided counts
             then refined points3d points2d points2dWeights camPoses
                          camMatrices hasInitialPoseProvided initialPose
                          startIndex last
             else rejected)).
Proof.
  intros HM last counts. split.
  - unfold multipleCameraEstimatePose, size.
    rewrite to_int_small by (unfold INT_MIN, INT_MAX in *; lia).
    change (-1 =? -1)%Z with true. cbv iota. fold last.
    destruct (Z.eqb_spec last (-1)) as [E | _]; reflexivity.
  - intros Hcheck HK0 HK Hs HfK HfM _.
    pose proof (checkConsistency_sound _ _ _ _ _ Hcheck) as Hpre.
    assert (Elast : last_index points3d (-1) = last) by reflexivity.
    pose proof (multipleCameraEstimatePose_spec points3d points2d
                  points2dWeights camPoses camMatrices Hpre fuel
                  minCorrespondences hasInitialPoseProvided initialPose
                  startIndex (-1) HK0 HK HM Hs) as Hspec.
    rewrite Elast in Hspec. apply Hspec; [subst last; lia | exact HfK | exact HfM].
Qed.

Lemma endIndex_sentinel_witness :
  multipleCameraEstimatePose (PE := RigReference.pose_estimation)
    RigReference.three_points RigReference.one_camera_2d
    RigReference.one_camera_weights RigReference.one_camera_poses
    RigReference.one_camera_matrices 4 1 true HandEyeCalibration.sentinel 1 (-1)
  = multipleCameraEstimatePose (PE := RigReference.pose_estimation)
      RigReference.three_points RigReference.one_camera_2d
      RigReference.one_camera_weights RigReference.one_camera_poses
      RigReference.one_camera_matrices 4 1 true HandEyeCalibration.sentinel 1 2 /\
  multipleCameraEstimatePose (PE := RigReference.pose_estimation)
    RigReference.three_points RigReference.one_camera_2d
    RigReference.one_camera_weights RigReference.one_camera_poses
    RigReference.one_camera_matrices 4 1 true HandEyeCalibration.sentinel 1 (-1)
  = Return (refined (PE := RigReference.pose_estimation)
              RigReference.three_points RigReference.one_camera_2d
              RigReference.one_camera_weights RigReference.one_camera_poses
              RigReference.one_camera_matrices true HandEyeCalibration.sentinel
              1 2).
Proof.
  assert (HM : (Z.of_nat (length RigReference.three_points) <= INT_MAX)%Z)
    by (unfold INT_MAX; simpl; lia).
  assert (Hcounts :
    observation_counts RigReference.one_camera_weights 1 2 = [1%Z]).
  { unfold RigSpec.observation_counts, RigSpec.visible_points, RigSpec.visible,
      RigSpec.weight, RigSpec.cameras, RigReference.one_camera_weights.
    cbv -[Req_dec_T].
    destruct (Req_dec_T R0 R0) as [_ | H0]; [| exfalso; apply H0; reflexivity].
    destruct (Req_dec_T R1 R0) as [H1 | _]; [exfalso; exact (R1_neq_R0 H1) |].
    reflexivity. }
  pose proof (endIndex_sentinel (PE := RigReference.pose_estimation)
                RigReference.three_points RigReference.one_camera_2d
                RigReference.one_camera_weights RigReference.one_camera_poses
                RigReference.one_camera_matrices 4 1 true
                HandEyeCalibration.sentinel 1 HM) as Hboth.
  cbv zeta in Hboth.
  change (Z.of_nat (length RigReference.three_points) - 1)%Z with 2%Z in Hboth.
  rewrite Hcounts in Hboth.
  destruct Hboth as [Hsame Hrange].
  split; [exact Hsame |].
  apply Hrange.
  - exact one_camera_consistent.
  - simpl; lia.
  - unfold INT_MAX; simpl; lia.
  - lia.
  - simpl; lia.
  - simpl; lia.
  - unfold INT_MAX, sumZ; simpl; lia.
Defined.

End MultipleCameraProofs.

(* ===================================================================== *)
(** * Further properties *)
(* ===================================================================== *)

(** ** Hand-eye calibration: the closed-form helpers *)

Module HandEyeMore.

Import HandEyeCalibration Spec Examples Algebra MoreExamples.

Open Scope R_scope.

Lemma mkVector3_eq (a b c a' b' c' : R) :
  a = a' -> b = b' -> c = c' -> mkVector3 a b c = mkVector3 a' b' c'.
Proof. intros -> -> ->. reflexivity. Qed.

Lemma mkMatrix33_congruence (a b c d e f g h i a' b' c' d' e' f' g' h' i' : R) :
  a = a' -> b = b' -> c = c' -> d = d' -> e = e' -> f = f' ->
  g = g' -> h = h' -> i = i' ->
  mkMatrix33 a b c d e f g h i = mkMatrix33 a' b' c' d' e' f' g' h' i'.
Proof. intros -> -> -> -> -> -> -> -> ->. reflexivity. Qed.

Lemma list4_eq (a b c d a' b' c' d' : R) :
  a = a' -> b = b' -> c = c' -> d = d' -> [a; b; c; d] = [a'; b'; c'; d'].
Proof. intros -> -> -> ->. reflexivity. Qed.

Lemma list6_eq (a b c d e f a' b' c' d' e' f' : R) :
  a = a' -> b = b' -> c = c' -> d = d' -> e = e' -> f = f' ->
  [a; b; c; d; e; f] = [a'; b'; c'; d'; e'; f'].
Proof. intros -> -> -> -> -> ->. reflexivity. Qed.

(** *** Rotations *)

(** The matrix of a quaternion of norm one is a proper rotation. *)
Lemma versor_matrix_is_rotation (w x y z : R) :
  w * w + x * x + y * y + z * z = 1 -> is_rotation (versor_matrix w x y z).
Proof.
  intros Hn. set (n := w * w + x * x + y * y + z * z) in *.
  assert (H1 : prod33 (versor_matrix w x y z) (transpose33 (versor_matrix w x y z))
               = mkMatrix33 (n * n) 0 0 0 (n * n) 0 0 0 (n * n)).
  { unfold prod33, transpose33, versor_matrix. cbn. subst n.
    apply mkMatrix33_congruence; ring. }
  assert (H2 : prod33 (transpose33 (versor_matrix w x y z)) (versor_matrix w x y z)
               = mkMatrix33 (n * n) 0 0 0 (n * n) 0 0 0 (n * n)).
  { unfold prod33, transpose33, versor_matrix. cbn. subst n.
    apply mkMatrix33_congruence; ring. }
  assert (H3 : det33 (versor_matrix w x y z) = n * n * n).
  { unfold det33, versor_matrix. cbn. subst n. ring. }
  unfold is_rotation. rewrite H1, H2, H3, Hn.
  unfold identity_matrix3.
  repeat split; try (apply mkMatrix33_congruence; ring); ring.
Qed.

(** For a vector of length at most two, [getMatrix] builds the matrix of
    the quaternion with vector part [source / 2] and the scalar part, not
    negative, that gives it norm one. *)
Lemma getMatrix_versor (source : Vector3) :
  squared_norm3 source <= 4 ->
  let w := sqrt (4 - squared_norm3 source) / 2 in
  w * w + c0 source / 2 * (c0 source / 2) + c1 source / 2 * (c1 source / 2)
  + c2 source / 2 * (c2 source / 2) = 1 /\
  getMatrix source
  = versor_matrix w (c0 source / 2) (c1 source / 2) (c2 source / 2).
Proof.
  intros Hn w. destruct source as [x y z]. unfold squared_norm3 in *.
  cbn [c0 c1 c2] in *.
  assert (Hrad : 0 <= 4 - (x * x + y * y + z * z)) by lra.
  pose proof (sqrt_sqrt _ Hrad) as Hs.
  set (alpha := sqrt (4 - (x * x + y * y + z * z))) in *.
  assert (Hw : w * w = 1 - (x * x + y * y + z * z) / 4).
  { subst w. replace (alpha / 2 * (alpha / 2)) with (alpha * alpha / 4) by field.
    rewrite Hs. field. }
  split; [rewrite Hw; field |].
  unfold getMatrix, versor_matrix, madd, mscale, outer_prod, skew, identity_matrix3.
  cbn [c0 c1 c2 m00 m01 m02 m10 m11 m12 m20 m21 m22]. fold alpha.
  apply mkMatrix33_congruence; try rewrite Hw; subst w; field.
Qed.

(** The vector [getRcg] hands to [getMatrix] is shorter than two. *)
Lemma rescaled_norm (v : Vector3) :
  0 < sqrt (1 + squared_norm3 v) /\
  squared_norm3 (rescaled v) = 4 * squared_norm3 v / (1 + squared_norm3 v) /\
  squared_norm3 (rescaled v) < 4.
Proof.
  destruct v as [x y z]. unfold rescaled, squared_norm3. cbn [c0 c1 c2].
  pose proof (Rle_0_sqr x) as Hx. pose proof (Rle_0_sqr y) as Hy.
  pose proof (Rle_0_sqr z) as Hz. unfold Rsqr in *.
  assert (Hs0 : 0 <= x * x + y * y + z * z) by lra.
  set (s := x * x + y * y + z * z) in *.
  assert (Hrad : 0 <= 1 + s) by lra.
  pose proof (sqrt_sqrt _ Hrad) as Hs.
  assert (Hpos : 0 < sqrt (1 + s)) by (apply sqrt_lt_R0; lra).
  set (n := sqrt (1 + s)) in *.
  assert (Hnorm : 2 * x / n * (2 * x / n) + 2 * y / n * (2 * y / n)
                  + 2 * z / n * (2 * z / n) = 4 * s / (1 + s)).
  { replace (2 * x / n * (2 * x / n) + 2 * y / n * (2 * y / n)
             + 2 * z / n * (2 * z / n))
      with (4 * s / (n * n)) by (subst s; field; lra).
    rewrite Hs. reflexivity. }
  split; [exact Hpos |]. split; [exact Hnorm |].
  rewrite Hnorm. apply (Rmult_lt_reg_r (1 + s)); [lra |].
  unfold Rdiv. rewrite Rmult_assoc, Rinv_l by lra. lra.
Qed.

(** X1. For every vector of length at most two, [getMatrix] returns a
    proper rotation: an orthogonal matrix of determinant one. *)
Theorem getMatrix_is_rotation (source : Vector3) :
  squared_norm3 source <= 4 -> is_rotation (getMatrix source).
Proof.
  intros Hn. destruct (getMatrix_versor source Hn) as [Hunit ->].
  apply versor_matrix_is_rotation. exact Hunit.
Qed.

Lemma getMatrix_is_rotation_witness :
  is_rotation (getMatrix (mkVector3 1 (-1) (1 / 2))).
Proof.
  apply (getMatrix_is_rotation (mkVector3 1 (-1) (1 / 2))).
  unfold squared_norm3; simpl; lra.
Defined.

(** *** [getQuaternion] after [getMatrix] *)

Lemma getQuaternion_q_versor (w x y z : R) :
  w * w + x * x + y * y + z * z = 1 ->
  getQuaternion_q (versor_matrix w x y z) = [w * w; x * x; y * y; z * z].
Proof.
  intros Hn. unfold getQuaternion_q, versor_matrix. cbn [m00 m11 m22].
  apply list4_eq; lra.
Qed.

Lemma getQuaternion_qoff_versor (w x y z : R) :
  getQuaternion_qoff (versor_matrix w x y z)
  = [x * w; y * w; z * w; x * y; x * z; y * z].
Proof.
  unfold getQuaternion_qoff, versor_matrix.
  cbn [m01 m02 m10 m12 m20 m21].
  apply list6_eq; field.
Qed.

(** The candidate chosen is the first one, or one that is larger than the
    first. *)
Lemma getQuaternion_c_larger (a b c d : R) :
  let q := [a; b; c; d] in
  (getQuaternion_c q < 4)%nat /\
  (getQuaternion_c q = 0%nat \/ a < arr q (getQuaternion_c q)).
Proof.
  unfold getQuaternion_c, arr. cbn [nth].
  destruct (Rlt_dec a b) as [Hab | Hab]; cbn [nth].
  - destruct (Rlt_dec b c) as [Hbc | Hbc]; cbn [nth].
    + destruct (Rlt_dec c d); cbn [nth]; split; try lia; right; lra.
    + destruct (Rlt_dec b d); cbn [nth]; split; try lia; right; lra.
  - destruct (Rlt_dec a c) as [Hac | Hac]; cbn [nth].
    + destruct (Rlt_dec c d); cbn [nth]; split; try lia; right; lra.
    + destruct (Rlt_dec a d); cbn [nth]; split; try lia;
        first [left; reflexivity | right; lra].
Qed.

Lemma sqrt_of_square (t : R) :
  t <> 0 -> (0 < t /\ sqrt (t * t) = t) \/ (t < 0 /\ sqrt (t * t) = - t).
Proof.
  intros Ht. destruct (Rlt_dec 0 t) as [Hpos | Hneg].
  - left. split; [exact Hpos |]. apply sqrt_square. lra.
  - right. assert (Hlt : t < 0) by lra. split; [exact Hlt |].
    replace (t * t) with (- t * - t) by ring. apply sqrt_square. lra.
Qed.

(** The last step of [getQuaternion], once the sign of [quat[3]] is
    known. *)
Ltac keep_sign w :=
  unfold getQuaternion_positive_w, arr; cbn [nth];
  match goal with
  | |- context [Rlt_dec ?q 0] =>
      let Hv := fresh "Hv" in
      assert (Hv : q = w) by (field; lra);
      destruct (Rlt_dec q 0) as [? | _]; [exfalso; lra |]
  end;
  cbn [nth]; apply mkVector3_eq; field; lra.

Ltac flip_sign w :=
  unfold getQuaternion_positive_w, arr; cbn [nth];
  match goal with
  | |- context [Rlt_dec ?q 0] =>
      let Hv := fresh "Hv" in
      assert (Hv : q = - w) by (field; lra);
      destruct (Rlt_dec q 0) as [_ | ?]; [| exfalso; lra]
  end;
  cbn [nth]; apply mkVector3_eq; field; lra.

(** From the matrix of a quaternion of norm one with positive scalar part,
    [getQuaternion] reads the vector part back, whichever of its four
    branches it takes. *)
Lemma getQuaternion_versor (w x y z : R) :
  0 < w -> w * w + x * x + y * y + z * z = 1 ->
  getQuaternion (versor_matrix w x y z) = mkVector3 x y z.
Proof.
  intros Hw Hn. unfold getQuaternion.
  rewrite (getQuaternion_q_versor w x y z Hn), getQuaternion_qoff_versor.
  destruct (getQuaternion_c_larger (w * w) (x * x) (y * y) (z * z)) as [Hlt Hc].
  cbv zeta in Hlt, Hc.
  destruct (getQuaternion_c [w * w; x * x; y * y; z * z]) as [| [| [| [| k]]]].
  - cbn [getQuaternion_branch]. unfold arr. cbn [nth].
    rewrite sqrt_square by lra.
    keep_sign w.
  - destruct Hc as [Hc | Hc]; [discriminate |].
    unfold arr in Hc. cbn [nth] in Hc.
    assert (Hx : x <> 0) by (intros E; rewrite E in Hc; nra).
    cbn [getQuaternion_branch]. unfold arr. cbn [nth].
    destruct (sqrt_of_square x Hx) as [[Hs ->] | [Hs ->]];
      [keep_sign w | flip_sign w].
  - destruct Hc as [Hc | Hc]; [discriminate |].
    unfold arr in Hc. cbn [nth] in Hc.
    assert (Hy : y <> 0) by (intros E; rewrite E in Hc; nra).
    cbn [getQuaternion_branch]. unfold arr. cbn [nth].
    destruct (sqrt_of_square y Hy) as [[Hs ->] | [Hs ->]];
      [keep_sign w | flip_sign w].
  - destruct Hc as [Hc | Hc]; [discriminate |].
    unfold arr in Hc. cbn [nth] in Hc.
    assert (Hz : z <> 0) by (intros E; rewrite E in Hc; nra).
    cbn [getQuaternion_branch]. unfold arr. cbn [nth].
    destruct (sqrt_of_square z Hz) as [[Hs ->] | [Hs ->]];
      [keep_sign w | flip_sign w].
  - lia.
Qed.

(** X2. For every vector shorter than two, [getQuaternion] undoes
    [getMatrix]: it returns half the vector [getMatrix] was given. *)
Theorem getQuaternion_undoes_getMatrix (source : Vector3) :
  squared_norm3 source < 4 ->
  getQuaternion (getMatrix source) = scale3 (1 / 2) source.
Proof.
  intros Hn.
  assert (Hle : squared_norm3 source <= 4) by lra.
  destruct (getMatrix_versor source Hle) as [Hunit ->].
  rewrite getQuaternion_versor.
  - destruct source as [x y z]. unfold scale3. cbn [c0 c1 c2].
    apply mkVector3_eq; field.
  - apply Rdiv_lt_0_compat; [| lra]. apply sqrt_lt_R0. lra.
  - exact Hunit.
Qed.

Lemma getQuaternion_undoes_getMatrix_witness :
  getQuaternion (getMatrix (mkVector3 1 (-1) (1 / 2)))
  = scale3 (1 / 2) (mkVector3 1 (-1) (1 / 2)).
Proof.
  apply (getQuaternion_undoes_getMatrix (mkVector3 1 (-1) (1 / 2))).
  unfold squared_norm3; simpl; lra.
Defined.

(** X3. On the path of [getRcg] the square root in [getMatrix] has no
    margin.  [getRcg] hands [2 v / sqrt(1 + |v|^2)] to [getMatrix], whose
    radicand [4 - length] is then [4 / (1 + |v|^2)] in exact arithmetic:
    positive for every [v], and as small as [|v|] is large.  A value of
    [length] that is too large by the relative error [delta] makes the
    radicand negative exactly when [delta * |v|^2 > 1]; for [|v| = 10^8]
    that is an error of [10^-16], about one rounding of a double. *)
Theorem getRcg_radicand_margin (pcg_ : Vector3) (delta : R) :
  let source := rescaled pcg_ in
  getRcg pcg_ = getMatrix source /\
  4 - squared_norm3 source = 4 / (1 + squared_norm3 pcg_) /\
  0 < 4 - squared_norm3 source /\
  (4 - (1 + delta) * squared_norm3 source < 0
   <-> 1 < delta * squared_norm3 pcg_).
Proof.
  intros source. subst source.
  destruct (rescaled_norm pcg_) as [_ [Hnorm Hlt]].
  split; [apply HandEyeProofs.getRcg_rescaled |].
  assert (Hs : 0 <= squared_norm3 pcg_).
  { destruct pcg_ as [x y z]. unfold squared_norm3. cbn [c0 c1 c2].
    pose proof (Rle_0_sqr x) as Hx. pose proof (Rle_0_sqr y) as Hy.
    pose proof (Rle_0_sqr z) as Hz. unfold Rsqr in *. lra. }
  rewrite Hnorm. set (s := squared_norm3 pcg_) in *.
  assert (Hinv : 0 < / (1 + s)) by (apply Rinv_0_lt_compat; lra).
  split; [field; lra |].
  split.
  - replace (4 - 4 * s / (1 + s)) with (4 * / (1 + s)) by (field; lra). lra.
  - replace (4 - (1 + delta) * (4 * s / (1 + s)))
      with (4 * (1 - delta * s) * / (1 + s)) by (field; lra).
    split; intros H.
    + destruct (Rlt_dec 1 (delta * s)) as [Hyes | Hno]; [exact Hyes |].
      exfalso.
      assert (H0 : 0 <= 4 * (1 - delta * s) * / (1 + s)).
      { apply Rmult_le_pos; lra. }
      lra.
    + assert (H0 : 0 < 4 * (delta * s - 1) * / (1 + s)).
      { apply Rmult_lt_0_compat; lra. }
      lra.
Qed.

(** ** Hand-eye calibration: the entry points *)

(** *** The overload on poses *)

Lemma at_map {A B : Type} (f : A -> B) (v : list A) (i : Z) :
  at_ (map f v) i = (x <- at_ v i ;; Return (f x)).
Proof.
  unfold at_. destruct (i <? 0)%Z; [reflexivity |].
  rewrite nth_error_map. destruct (nth_error v (Z.to_nat i)); reflexivity.
Qed.

Lemma for_loop_ext {S : Type} (cond : Z -> bool) (step : Z -> Z)
    (body body' : Z -> S -> outcome S) :
  (forall i s, body i s = body' i s) ->
  forall (fuel : nat) (i : Z) (s : S),
    for_loop fuel cond step body i s = for_loop fuel cond step body' i s.
Proof.
  intros Hbody. induction fuel as [| fuel IH]; intros i s; [reflexivity |].
  cbn [for_loop]. destruct (cond i); [| reflexivity].
  rewrite Hbody. destruct (body' i s); cbn [bind]; try reflexivity. apply IH.
Qed.

Lemma fill_pair_map `{LA : LinearAlgebra} {E : Type} (conv : E -> Matrix44)
    (hand eye : list E) (i k : Z) (tc : TransformCont) :
  fill_pair conv hand eye i k tc
  = fill_pair (fun h => h) (map conv hand) (map conv eye) i k tc.
Proof.
  unfold fill_pair. rewrite !at_map.
  destruct (at_ hand i); cbn [bind]; try reflexivity.
  destruct (at_ hand k); cbn [bind]; try reflexivity.
  destruct (at_ eye i); cbn [bind]; try reflexivity.
  destruct (at_ eye k); cbn [bind]; reflexivity.
Qed.

Lemma fill_loops_map `{LA : LinearAlgebra} {E : Type} (conv : E -> Matrix44)
    (fuel : nat) (tc : TransformCont) (hand eye : list E) (bUseAllPairs : bool) :
  fill_loops conv fuel tc hand eye bUseAllPairs
  = fill_loops (fun h => h) fuel tc (map conv hand) (map conv eye) bUseAllPairs.
Proof.
  unfold fill_loops, size. rewrite !length_map.
  apply for_loop_ext. intros i s.
  apply for_loop_ext. intros k s'. apply fill_pair_map.
Qed.

(** X5. The overload on poses is the template applied to the poses
    converted to 4x4 matrices, for every input and every outcome: the same
    pose, the same exception, the same undefined behaviour; and the two
    builders of motion pairs are related in the same way. *)
Theorem pose_overload_converts `{LA : LinearAlgebra} (fuel : nat)
    (tc : TransformCont) (hand eye : list Pose) (bUseAllPairs : bool) :
  performHandEyeCalibration fuel hand eye bUseAllPairs
  = performHandEyeCalibrationImp fuel (map Matrix44_of_Pose hand)
                                 (map Matrix44_of_Pose eye) bUseAllPairs /\
  fillTransformationVectors_Pose fuel tc hand eye bUseAllPairs
  = fillTransformationVectors fuel tc (map Matrix44_of_Pose hand)
                              (map Matrix44_of_Pose eye) bUseAllPairs.
Proof.
  split.
  - unfold performHandEyeCalibration, performHandEyeCalibrationImp,
      fillTransformationVectors_Pose, fillTransformationVectors, size.
    rewrite !length_map.
    destruct (negb (Z.of_nat (length eye) =? Z.of_nat (length hand))%Z);
      [reflexivity |].
    destruct (Z.of_nat (length eye) <=? 2)%Z; [reflexivity |].
    destruct (setNumber TransformCont_new (to_int (Z.of_nat (length eye)))
                        bUseAllPairs) as [tc0 | | |]; cbn [bind]; try reflexivity.
    rewrite (fill_loops_map Matrix44_of_Pose). reflexivity.
  - unfold fillTransformationVectors_Pose, fillTransformationVectors.
    apply fill_loops_map.
Qed.

(** *** The edges of [fillTransformationVectors] *)

Lemma empty_all_pairs_spins `{LA : LinearAlgebra} {E : Type}
    (conv : E -> Matrix44) (eye : list E) (inner : nat) :
  forall (fuel : nat) (i : Z) (tc : TransformCont),
    (0 <= i < 4294967296)%Z ->
    for_loop fuel
      (fun i => (i <? to_size_t (size (@nil E) - 1))%Z)
      (fun i => to_unsigned (i + 1))
      (fun i tc =>
         let to := to_unsigned (if true then size (@nil E)
                                else to_unsigned (i + 2)) in
         for_loop inner
           (fun k => (k <? to)%Z)
           (fun k => to_unsigned (k + 1))
           (fun k tc => fill_pair conv [] eye i k tc)
           (to_unsigned (i + 1)) tc)
      i tc
    = OutOfFuel.
Proof.
  induction fuel as [| fuel IH]; intros i tc Hi; [reflexivity |].
  cbn [for_loop].
  change (to_size_t (size (@nil E) - 1)) with 18446744073709551615%Z.
  destruct (Z.ltb_spec i 18446744073709551615) as [_ | Hge]; [| lia].
  cbv zeta. change (to_unsigned (size (@nil E))) with 0%Z.
  assert (Hk : (0 <= to_unsigned (i + 1) < 4294967296)%Z).
  { unfold to_unsigned. apply Z.mod_pos_bound. lia. }
  destruct inner as [| inner]; [reflexivity |].
  cbn [for_loop].
  destruct (Z.ltb_spec (to_unsigned (i + 1)) 0) as [Hlt | _]; [lia |].
  cbn [bind]. apply IH. exact Hk.
Qed.

(** X6. [fillTransformationVectors] relies on the guards of its callers.
    On an empty hand sequence, whatever the eye sequence: in consecutive
    mode it throws [std::out_of_range]; in all-pairs mode it does not
    return, for the bound [hand.size() - 1] wraps around and the counter
    never reaches it.  On a single hand pose it returns the container as it
    was. *)
Theorem fillTransformationVectors_edges `{LA : LinearAlgebra}
    (fuel : nat) (tc : TransformCont) (h : Matrix44) (eye : list Matrix44)
    (bUseAllPairs : bool) :
  fillTransformationVectors (S fuel) tc [] eye false = Throw out_of_range /\
  fillTransformationVectors fuel tc [] eye true = OutOfFuel /\
  fillTransformationVectors (S fuel) tc [h] eye bUseAllPairs = Return tc.
Proof.
  split; [| split].
  - unfold fillTransformationVectors, fill_loops. cbn [for_loop].
    change (to_size_t (size (@nil Matrix44) - 1)) with 18446744073709551615%Z.
    cbn [Z.ltb Z.compare]. cbv zeta.
    change (to_unsigned (to_unsigned (0 + 2))) with 2%Z.
    change (to_unsigned (0 + 1)) with 1%Z.
    cbn [Z.ltb Z.compare Pos.compare Pos.compare_cont].
    reflexivity.
  - unfold fillTransformationVectors, fill_loops.
    apply (empty_all_pairs_spins (fun h => h) eye fuel fuel 0 tc). lia.
  - unfold fillTransformationVectors, fill_loops. cbn [for_loop].
    change (to_size_t (size [h] - 1)) with 0%Z.
    cbn [Z.ltb Z.compare]. reflexivity.
Qed.

Lemma at_past_the_end {A : Type} (v : list A) (i : nat) :
  (length v <= i)%nat -> at_ v (Z.of_nat i) = Throw out_of_range.
Proof.
  intros Hi. unfold at_.
  destruct (Z.ltb_spec (Z.of_nat i) 0) as [_ | _]; [reflexivity |].
  rewrite Nat2Z.id.
  destruct (nth_error v i) eqn:E; [| reflexivity].
  assert (Hsome : nth_error v i <> None) by (rewrite E; discriminate).
  apply nth_error_Some in Hsome. lia.
Qed.

Lemma at_inside {A : Type} (v : list A) (i : nat) :
  (i < length v)%nat -> exists a, at_ v (Z.of_nat i) = Return a.
Proof.
  intros Hi. unfold at_.
  destruct (Z.ltb_spec (Z.of_nat i) 0) as [Hlt | _]; [lia |].
  rewrite Nat2Z.id.
  destruct (nth_error v i) eqn:E; [eexists; reflexivity |].
  apply nth_error_None in E. lia.
Qed.

(** A loop whose first [n] iterations return and whose next one throws. *)
Lemma for_loop_reaches_throw {S : Type} (cond : Z -> bool) (step : Z -> Z)
    (body : Z -> S -> outcome S) (w : string) (n : nat) :
  forall (fuel : nat) (a : Z) (s : S),
    (n < fuel)%nat ->
    (forall j, (j < n)%nat ->
       cond (a + Z.of_nat j)%Z = true /\
       step (a + Z.of_nat j)%Z = (a + Z.of_nat j + 1)%Z /\
       forall s, exists s', body (a + Z.of_nat j)%Z s = Return s') ->
    cond (a + Z.of_nat n)%Z = true ->
    (forall s, body (a + Z.of_nat n)%Z s = Throw w) ->
    for_loop fuel cond step body a s = Throw w.
Proof.
  induction n as [| n IH]; intros fuel a s Hfuel Hbefore Hcond Hthrow.
  - destruct fuel as [| fuel]; [lia |]. cbn [for_loop].
    rewrite Z.add_0_r in Hcond, Hthrow. rewrite Hcond, Hthrow. reflexivity.
  - destruct fuel as [| fuel]; [lia |]. cbn [for_loop].
    destruct (Hbefore 0%nat) as [Hc [Hs Hb]]; [lia |].
    rewrite Z.add_0_r in Hc, Hs, Hb. rewrite Hc.
    destruct (Hb s) as [s' ->]. cbn [bind]. rewrite Hs.
    apply IH.
    + lia.
    + intros j Hj. destruct (Hbefore (Datatypes.S j)) as [Hc' [Hs' Hb']]; [lia |].
      replace (a + 1 + Z.of_nat j)%Z with (a + Z.of_nat (Datatypes.S j))%Z by lia.
      repeat split; assumption.
    + replace (a + 1 + Z.of_nat n)%Z with (a + Z.of_nat (Datatypes.S n))%Z by lia.
      exact Hcond.
    + replace (a + 1 + Z.of_nat n)%Z with (a + Z.of_nat (Datatypes.S n))%Z by lia.
      exact Hthrow.
Qed.

Section ShortEye.

Context `{LA : LinearAlgebra}.

Variables hand eye : list Matrix44.

Hypothesis Hshort : (length eye < length hand)%nat.
Hypothesis Htwo : (2 <= length hand)%nat.
Hypothesis Hsize : (Z.of_nat (length hand) < 4294967296)%Z.

Lemma fill_pair_returns (i k : nat) (tc : TransformCont) :
  (i < length eye)%nat -> (k < length eye)%nat ->
  exists tc', fill_pair (fun h => h) hand eye (Z.of_nat i) (Z.of_nat k) tc
              = Return tc'.
Proof.
  intros Hi Hk. unfold fill_pair.
  destruct (at_inside hand i) as [a1 ->]; [lia |].
  destruct (at_inside hand k) as [a2 ->]; [lia |].
  destruct (at_inside eye i Hi) as [a3 ->].
  destruct (at_inside eye k Hk) as [a4 ->].
  cbn [bind]. eexists. reflexivity.
Qed.

Lemma fill_pair_throws (i k : nat) (tc : TransformCont) :
  (i < length hand)%nat -> (k < length hand)%nat ->
  (length eye <= i)%nat \/ (length eye <= k)%nat ->
  fill_pair (fun h => h) hand eye (Z.of_nat i) (Z.of_nat k) tc
  = Throw out_of_range.
Proof.
  intros Hi Hk Hout. unfold fill_pair.
  destruct (at_inside hand i Hi) as [a1 ->].
  destruct (at_inside hand k Hk) as [a2 ->].
  cbn [bind].
  destruct (Nat.le_gt_cases (length eye) i) as [Hge | Hlt].
  - rewrite (at_past_the_end eye i Hge). reflexivity.
  - destruct (at_inside eye i Hlt) as [a3 ->]. cbn [bind].
    rewrite (at_past_the_end eye k) by lia. reflexivity.
Qed.

(** The first index of the eye sequence that a pair asks for in vain. *)
Abbreviation missing := (Nat.max (length eye) 1).

Lemma consecutive_throws (fuel : nat) (tc : TransformCont) :
  (length hand < fuel)%nat ->
  fill_loops (fun h => h) fuel tc hand eye false = Throw out_of_range.
Proof.
  intros Hfuel. unfold fill_loops.
  assert (Hbound : to_size_t (size hand - 1) = (Z.of_nat (length hand) - 1)%Z).
  { unfold size. apply to_size_t_small. lia. }
  rewrite Hbound.
  apply (for_loop_reaches_throw _ _ _ out_of_range (missing - 1)).
  - lia.
  - intros j Hj. rewrite !Z.add_0_l.
    split; [apply Z.ltb_lt; lia |].
    split; [apply to_unsigned_small; lia |].
    intros s.
    rewrite !to_unsigned_small by (try rewrite to_unsigned_small; lia).
    destruct fuel as [| [| fuel]]; [lia | lia |].
    cbn [for_loop].
    destruct (Z.ltb_spec (Z.of_nat j + 1) (Z.of_nat j + 2)) as [_ | Hge]; [| lia].
    replace (Z.of_nat j + 1)%Z with (Z.of_nat (Datatypes.S j)) by lia.
    destruct (fill_pair_returns j (Datatypes.S j) s) as [s' ->]; [lia | lia |].
    cbn [bind].
    rewrite to_unsigned_small by lia.
    destruct (Z.ltb_spec (Z.of_nat (Datatypes.S j) + 1) (Z.of_nat j + 2))
      as [Hlt | _]; [lia |].
    eexists. reflexivity.
  - rewrite Z.add_0_l. apply Z.ltb_lt. lia.
  - intros s. rewrite Z.add_0_l.
    rewrite !to_unsigned_small by (try rewrite to_unsigned_small; lia).
    destruct fuel as [| fuel]; [lia |].
    cbn [for_loop].
    destruct (Z.ltb_spec (Z.of_nat (missing - 1) + 1) (Z.of_nat (missing - 1) + 2))
      as [_ | Hge]; [| lia].
    replace (Z.of_nat (missing - 1) + 1)%Z with (Z.of_nat missing) by lia.
    rewrite fill_pair_throws by lia. reflexivity.
Qed.

Lemma all_pairs_throws_loops (outer inner : nat) (tc : TransformCont) :
  (0 < outer)%nat -> (length hand < inner)%nat ->
  for_loop outer
    (fun i => (i <? Z.of_nat (length hand) - 1)%Z)
    (fun i => to_unsigned (i + 1))
    (fun i tc =>
       let to := to_unsigned (if true then size hand else to_unsigned (i + 2)) in
       for_loop inner
         (fun k => (k <? to)%Z)
         (fun k => to_unsigned (k + 1))
         (fun k tc => fill_pair (fun h => h) hand eye i k tc)
         (to_unsigned (i + 1)) tc)
    0%Z tc
  = Throw out_of_range.
Proof.
  intros Houter Hinner.
  destruct outer as [| outer]; [lia |].
  cbn [for_loop].
  destruct (Z.ltb_spec 0 (Z.of_nat (length hand) - 1)) as [_ | Hge]; [| lia].
  cbv zeta.
  change (to_unsigned (0 + 1)) with 1%Z.
  unfold size. rewrite (to_unsigned_small (Z.of_nat (length hand))) by lia.
  rewrite (for_loop_reaches_throw _ _ _ out_of_range (missing - 1) inner 1 tc).
  - reflexivity.
  - lia.
  - intros j Hj.
    split; [apply Z.ltb_lt; lia |].
    split; [apply to_unsigned_small; lia |].
    intros s.
    replace (1 + Z.of_nat j)%Z with (Z.of_nat (Datatypes.S j)) by lia.
    apply (fill_pair_returns 0 (Datatypes.S j) s); lia.
  - apply Z.ltb_lt. lia.
  - intros s.
    replace (1 + Z.of_nat (missing - 1))%Z with (Z.of_nat missing) by lia.
    apply (fill_pair_throws 0 missing s); lia.
Qed.

Lemma all_pairs_throws (fuel : nat) (tc : TransformCont) :
  (length hand < fuel)%nat ->
  fill_loops (fun h => h) fuel tc hand eye true = Throw out_of_range.
Proof.
  intros Hfuel. unfold fill_loops.
  assert (Hbound : to_size_t (size hand - 1) = (Z.of_nat (length hand) - 1)%Z).
  { unfold size. apply to_size_t_small. lia. }
  rewrite Hbound.
  apply all_pairs_throws_loops; lia.
Qed.

End ShortEye.

(** X7. [fillTransformationVectors] does not compare the lengths of its
    two sequences, and it reads both with [at]: given at least two hand
    poses and fewer eye poses it throws [std::out_of_range], in either mode;
    it never reads past the end of the shorter sequence. *)
Theorem short_eye_throws `{LA : LinearAlgebra} (fuel : nat) (tc : TransformCont)
    (hand eye : list Matrix44) (bUseAllPairs : bool) :
  (length eye < length hand)%nat ->
  (2 <= length hand)%nat ->
  (Z.of_nat (length hand) < 4294967296)%Z ->
  (length hand < fuel)%nat ->
  fillTransformationVectors fuel tc hand eye bUseAllPairs = Throw out_of_range.
Proof.
  intros Hshort Htwo Hsize Hfuel. unfold fillTransformationVectors.
  destruct bUseAllPairs.
  - apply all_pairs_throws; assumption.
  - apply consecutive_throws; assumption.
Qed.

Lemma short_eye_throws_witness :
  fillTransformationVectors (LA := Reference.linear_algebra) 5
    TransformCont_new four_poses identity_poses true
  = Throw out_of_range.
Proof.
  apply (short_eye_throws (LA := Reference.linear_algebra) 5 TransformCont_new
           four_poses identity_poses true); simpl; lia.
Defined.

(** X8. In all-pairs mode the number of poses is squared in [int] before
    anything else is done: from 46341 poses on, the square leaves the
    range and the behaviour of both entry points is undefined. *)
Theorem all_pairs_overflows `{LA : LinearAlgebra} (fuel : nat)
    (hand eye : list Matrix44) (handPoses eyePoses : list Pose) :
  length eye = length hand ->
  (46341 <= Z.of_nat (length hand) <= INT_MAX)%Z ->
  length eyePoses = length handPoses ->
  (46341 <= Z.of_nat (length handPoses) <= INT_MAX)%Z ->
  performHandEyeCalibrationImp fuel hand eye true = Undefined /\
  performHandEyeCalibration fuel handPoses eyePoses true = Undefined.
Proof.
  intros He HN He' HN'.
  assert (Hsquare : forall n : nat,
            (46341 <= Z.of_nat n <= INT_MAX)%Z ->
            setNumber TransformCont_new (to_int (Z.of_nat n)) true = Undefined).
  { intros n Hn. unfold setNumber.
    rewrite to_int_small by (unfold INT_MIN, INT_MAX in *; lia).
    unfold int_result.
    destruct (Z.leb_spec (Z.of_nat n * Z.of_nat n) INT_MAX) as [Hle | _].
    - unfold INT_MAX in *. nia.
    - rewrite andb_false_r. reflexivity. }
  split.
  - unfold performHandEyeCalibrationImp, size. rewrite He.
    rewrite Z.eqb_refl. cbn [negb].
    destruct (Z.leb_spec (Z.of_nat (length hand)) 2) as [Hle | _]; [lia |].
    rewrite (Hsquare _ HN). reflexivity.
  - unfold performHandEyeCalibration, size. rewrite He'.
    rewrite Z.eqb_refl. cbn [negb].
    destruct (Z.leb_spec (Z.of_nat (length handPoses)) 2) as [Hle | _]; [lia |].
    rewrite (Hsquare _ HN'). reflexivity.
Qed.

Lemma all_pairs_overflows_witness :
  performHandEyeCalibrationImp (LA := Reference.linear_algebra)
    0 many_poses many_poses true = Undefined /\
  performHandEyeCalibration (LA := Reference.linear_algebra)
    0 many_sentinels many_sentinels true = Undefined.
Proof.
  apply (all_pairs_overflows (LA := Reference.linear_algebra) 0
           many_poses many_poses many_sentinels many_sentinels);
    first [ reflexivity
          | unfold many_poses, many_sentinels, INT_MAX;
            rewrite repeat_length; lia ].
Defined.

(** ** Hand-eye calibration: exact data *)

Lemma solves_app (A1 A2 b1 b2 : matrix) (x : Vector3) :
  solves (A1, b1) x -> solves (A2, b2) x -> solves (A1 ++ A2, b1 ++ b2) x.
Proof.
  unfold solves. cbn [fst snd]. intros H1 H2. apply Forall2_app; assumption.
Qed.

Lemma solves_block (left : Matrix33) (right x : Vector3) :
  prod33v left x = right -> solves (rows_of left, column_of right) x.
Proof.
  intros E. destruct left, right, x. unfold prod33v in E. cbn in E.
  injection E as E0 E1 E2.
  unfold solves, rows_of, column_of, arr. cbn.
  repeat constructor; assumption.
Qed.

Lemma solves_stacked (left : Matrix44 * Matrix44 -> Matrix33)
    (right : Matrix44 * Matrix44 -> Vector3) (x : Vector3)
    (pairs : list (Matrix44 * Matrix44)) :
  Forall (fun p => prod33v (left p) x = right p) pairs ->
  solves (stacked left right pairs) x.
Proof.
  induction 1 as [| p pairs Hp _ IH].
  - constructor.
  - unfold stacked. cbn [flat_map].
    apply solves_app; [apply solves_block; exact Hp | exact IH].
Qed.

Lemma stacked_solved (left : Matrix44 * Matrix44 -> Matrix33)
    (right : Matrix44 * Matrix44 -> Vector3) (x : Vector3)
    (pairs : list (Matrix44 * Matrix44)) :
  solves (stacked left right pairs) x ->
  Forall (fun p => prod33v (left p) x = right p) pairs.
Proof.
  unfold solves, stacked. cbn [fst snd].
  induction pairs as [| p pairs IH]; intros H; [constructor |].
  cbn [flat_map] in H. unfold rows_of, column_of in H. cbn [app] in H.
  apply Forall2_cons_iff in H. destruct H as [E0 H].
  apply Forall2_cons_iff in H. destruct H as [E1 H].
  apply Forall2_cons_iff in H. destruct H as [E2 H].
  constructor; [| apply IH; exact H].
  unfold arr in E0, E1, E2. cbn [nth] in E0, E1, E2.
  unfold prod33v. destruct (right p) as [r0 r1 r2]. cbn [c0 c1 c2] in *.
  apply mkVector3_eq; assumption.
Qed.

(** X9. The translation stage is exact on exact data.  When every hand
    motion [A] and eye motion [B] of the container belong to one rigid
    transform [X = [rcg tcg; 0 1]], that is [A X = X B], the translation
    [tcg] satisfies every equation of the system [computeTcg] hands to the
    solver for the rotation [rcg]. *)
Theorem translation_system_is_exact `{LA : LinearAlgebra} (rcg : Matrix33)
    (tcg : Vector3) (pairs : list (Matrix44 * Matrix44)) :
  Forall (exact_pair (rigid rcg tcg)) pairs ->
  (3 * Z.of_nat (length pairs) <= INT_MAX)%Z ->
  exists system,
    computeTcg_system (container pairs) rcg = Return system /\
    solves system tcg.
Proof.
  intros Hexact Hsize.
  rewrite (HandEyeProofs.computeTcg_system_spec rcg pairs Hsize).
  eexists. split; [reflexivity |].
  unfold translation_system. apply solves_stacked.
  apply Forall_forall. intros [hg hc] Hin.
  rewrite Forall_forall in Hexact. destruct (Hexact _ Hin) as [Haff Heq].
  cbn [fst snd] in *. destruct Haff as [_ [_ [_ H33]]].
  pose proof (f_equal h03 Heq) as E0.
  pose proof (f_equal h13 Heq) as E1.
  pose proof (f_equal h23 Heq) as E2.
  destruct hg, hc, rcg, tcg.
  unfold prod44, rigid in E0, E1, E2. cbn in E0, E1, E2, H33. subst.
  unfold prod33v, msub, vsub, rotation_block, translation_column, identity_matrix3.
  cbn. apply mkVector3_eq; lra.
Qed.

Lemma translation_system_is_exact_witness :
  exists system,
    computeTcg_system (LA := Reference.linear_algebra)
      (container shifted_pairs) identity_matrix3 = Return system /\
    solves system (mkVector3 1 0 0).
Proof.
  apply (translation_system_is_exact (LA := Reference.linear_algebra)
           identity_matrix3 (mkVector3 1 0 0) shifted_pairs).
  - unfold shifted_pairs, exact_pair, is_affine, rigid, prod44,
      quarter_turn, shifted_quarter_turn, identity_matrix4, identity_matrix3.
    repeat constructor; simpl; try lra;
      apply HandEyeProofs.mkMatrix44_eq; lra.
  - unfold INT_MAX; simpl; lia.
Defined.

(** *** The rotation stage *)

(** The matrix of a product of quaternions is the product of the
    matrices. *)
Lemma versor_matrix_product (aw ax ay az bw bx by' bz : R) :
  prod33 (versor_matrix aw ax ay az) (versor_matrix bw bx by' bz)
  = versor_matrix (aw * bw - ax * bx - ay * by' - az * bz)
                  (aw * bx + ax * bw + ay * bz - az * by')
                  (aw * by' - ax * bz + ay * bw + az * bx)
                  (aw * bz + ax * by' - ay * bx + az * bw).
Proof.
  unfold prod33, versor_matrix. cbn. apply mkMatrix33_congruence; ring.
Qed.

(** Two quaternions of norm one with the same matrix are equal or
    opposite. *)
Lemma versor_matrix_injective (pw px py pz qw qx qy qz : R) :
  pw * pw + px * px + py * py + pz * pz = 1 ->
  qw * qw + qx * qx + qy * qy + qz * qz = 1 ->
  versor_matrix pw px py pz = versor_matrix qw qx qy qz ->
  (qw = pw /\ qx = px /\ qy = py /\ qz = pz) \/
  (qw = - pw /\ qx = - px /\ qy = - py /\ qz = - pz).
Proof.
  intros Hp Hq E. unfold versor_matrix in E.
  injection E as E00 E01 E02 E10 E11 E12 E20 E21 E22.
  assert (Eww : pw * pw = qw * qw) by lra.
  assert (Exx : px * px = qx * qx) by lra.
  assert (Eyy : py * py = qy * qy) by lra.
  assert (Ezz : pz * pz = qz * qz) by lra.
  assert (Ewx : pw * px = qw * qx) by lra.
  assert (Ewy : pw * py = qw * qy) by lra.
  assert (Ewz : pw * pz = qw * qz) by lra.
  assert (Exy : px * py = qx * qy) by lra.
  assert (Exz : px * pz = qx * qz) by lra.
  assert (Eyz : py * pz = qy * qz) by lra.
  set (s := pw * qw + px * qx + py * qy + pz * qz).
  assert (Hw : s * pw = qw).
  { replace (s * pw)
      with (qw * (pw * pw) + qx * (pw * px) + qy * (pw * py) + qz * (pw * pz))
      by (subst s; ring).
    rewrite Eww, Ewx, Ewy, Ewz.
    transitivity (qw * (qw * qw + qx * qx + qy * qy + qz * qz));
      [ring | rewrite Hq; ring]. }
  assert (Hx : s * px = qx).
  { replace (s * px)
      with (qw * (pw * px) + qx * (px * px) + qy * (px * py) + qz * (px * pz))
      by (subst s; ring).
    rewrite Exx, Ewx, Exy, Exz.
    transitivity (qx * (qw * qw + qx * qx + qy * qy + qz * qz));
      [ring | rewrite Hq; ring]. }
  assert (Hy : s * py = qy).
  { replace (s * py)
      with (qw * (pw * py) + qx * (px * py) + qy * (py * py) + qz * (py * pz))
      by (subst s; ring).
    rewrite Eyy, Ewy, Exy, Eyz.
    transitivity (qy * (qw * qw + qx * qx + qy * qy + qz * qz));
      [ring | rewrite Hq; ring]. }
  assert (Hz : s * pz = qz).
  { replace (s * pz)
      with (qw * (pw * pz) + qx * (px * pz) + qy * (py * pz) + qz * (pz * pz))
      by (subst s; ring).
    rewrite Ezz, Ewz, Exz, Eyz.
    transitivity (qz * (qw * qw + qx * qx + qy * qy + qz * qz));
      [ring | rewrite Hq; ring]. }
  assert (Hs : (s - 1) * (s + 1) = 0).
  { replace ((s - 1) * (s + 1))
      with (s * pw * qw + s * px * qx + s * py * qy + s * pz * qz - 1)
      by (unfold s; ring).
    rewrite Hw, Hx, Hy, Hz. lra. }
  apply Rmult_integral in Hs. destruct Hs as [Hs | Hs].
  - left. assert (E1 : s = 1) by lra. rewrite E1 in Hw, Hx, Hy, Hz.
    repeat split; lra.
  - right. assert (E1 : s = -1) by lra. rewrite E1 in Hw, Hx, Hy, Hz.
    repeat split; lra.
Qed.

(** The equation of Tsai and Lenz: for rotations [Ra Rx = Rx Rb], with
    quaternion vectors [u_a], [u_b] and [u_x] and the scalar part [w] of
    [Rx], the cross product of [u_a + u_b] and [u_x] is [w (u_b - u_a)]. *)
Lemma rotation_equation (aw ax ay az bw bx by' bz w x y z : R) :
  is_versor aw ax ay az -> is_versor bw bx by' bz -> is_versor w x y z ->
  prod33 (versor_matrix aw ax ay az) (versor_matrix w x y z)
  = prod33 (versor_matrix w x y z) (versor_matrix bw bx by' bz) ->
  (ay + by') * z - (az + bz) * y = w * (bx - ax) /\
  (az + bz) * x - (ax + bx) * z = w * (by' - ay) /\
  (ax + bx) * y - (ay + by') * x = w * (bz - az).
Proof.
  intros [Ha0 Ha] [Hb0 Hb] [Hw0 Hw] E.
  rewrite !versor_matrix_product in E.
  apply versor_matrix_injective in E.
  - assert (Hdot : forall s : R,
              (w * bw - x * bx - y * by' - z * bz
               = s * (aw * w - ax * x - ay * y - az * z)) ->
              (w * bx + x * bw + y * bz - z * by'
               = s * (aw * x + ax * w + ay * z - az * y)) ->
              (w * by' - x * bz + y * bw + z * bx
               = s * (aw * y - ax * z + ay * w + az * x)) ->
              (w * bz + x * by' - y * bx + z * bw
               = s * (aw * z + ax * y - ay * x + az * w)) ->
              bw = s * aw).
    { intros s Ew Ex Ey Ez.
      replace bw with (bw * (w * w + x * x + y * y + z * z)) by (rewrite Hw; ring).
      replace (bw * (w * w + x * x + y * y + z * z))
        with ((w * bw - x * bx - y * by' - z * bz) * w
              + (w * bx + x * bw + y * bz - z * by') * x
              + (w * by' - x * bz + y * bw + z * bx) * y
              + (w * bz + x * by' - y * bx + z * bw) * z) by ring.
      rewrite Ew, Ex, Ey, Ez.
      replace (s * aw) with (s * aw * (w * w + x * x + y * y + z * z))
        by (rewrite Hw; ring).
      ring. }
    destruct E as [[Ew [Ex [Ey Ez]]] | [Ew [Ex [Ey Ez]]]].
    + assert (Hsame : bw = 1 * aw) by (apply Hdot; lra).
      assert (Hbw : bw = aw) by lra. rewrite Hbw in *.
      repeat split; lra.
    + assert (Hopp : bw = -1 * aw) by (apply Hdot; lra).
      exfalso. lra.
  - replace (_ + _ + _ + _)
      with ((aw * aw + ax * ax + ay * ay + az * az)
            * (w * w + x * x + y * y + z * z)) by ring.
    rewrite Ha, Hw. ring.
  - replace (_ + _ + _ + _)
      with ((w * w + x * x + y * y + z * z)
            * (bw * bw + bx * bx + by' * by' + bz * bz)) by ring.
    rewrite Hb, Hw. ring.
Qed.

(** [getRcg] turns the vector [u / w] of a rotation by less than half a
    turn back into the matrix of the rotation. *)
Lemma getRcg_versor (w x y z : R) :
  is_versor w x y z ->
  getRcg (mkVector3 (x / w) (y / w) (z / w)) = versor_matrix w x y z.
Proof.
  intros [Hw0 Hn].
  rewrite HandEyeProofs.getRcg_rescaled.
  assert (Hroot : sqrt (1 + (x / w * (x / w) + y / w * (y / w) + z / w * (z / w)))
                  = 1 / w).
  { replace (1 + (x / w * (x / w) + y / w * (y / w) + z / w * (z / w)))
      with ((1 / w) * (1 / w)).
    - apply sqrt_square. apply Rlt_le. apply Rdiv_lt_0_compat; lra.
    - replace (1 / w * (1 / w))
        with ((w * w + x * x + y * y + z * z) / (w * w)) by (rewrite Hn; field; lra).
      field. lra. }
  assert (Hres : rescaled (mkVector3 (x / w) (y / w) (z / w))
                 = mkVector3 (2 * x) (2 * y) (2 * z)).
  { unfold rescaled. cbn [c0 c1 c2]. rewrite Hroot.
    apply mkVector3_eq; field; lra. }
  rewrite Hres.
  assert (Hsq : squared_norm3 (mkVector3 (2 * x) (2 * y) (2 * z)) = 4 - 4 * (w * w)).
  { unfold squared_norm3. cbn [c0 c1 c2]. lra. }
  assert (Hle : squared_norm3 (mkVector3 (2 * x) (2 * y) (2 * z)) <= 4).
  { rewrite Hsq. pose proof (Rle_0_sqr w) as H0. unfold Rsqr in H0. lra. }
  destruct (getMatrix_versor _ Hle) as [_ ->].
  rewrite Hsq. cbn [c0 c1 c2].
  replace (4 - (4 - 4 * (w * w))) with ((2 * w) * (2 * w)) by ring.
  rewrite sqrt_square by lra.
  unfold versor_matrix. apply mkMatrix33_congruence; field.
Qed.

(** X10. The rotation stage is exact on exact data.  When the rotations
    [Ra] of the hand motions and [Rb] of the eye motions, each by less than
    half a turn, belong to one rotation [Rx] by less than half a turn, that
    is [Ra Rx = Rx Rb], then the vector [u / w] of the quaternion of [Rx]
    satisfies every equation of the system [computePcg] hands to the solver,
    and [getRcg] turns that vector into [Rx]. *)
Theorem rotation_system_is_exact `{LA : LinearAlgebra} (w x y z : R)
    (pairs : list (Matrix44 * Matrix44)) :
  is_versor w x y z ->
  Forall (exact_rotation_pair (versor_matrix w x y z)) pairs ->
  (3 * Z.of_nat (length pairs) <= INT_MAX)%Z ->
  exists system,
    computePcg_system (container pairs) = Return system /\
    solves system (mkVector3 (x / w) (y / w) (z / w)) /\
    getRcg (mkVector3 (x / w) (y / w) (z / w)) = versor_matrix w x y z.
Proof.
  intros Hx Hexact Hsize.
  rewrite (HandEyeProofs.computePcg_system_spec pairs Hsize).
  eexists. split; [reflexivity |]. split; [| apply getRcg_versor; exact Hx].
  unfold rotation_system. apply solves_stacked.
  apply Forall_forall. intros p Hin.
  rewrite Forall_forall in Hexact.
  destruct (Hexact _ Hin)
    as [[aw [ax [ay [az [Ha Ea]]]]] [[bw [bx [by' [bz [Hb Eb]]]]] Eprod]].
  unfold hand_vector, eye_vector. rewrite Ea, Eb in *.
  destruct (rotation_equation _ _ _ _ _ _ _ _ _ _ _ _ Ha Hb Hx Eprod)
    as [E0 [E1 E2]].
  destruct Ha as [Ha0 Ha]. destruct Hb as [Hb0 Hb]. destruct Hx as [Hw0 Hw].
  rewrite !getQuaternion_versor by assumption.
  unfold prod33v, cross_product_matrix, vadd, vsub.
  cbn [c0 c1 c2 m00 m01 m02 m10 m11 m12 m20 m21 m22].
  apply mkVector3_eq.
  - replace (bx - ax) with (w * (bx - ax) / w) by (field; lra).
    rewrite <- E0. field. lra.
  - replace (by' - ay) with (w * (by' - ay) / w) by (field; lra).
    rewrite <- E1. field. lra.
  - replace (bz - az) with (w * (bz - az) / w) by (field; lra).
    rewrite <- E2. field. lra.
Qed.

Lemma rotation_system_is_exact_witness :
  exists system,
    computePcg_system (LA := Reference.linear_algebra) (container turns)
    = Return system /\
    solves system (mkVector3 (0 / (3 / 5)) (0 / (3 / 5)) (4 / 5 / (3 / 5))) /\
    getRcg (mkVector3 (0 / (3 / 5)) (0 / (3 / 5)) (4 / 5 / (3 / 5)))
    = versor_matrix (3 / 5) 0 0 (4 / 5).
Proof.
  apply (rotation_system_is_exact (LA := Reference.linear_algebra)
           (3 / 5) 0 0 (4 / 5) turns).
  - unfold is_versor. lra.
  - unfold turns. constructor; [| constructor].
    unfold exact_rotation_pair. cbn [fst snd].
    split; [| split].
    + exists (4 / 5), 0, 0, (3 / 5). split; [unfold is_versor; lra |].
      unfold turn, rotation_block, versor_matrix. cbn.
      apply mkMatrix33_congruence; lra.
    + exists (4 / 5), 0, 0, (3 / 5). split; [unfold is_versor; lra |].
      unfold turn, rotation_block, versor_matrix. cbn.
      apply mkMatrix33_congruence; lra.
    + unfold turn, rotation_block, versor_matrix, prod33. cbn.
      apply mkMatrix33_congruence; lra.
  - unfold INT_MAX; simpl; lia.
Defined.

(** *** Hand and eye exchanged *)

Lemma getMatrix_opposite (source : Vector3) :
  getMatrix (scale3 (-1) source) = transpose33 (getMatrix source).
Proof.
  destruct source as [x y z].
  unfold getMatrix, transpose33, scale3, madd, mscale, outer_prod, skew,
    identity_matrix3.
  cbn [c0 c1 c2 m00 m01 m02 m10 m11 m12 m20 m21 m22].
  replace (-1 * x * (-1 * x) + -1 * y * (-1 * y) + -1 * z * (-1 * z))
    with (x * x + y * y + z * z) by ring.
  apply mkMatrix33_congruence; ring.
Qed.

Lemma arr_negated (row : list R) : arr (map Ropp row) 0 = - arr row 0.
Proof. destruct row as [| r row]; unfold arr; cbn [map nth]; ring. Qed.

Lemma residuals_negated (A b : matrix) (x : Vector3) :
  residuals (A, negated b) (scale3 (-1) x) = map Ropp (residuals (A, b) x).
Proof.
  unfold residuals, negated. cbn [fst snd].
  revert b. induction A as [| row A IH]; intros b; [reflexivity |].
  destruct b as [| rhs b]; [reflexivity |].
  cbn [map combine fst snd]. rewrite IH, arr_negated.
  destruct x as [x0 x1 x2]. unfold scale3. cbn [c0 c1 c2].
  f_equal. ring.
Qed.

Lemma squared_residual_negated (A b : matrix) (x : Vector3) :
  squared_residual (A, negated b) (scale3 (-1) x) = squared_residual (A, b) x.
Proof.
  unfold squared_residual. rewrite residuals_negated.
  induction (residuals (A, b) x) as [| r rs IH]; [reflexivity |].
  cbn [map fold_right]. rewrite IH. ring.
Qed.

Lemma least_squares_negated (A b : matrix) (v : Vector3) :
  (forall u, squared_residual (A, b) v <= squared_residual (A, b) u) ->
  forall u, squared_residual (A, negated b) (scale3 (-1) v)
            <= squared_residual (A, negated b) u.
Proof.
  intros Hmin u. rewrite squared_residual_negated.
  replace u with (scale3 (-1) (scale3 (-1) u)).
  - rewrite squared_residual_negated. apply Hmin.
  - destruct u as [u0 u1 u2]. unfold scale3. cbn [c0 c1 c2].
    apply mkVector3_eq; ring.
Qed.

Lemma exchanged_right_sides (pairs : list (Matrix44 * Matrix44)) :
  snd (rotation_system (map (fun p => (snd p, fst p)) pairs))
  = negated (snd (rotation_system pairs)).
Proof.
  unfold rotation_system, stacked, negated. cbn [snd].
  induction pairs as [| p pairs IH]; [reflexivity |].
  cbn [map flat_map]. rewrite map_app, IH.
  f_equal.
  unfold hand_vector, eye_vector. cbn [fst snd].
  destruct (getQuaternion (rotation_block (fst p))) as [g0 g1 g2].
  destruct (getQuaternion (rotation_block (snd p))) as [e0 e1 e2].
  unfold column_of, vsub. cbn [c0 c1 c2 map].
  replace (g0 - e0) with (- (e0 - g0)) by ring.
  replace (g1 - e1) with (- (e1 - g1)) by ring.
  replace (g2 - e2) with (- (e2 - g2)) by ring.
  reflexivity.
Qed.

Lemma exchanged_left_sides (pairs : list (Matrix44 * Matrix44)) :
  fst (rotation_system (map (fun p => (snd p, fst p)) pairs))
  = fst (rotation_system pairs).
Proof.
  unfold rotation_system, stacked. cbn [fst].
  induction pairs as [| p pairs IH]; [reflexivity |].
  cbn [map flat_map]. rewrite IH. f_equal.
  unfold hand_vector, eye_vector. cbn [fst snd].
  unfold cross_product_matrix, vadd. cbn [c0 c1 c2].
  unfold rows_of. cbn [m00 m01 m02 m10 m11 m12 m20 m21 m22].
  repeat (f_equal; try ring).
Qed.

(** X11. Exchanging the hand motion and the eye motion of every pair
    leaves the left side of the rotation system as it is and negates its
    right side.  So the residuals of the exchanged system at [-v] are the
    negated residuals of the system at [v], with the same sum of squares:
    if [v] minimizes the sum of squares of the one, [-v] minimizes that of
    the other, and an exact solution gives an exact one.  And [getRcg] turns
    [-v] into the transpose, that is the inverse, of the rotation it makes
    of [v]. *)
Theorem exchanged_motions_invert `{LA : LinearAlgebra}
    (pairs : list (Matrix44 * Matrix44)) (v : Vector3) :
  (3 * Z.of_nat (length pairs) <= INT_MAX)%Z ->
  exists system exchanged,
    computePcg_system (container pairs) = Return system /\
    computePcg_system (container (map (fun p => (snd p, fst p)) pairs))
    = Return exchanged /\
    fst exchanged = fst system /\
    snd exchanged = negated (snd system) /\
    residuals exchanged (scale3 (-1) v) = map Ropp (residuals system v) /\
    squared_residual exchanged (scale3 (-1) v) = squared_residual system v /\
    ((forall u, squared_residual system v <= squared_residual system u) ->
     forall u, squared_residual exchanged (scale3 (-1) v)
               <= squared_residual exchanged u) /\
    (solves system v -> solves exchanged (scale3 (-1) v)) /\
    getRcg (scale3 (-1) v) = transpose33 (getRcg v).
Proof.
  intros Hsize.
  rewrite (HandEyeProofs.computePcg_system_spec pairs Hsize).
  rewrite (HandEyeProofs.computePcg_system_spec
             (map (fun p => (snd p, fst p)) pairs))
    by (rewrite length_map; exact Hsize).
  eexists _, _. split; [reflexivity |]. split; [reflexivity |].
  pose proof (exchanged_left_sides pairs) as Hleft.
  pose proof (exchanged_right_sides pairs) as Hright.
  split; [exact Hleft |]. split; [exact Hright |].
  split; [| split; [| split; [| split]]].
  - destruct (rotation_system (map (fun p => (snd p, fst p)) pairs)) as [A' b'].
    destruct (rotation_system pairs) as [A b].
    cbn [fst snd] in Hleft, Hright. rewrite Hleft, Hright.
    apply residuals_negated.
  - destruct (rotation_system (map (fun p => (snd p, fst p)) pairs)) as [A' b'].
    destruct (rotation_system pairs) as [A b].
    cbn [fst snd] in Hleft, Hright. rewrite Hleft, Hright.
    apply squared_residual_negated.
  - destruct (rotation_system (map (fun p => (snd p, fst p)) pairs)) as [A' b'].
    destruct (rotation_system pairs) as [A b].
    cbn [fst snd] in Hleft, Hright. rewrite Hleft, Hright.
    apply least_squares_negated.
  - unfold rotation_system. intros Hsolves.
    apply stacked_solved in Hsolves.
    apply solves_stacked. apply Forall_map.
    eapply Forall_impl; [| exact Hsolves].
    cbv beta. intros p Hp.
    unfold hand_vector, eye_vector in *. cbn [fst snd].
    destruct (getQuaternion (rotation_block (fst p))) as [g0 g1 g2].
    destruct (getQuaternion (rotation_block (snd p))) as [e0 e1 e2].
    destruct v as [v0 v1 v2].
    unfold prod33v, cross_product_matrix, vadd, vsub, scale3 in *.
    cbn [c0 c1 c2 m00 m01 m02 m10 m11 m12 m20 m21 m22] in *.
    injection Hp as E0 E1 E2.
    apply mkVector3_eq; nra.
  - rewrite !HandEyeProofs.getRcg_rescaled.
    replace (rescaled (scale3 (-1) v)) with (scale3 (-1) (rescaled v)).
    + apply getMatrix_opposite.
    + destruct v as [x y z]. unfold rescaled, scale3. cbn [c0 c1 c2].
      replace (-1 * x * (-1 * x) + -1 * y * (-1 * y) + -1 * z * (-1 * z))
        with (x * x + y * y + z * z) by ring.
      pose proof (Rle_0_sqr x) as Hx. pose proof (Rle_0_sqr y) as Hy.
      pose proof (Rle_0_sqr z) as Hz. unfold Rsqr in *.
      assert (Hpos : 0 < sqrt (1 + (x * x + y * y + z * z)))
        by (apply sqrt_lt_R0; lra).
      apply mkVector3_eq; field; lra.
Qed.

Lemma exchanged_motions_invert_witness :
  exists system exchanged,
    computePcg_system (LA := Reference.linear_algebra) (container turn_and_rest)
    = Return system /\
    computePcg_system (LA := Reference.linear_algebra)
      (container (map (fun p => (snd p, fst p)) turn_and_rest))
    = Return exchanged /\
    fst exchanged = fst system /\
    snd exchanged = negated (snd system) /\
    residuals exchanged (scale3 (-1) (mkVector3 0 0 1))
    = map Ropp (residuals system (mkVector3 0 0 1)) /\
    squared_residual exchanged (scale3 (-1) (mkVector3 0 0 1))
    = squared_residual system (mkVector3 0 0 1) /\
    ((forall u, squared_residual system (mkVector3 0 0 1)
                <= squared_residual system u) ->
     forall u, squared_residual exchanged (scale3 (-1) (mkVector3 0 0 1))
               <= squared_residual exchanged u) /\
    (solves system (mkVector3 0 0 1) ->
     solves exchanged (scale3 (-1) (mkVector3 0 0 1))) /\
    getRcg (scale3 (-1) (mkVector3 0 0 1))
    = transpose33 (getRcg (mkVector3 0 0 1)).
Proof.
  apply (exchanged_motions_invert (LA := Reference.linear_algebra)
           turn_and_rest (mkVector3 0 0 1)).
  unfold INT_MAX; simpl; lia.
Defined.

End HandEyeMore.

(* ===================================================================== *)
(** ** Multi-camera pose estimation: further properties *)
(* ===================================================================== *)

Module MultipleCameraMore.

Import MultipleCameraPoseOptimization RigSpec.

Open Scope R_scope.

Section Consistency.

Variable points3d : list Vector3.
Variable points2d : list (list Vector2).
Variable points2dWeights : list (list R).

Abbreviation K := (length points2dWeights).
Abbreviation M := (length points3d).

(** The loop over the cameras stops at the first camera whose rows do not
    have the length of [points3d]. *)
Lemma checkConsistency_loop (cs : list nat) :
  length points2d = K ->
  (forall c, In c cs -> (c < K)%nat) ->
  (Forall (fun c => length (nth c points2dWeights []) = M /\
                    length (nth c points2d []) = M) cs /\
   foldM (checkConsistency_body points3d points2d points2dWeights)
         (map Z.of_nat cs) tt = Return tt) \/
  (Exists (fun c => length (nth c points2dWeights []) <> M \/
                    length (nth c points2d []) <> M) cs /\
   foldM (checkConsistency_body points3d points2d points2dWeights)
         (map Z.of_nat cs) tt = Throw same_number_of_measurements).
Proof.
  intros H2d. induction cs as [| c cs IH]; intros Hin.
  - left. split; [constructor | reflexivity].
  - assert (Hc : (c < K)%nat) by (apply Hin; left; reflexivity).
    assert (Hbody :
      (length (nth c points2dWeights []) = M /\ length (nth c points2d []) = M /\
       checkConsistency_body points3d points2d points2dWeights (Z.of_nat c) tt
       = Return tt) \/
      ((length (nth c points2dWeights []) <> M \/ length (nth c points2d []) <> M) /\
       checkConsistency_body points3d points2d points2dWeights (Z.of_nat c) tt
       = Throw same_number_of_measurements)).
    { unfold checkConsistency_body.
      rewrite (index_in_range points2dWeights c [] Hc). cbn [bind]. unfold size.
      destruct (Z.eqb_spec (Z.of_nat M)
                           (Z.of_nat (length (nth c points2dWeights []))))
        as [E1 | N1]; cbn [negb].
      - rewrite (index_in_range points2d c []) by lia. cbn [bind].
        destruct (Z.eqb_spec (Z.of_nat M) (Z.of_nat (length (nth c points2d []))))
          as [E2 | N2]; cbn [negb].
        + left. repeat split; lia.
        + right. split; [right; lia | reflexivity].
      - right. split; [left; lia | reflexivity]. }
    cbn [map foldM].
    destruct Hbody as [[Hw [Hp ->]] | [Hbad ->]]; cbn [bind].
    + destruct IH as [[Hall Hfold] | [Hex Hfold]].
      * intros c' Hc'. apply Hin. right. exact Hc'.
      * left. split; [| exact Hfold]. constructor; [split; assumption | exact Hall].
      * right. split; [| exact Hfold]. apply Exists_cons_tl. exact Hex.
    + right. split; [| reflexivity]. apply Exists_cons_hd. exact Hbad.
Qed.

End Consistency.

(** X12. [checkConsistency] returns exactly for the inputs that satisfy
    the precondition, and it throws for every other input, in this order:
    fewer than three 3D points; then different numbers of cameras in the
    four camera-indexed inputs; then a camera whose weights or 2D points do
    not have the length of the 3D points.  It never reads outside a vector. *)
Theorem checkConsistency_decides (points3d : list Vector3)
    (points2d : list (list Vector2)) (points2dWeights : list (list R))
    (camPoses : list Pose) (camMatrices : list Matrix33) :
  let K := length points2dWeights in
  let M := length points3d in
  let check := checkConsistency points3d points2d points2dWeights
                                camPoses camMatrices in
  ((M < 3)%nat /\ check = Throw requires_3_points) \/
  ((3 <= M)%nat /\
   ~ (length points2d = K /\ length camPoses = K /\ length camMatrices = K) /\
   check = Throw same_number_of_cameras) \/
  ((3 <= M)%nat /\
   (length points2d = K /\ length camPoses = K /\ length camMatrices = K) /\
   (exists c, (c < K)%nat /\
              (length (nth c points2dWeights []) <> M \/
               length (nth c points2d []) <> M)) /\
   check = Throw same_number_of_measurements) \/
  (precondition points3d points2d points2dWeights camPoses camMatrices /\
   check = Return tt).
Proof.
  intros K M check. subst K M check.
  unfold checkConsistency, size.
  destruct (Z.ltb_spec (Z.of_nat (length points3d)) 3) as [Hlt | Hge].
  { left. split; [lia | reflexivity]. }
  right.
  destruct (Z.eqb_spec (Z.of_nat (length points2d)) (Z.of_nat (length points2dWeights))) as [E1 | N1];
    cbn [negb orb].
  2: { left. split; [lia |]. split; [| reflexivity]. intros [H _]. lia. }
  destruct (Z.eqb_spec (Z.of_nat (length points2d)) (Z.of_nat (length camPoses)))
    as [E2 | N2]; cbn [negb orb].
  2: { left. split; [lia |]. split; [| reflexivity]. intros [H1 [H2 _]]. lia. }
  destruct (Z.eqb_spec (Z.of_nat (length points2d)) (Z.of_nat (length camMatrices)))
    as [E3 | N3]; cbn [negb orb].
  2: { left. split; [lia |]. split; [| reflexivity]. intros [H1 [_ H3]]. lia. }
  right. rewrite int_range_0.
  destruct (checkConsistency_loop points3d points2d points2dWeights
              (seq 0 (length points2dWeights)))
    as [[Hall Hfold] | [Hex Hfold]].
  - lia.
  - intros c Hc. apply in_seq in Hc. lia.
  - right. split; [| exact Hfold].
    unfold precondition. repeat split; try lia.
    + rewrite Forall_forall in Hall. apply Hall. apply in_seq. lia.
    + rewrite Forall_forall in Hall. apply Hall. apply in_seq. lia.
  - left. split; [lia |]. split; [repeat split; lia |]. split; [| exact Hfold].
    apply Exists_exists in Hex. destruct Hex as [c [Hc Hbad]].
    exists c. split; [apply in_seq in Hc; lia | exact Hbad].
Qed.

(** *** Ranges too small for the bootstrap *)






(** *** A first bundle of size zero *)

Lemma whole_range `{PE : PoseEstimation}
    (points3d : list Vector3) (points2d : list (list Vector2))
    (points2dWeights : list (list R)) (camPoses : list Pose)
    (camMatrices : list Matrix33) (fuel : nat) (minCorrespondences : Z)
    (hasInitialPoseProvided : bool) (initialPose : Pose) (startIndex : Z) :
  (Z.of_nat (length points3d) <= INT_MAX)%Z ->
  multipleCameraEstimatePose points3d points2d points2dWeights camPoses
    camMatrices fuel minCorrespondences hasInitialPoseProvided initialPose
    startIndex (-1)
  = multipleCameraEstimatePose points3d points2d points2dWeights camPoses
      camMatrices fuel minCorrespondences hasInitialPoseProvided initialPose
      startIndex (size points3d - 1).
Proof.
  intros HM. unfold multipleCameraEstimatePose.
  rewrite Z.eqb_refl.
  assert (Hint : to_int (size points3d) = size points3d).
  { unfold size. apply to_int_small. unfold INT_MIN, INT_MAX in *. lia. }
  rewrite Hint.
  destruct (Z.eqb_spec (size points3d - 1) (-1)) as [E | N]; reflexivity.
Qed.

(** X14. A first bundle of size zero is not an empty bundle: its range
    is [[0, -1]], and -1 is the end index that stands for the last point.
    The driver on the sizes [0 :: sizes] is the consistency check and one
    estimate over all the 3D points, followed by the driver on [sizes]. *)
Theorem empty_first_bundle_is_everything `{PE : PoseEstimation}
    (points3d : list Vector3) (points2d : list (list Vector2))
    (points2dWeights : list (list R)) (camPoses : list Pose)
    (camMatrices : list Matrix33) (fuel : nat) (minCorrespondences : Z)
    (poses : list ErrorPose) (poseWeights : list R) (sizes : list Z) :
  (Z.of_nat (length points3d) <= INT_MAX)%Z ->
  multipleCameraPoseEstimationWithLocalBundles points3d points2d
    points2dWeights camPoses camMatrices fuel minCorrespondences
    poses poseWeights (0%Z :: sizes)
  = (estimate <-
       (checkConsistency points3d points2d points2dWeights camPoses camMatrices ;;;
        multipleCameraEstimatePose points3d points2d points2dWeights camPoses
          camMatrices fuel minCorrespondences false Pose_default
          0 (size points3d - 1)) ;;
     multipleCameraPoseEstimationWithLocalBundles points3d points2d
       points2dWeights camPoses camMatrices fuel minCorrespondences
       (poses ++ [fst estimate]) (poseWeights ++ [snd estimate]) sizes).
Proof.
  intros HM.
  rewrite !MultipleCameraProofs.bundles_collect.
  unfold bundle_ranges. cbn [bundle_ranges_from map collect fst snd].
  change (0 + 0 - 1)%Z with (-1)%Z. change (0 + 0)%Z with 0%Z.
  rewrite (whole_range points3d points2d points2dWeights camPoses
             camMatrices fuel minCorrespondences false Pose_default 0 HM).
  destruct (checkConsistency points3d points2d points2dWeights camPoses
                             camMatrices) as [[] | w | |] eqn:Echeck;
    cbn [bind]; try reflexivity.
  destruct (multipleCameraEstimatePose points3d points2d points2dWeights
              camPoses camMatrices fuel minCorrespondences false Pose_default
              0 (size points3d - 1)) as [e | w | |]; cbn [bind]; try reflexivity.
  rewrite MultipleCameraProofs.bundles_collect, Echeck. cbn [bind].
  destruct (collect _) as [es | w | |]; cbn [bind]; try reflexivity.
  cbn [map]. rewrite <- !app_assoc. reflexivity.
Qed.

Lemma empty_first_bundle_is_everything_witness :
  multipleCameraPoseEstimationWithLocalBundles
    (PE := RigReference.pose_estimation)
    RigReference.three_points RigReference.one_camera_2d
    RigReference.one_camera_weights RigReference.one_camera_poses
    RigReference.one_camera_matrices 4 2 [] [] [0%Z; 3%Z]
  = (estimate <-
       (checkConsistency RigReference.three_points RigReference.one_camera_2d
          RigReference.one_camera_weights RigReference.one_camera_poses
          RigReference.one_camera_matrices ;;;
        multipleCameraEstimatePose (PE := RigReference.pose_estimation)
          RigReference.three_points RigReference.one_camera_2d
          RigReference.one_camera_weights RigReference.one_camera_poses
          RigReference.one_camera_matrices 4 2 false
          (Pose_default (PoseEstimation := RigReference.pose_estimation))
          0 (size RigReference.three_points - 1)) ;;
     multipleCameraPoseEstimationWithLocalBundles
       (PE := RigReference.pose_estimation)
       RigReference.three_points RigReference.one_camera_2d
       RigReference.one_camera_weights RigReference.one_camera_poses
       RigReference.one_camera_matrices 4 2
       ([] ++ [fst estimate]) ([] ++ [snd estimate]) [3%Z]).
Proof.
  apply (empty_first_bundle_is_everything (PE := RigReference.pose_estimation)
           RigReference.three_points RigReference.one_camera_2d
           RigReference.one_camera_weights RigReference.one_camera_poses
           RigReference.one_camera_matrices 4 2 [] [] [3%Z]).
  unfold INT_MAX; simpl; lia.
Defined.

(** *** What an estimate depends on *)



Section Locality.

Context `{PE : PoseEstimation}.

Variables points3d points3d' : list Vector3.
Variables points2d points2d' : list (list Vector2).
Variables points2dWeights points2dWeights' : list (list R).
Variable camPoses : list Pose.
Variable camMatrices : list Matrix33.
Variables startIndex endIndex : Z.

Hypothesis Hcameras : length points2dWeights = length points2dWeights'.
Hypothesis H3d : forall p, (startIndex <= p <= endIndex)%Z ->
  nth_error points3d (Z.to_nat p) = nth_error points3d' (Z.to_nat p).
Hypothesis H2d : forall c p, (startIndex <= p <= endIndex)%Z ->
  nth_error (nth c points2d []) (Z.to_nat p)
  = nth_error (nth c points2d' []) (Z.to_nat p).
Hypothesis Hweights : forall c p, (startIndex <= p <= endIndex)%Z ->
  nth_error (nth c points2dWeights []) (Z.to_nat p)
  = nth_error (nth c points2dWeights' []) (Z.to_nat p).









End Locality.



End MultipleCameraMore.

(* ===================================================================== *)
(** ** Conics *)
(* ===================================================================== *)

Module ConicProofs.

Import MultipleCameraPoseOptimization Conic Algebra ConicExamples.

Open Scope R_scope.

Lemma mkVector2_eq (a b a' b' : R) :
  a = a' -> b = b' -> mkVector2 a b = mkVector2 a' b'.
Proof. intros -> ->. reflexivity. Qed.

Lemma mkVector6_eq (a b c d e f a' b' c' d' e' f' : R) :
  a = a' -> b = b' -> c = c' -> d = d' -> e = e' -> f = f' ->
  mkVector6 a b c d e f = mkVector6 a' b' c' d' e' f'.
Proof. intros -> -> -> -> -> ->. reflexivity. Qed.

Lemma mkMatrix33_eq (a b c d e f g h i a' b' c' d' e' f' g' h' i' : R) :
  a = a' -> b = b' -> c = c' -> d = d' -> e = e' -> f = f' ->
  g = g' -> h = h' -> i = i' ->
  mkMatrix33 a b c d e f g h i = mkMatrix33 a' b' c' d' e' f' g' h' i'.
Proof. intros -> -> -> -> -> -> -> -> ->. reflexivity. Qed.

(** The side conditions [field] leaves: each follows from a hypothesis on a
    quantity that is the same up to the ring laws. *)
Ltac nonzero :=
  repeat match goal with |- _ /\ _ => split end;
  match goal with
  | H : ?x <> ?y |- _ <> _ =>
      solve [ exact H | let Hz := fresh in intros Hz; apply H; lra
            | let Hz := fresh in intros Hz; apply H; nra ]
  | |- _ <> _ => lra
  end.

Lemma divide_defined (x y : R) : y <> 0 -> divide x y = Some (x / y).
Proof.
  intros Hy. unfold divide. destruct (Req_dec_T y 0) as [E | _]; [contradiction | reflexivity].
Qed.

Lemma divide_by_zero (x : R) : divide x 0 = None.
Proof.
  unfold divide. destruct (Req_dec_T 0 0) as [_ | N]; [reflexivity | contradiction N; reflexivity].
Qed.

Lemma square_root_defined (x : R) : 0 <= x -> square_root x = Some (sqrt x).
Proof.
  intros Hx. unfold square_root. destruct (Rlt_dec x 0) as [N | _]; [lra | reflexivity].
Qed.

Lemma square_root_negative (x : R) : x < 0 -> square_root x = None.
Proof.
  intros Hx. unfold square_root. destruct (Rlt_dec x 0) as [_ | N]; [reflexivity | lra].
Qed.

(** *** The two representations *)

(** X16. Turning a conic into its matrix and back gives the conic again;
    the matrix of a conic is symmetric; and turning a matrix into a conic
    and back gives the matrix again exactly when the matrix is symmetric. *)
Theorem conic_matrix_round_trip (conic : Vector6) (matrix : Matrix33) :
  ConicFromMatrix (MatrixFromConic conic) = conic /\
  transpose33 (MatrixFromConic conic) = MatrixFromConic conic /\
  (MatrixFromConic (ConicFromMatrix matrix) = matrix
   <-> transpose33 matrix = matrix).
Proof.
  destruct conic as [a b c d e f]. destruct matrix as [x00 x01 x02 x10 x11 x12 x20 x21 x22].
  unfold ConicFromMatrix, MatrixFromConic, transpose33. cbn.
  split; [apply mkVector6_eq; lra |].
  split; [reflexivity |].
  split; intros H; injection H; intros; apply mkMatrix33_eq; lra.
Qed.

(** X17. [ConicDeterminant] is the determinant of the matrix
    [MatrixFromConic] builds. *)
Theorem ConicDeterminant_of_matrix (conic : Vector6) :
  ConicDeterminant conic = det33 (MatrixFromConic conic).
Proof.
  destruct conic as [a b c d e f].
  unfold ConicDeterminant, det33, MatrixFromConic. cbn.
  field.
Qed.

(** *** The inverse *)

Lemma ConicInverse_divisor (a b c d e f : R) :
  a * (e * e) + c * (d * d) + (b * b) * f - a * c * f * 4 - b * d * e
  = -4 * ConicDeterminant (mkVector6 a b c d e f).
Proof. unfold ConicDeterminant. cbn. field. Qed.

(** X18. [ConicInverse] has no real value exactly for the conics whose
    determinant is zero.  For every other conic the matrix of the result is
    the inverse of the matrix of the conic, on both sides, and inverting the
    result gives the conic again. *)
Theorem ConicInverse_inverts (conic : Vector6) :
  (ConicDeterminant conic = 0 /\ ConicInverse conic = None) \/
  (ConicDeterminant conic <> 0 /\
   exists inverse,
     ConicInverse conic = Some inverse /\
     prod33 (MatrixFromConic inverse) (MatrixFromConic conic) = identity_matrix3 /\
     prod33 (MatrixFromConic conic) (MatrixFromConic inverse) = identity_matrix3 /\
     ConicInverse inverse = Some conic).
Proof.
  destruct conic as [a b c d e f].
  pose proof (ConicInverse_divisor a b c d e f) as HD.
  destruct (Req_dec_T (ConicDeterminant (mkVector6 a b c d e f)) 0) as [Hdet | Hdet].
  - left. split; [exact Hdet |].
    unfold ConicInverse. cbn [p0 p1 p2 p3 p4 p5].
    rewrite HD, Hdet, Rmult_0_r, divide_by_zero. reflexivity.
  - right. split; [exact Hdet |].
    set (D := a * (e * e) + c * (d * d) + (b * b) * f - a * c * f * 4 - b * d * e) in *.
    assert (HD0 : D <> 0) by (rewrite HD; lra).
    unfold ConicInverse. cbn [p0 p1 p2 p3 p4 p5]. fold D.
    rewrite (divide_defined 1 D HD0). cbn [and_then].
    eexists. split; [reflexivity |].
    unfold MatrixFromConic, prod33, identity_matrix3. cbn.
    split; [| split].
    + apply mkMatrix33_eq; subst D; field; exact HD0.
    + apply mkMatrix33_eq; subst D; field; exact HD0.
    + fold D.
      match goal with
      | |- context [divide 1 ?x] =>
          assert (HD' : x = 16 / D) by (subst D; field; exact HD0)
      end.
      rewrite HD'.
      assert (HD1 : 16 / D <> 0).
      { intros H0. apply HD0. apply (Rmult_eq_compat_r D) in H0.
        unfold Rdiv in H0. rewrite Rmult_assoc, Rinv_l, Rmult_0_l in H0 by exact HD0.
        lra. }
      rewrite (divide_defined 1 _ HD1). cbn [and_then]. f_equal.
      apply mkVector6_eq; subst D; field; exact HD0.
Qed.

(** *** Points on a conic *)

(** X19. [ConicPixel] is the quadratic form of the matrix of the conic at
    the homogeneous point [(x, y, 1)], that is the polynomial
    [a x^2 + b x y + c y^2 + d x + e y + f]. *)
Theorem ConicPixel_is_quadratic_form (conic : Vector6) (pixel : Vector2) :
  ConicPixel conic pixel = quadratic_form (MatrixFromConic conic) pixel /\
  ConicPixel conic pixel
  = p0 conic * (u0 pixel * u0 pixel) + p1 conic * (u0 pixel * u1 pixel)
    + p2 conic * (u1 pixel * u1 pixel)
    + p3 conic * u0 pixel + p4 conic * u1 pixel + p5 conic.
Proof.
  destruct conic as [a b c d e f]. destruct pixel as [x y].
  unfold ConicPixel, quadratic_form, MatrixFromConic. cbn.
  split; field.
Qed.

(** X20. A point lies on the translated conic exactly where the point
    moved back by the translation lies on the conic: the two values of
    [ConicPixel] agree. *)
Theorem TranslateConic_moves_points (translation : Vector2) (conic : Vector6)
    (pixel : Vector2) :
  ConicPixel (TranslateConic translation conic) pixel
  = ConicPixel conic (mkVector2 (u0 pixel - u0 translation)
                                (u1 pixel - u1 translation)).
Proof.
  destruct conic as [a b c d e f]. destruct pixel as [x y].
  destruct translation as [tx ty].
  unfold ConicPixel, TranslateConic. cbn.
  field.
Qed.

(** X21. Translations compose by adding the vectors, the zero vector
    changes nothing, and so translating back undoes a translation. *)
Theorem TranslateConic_composes (s t : Vector2) (conic : Vector6) :
  TranslateConic s (TranslateConic t conic)
  = TranslateConic (mkVector2 (u0 s + u0 t) (u1 s + u1 t)) conic /\
  TranslateConic (mkVector2 0 0) conic = conic /\
  TranslateConic (mkVector2 (- u0 t) (- u1 t)) (TranslateConic t conic) = conic.
Proof.
  destruct conic as [a b c d e f]. destruct s as [sx sy]. destruct t as [tx ty].
  unfold TranslateConic. cbn.
  repeat split; apply mkVector6_eq; field.
Qed.

(** X22. Flipping reflects at the line [y = (height - 1) / 2]: a point
    [(x, y)] lies on the flipped conic exactly where [(x, height - 1 - y)]
    lies on the conic; flipping twice gives the conic again. *)
Theorem FlipConicHorizontal_reflects (height : R) (conic : Vector6) (x y : R) :
  let flip := FlipConicHorizontal_call (FlipConicHorizontal_new height) in
  ConicPixel (flip conic) (mkVector2 x y)
  = ConicPixel conic (mkVector2 x (height - 1 - y)) /\
  flip (flip conic) = conic.
Proof.
  destruct conic as [a b c d e f].
  unfold ConicPixel, FlipConicHorizontal_call, FlipConicHorizontal_new. cbn.
  split; [field | apply mkVector6_eq; field].
Qed.

(** X23. For scales that are not zero the constructor returns, and
    [(scaleA * x, scaleB * y)] lies on the scaled conic exactly where
    [(x, y)] lies on the conic; the constructor with one scale builds the
    functor of the constructor with two equal scales. *)
Theorem ScaleConicUnsafe_scales_points (scaleA scaleB : R) :
  scaleA <> 0 -> scaleB <> 0 ->
  exists this,
    ScaleConicUnsafe_new scaleA scaleB = Some this /\
    (forall (conic : Vector6) (x y : R),
       ConicPixel (ScaleConicUnsafe_call this conic)
                  (mkVector2 (scaleA * x) (scaleB * y))
       = ConicPixel conic (mkVector2 x y)) /\
    (scaleA = scaleB -> ScaleConicUnsafe_uniform scaleA = Some this).
Proof.
  intros HA HB. unfold ScaleConicUnsafe_new, ScaleConicUnsafe_uniform.
  rewrite (divide_defined 1 scaleA HA), (divide_defined 1 scaleB HB).
  cbn [and_then]. eexists. split; [reflexivity |]. split.
  - intros [a b c d e f] x y.
    unfold ConicPixel, ScaleConicUnsafe_call. cbn.
    field. split; assumption.
  - intros <-. reflexivity.
Qed.

Lemma ScaleConicUnsafe_scales_points_witness :
  exists this,
    ScaleConicUnsafe_new 2 3 = Some this /\
    (forall (conic : Vector6) (x y : R),
       ConicPixel (ScaleConicUnsafe_call this conic)
                  (mkVector2 (2 * x) (3 * y))
       = ConicPixel conic (mkVector2 x y)) /\
    (2 = 3 -> ScaleConicUnsafe_uniform 2 = Some this).
Proof.
  apply (ScaleConicUnsafe_scales_points 2 3); lra.
Defined.

(** *** The centre *)

Lemma half_discriminant (a b c : R) :
  b * (1 / 2) * (b * (1 / 2)) - a * c = (b * b - 4 * a * c) / 4.
Proof. field. Qed.

Lemma ConicCenter_value (conic : Vector6) :
  p1 conic * p1 conic <> 4 * p0 conic * p2 conic ->
  let delta := p1 conic * (1 / 2) * (p1 conic * (1 / 2)) - p0 conic * p2 conic in
  delta <> 0 /\
  ConicCenter conic
  = Return (Some (mkVector2
      ((p2 conic * (p3 conic * (1 / 2)) - p1 conic * (1 / 2) * (p4 conic * (1 / 2)))
       * (1 / delta))
      ((p0 conic * (p4 conic * (1 / 2)) - p1 conic * (1 / 2) * (p3 conic * (1 / 2)))
       * (1 / delta)))).
Proof.
  intros Hne delta.
  assert (Hdelta : delta <> 0).
  { subst delta. rewrite half_discriminant. intros H0.
    apply Hne. unfold Rdiv in H0.
    apply Rmult_integral in H0. destruct H0 as [H0 | H0]; lra. }
  split; [exact Hdelta |].
  unfold ConicCenter. fold delta.
  rewrite (divide_defined 1 delta Hdelta).
  destruct (Req_dec_T (1 / delta) 0) as [E | _]; [| reflexivity].
  exfalso. unfold Rdiv in E. rewrite Rmult_1_l in E.
  exact (Rinv_neq_0_compat delta Hdelta E).
Qed.

(** X24. [ConicCenter] never throws: the test [divisor == 0] is made on a
    reciprocal, and the reciprocal of a real number is not zero.  Where
    [b^2 = 4 a c] it has no real value; everywhere else it returns a point
    about which the conic is symmetric. *)
Theorem ConicCenter_is_centre (conic : Vector6) :
  (p1 conic * p1 conic = 4 * p0 conic * p2 conic /\
   ConicCenter conic = Return None) \/
  (p1 conic * p1 conic <> 4 * p0 conic * p2 conic /\
   exists centre,
     ConicCenter conic = Return (Some centre) /\
     forall v : Vector2,
       ConicPixel conic (mkVector2 (u0 centre + u0 v) (u1 centre + u1 v))
       = ConicPixel conic (mkVector2 (u0 centre - u0 v) (u1 centre - u1 v))).
Proof.
  destruct (Req_dec_T (p1 conic * p1 conic) (4 * p0 conic * p2 conic)) as [E | N].
  - left. split; [exact E |].
    unfold ConicCenter. rewrite half_discriminant.
    replace ((p1 conic * p1 conic - 4 * p0 conic * p2 conic) / 4) with 0 by lra.
    rewrite divide_by_zero. reflexivity.
  - right. split; [exact N |].
    destruct (ConicCenter_value conic N) as [Hdelta Hcentre].
    eexists. split; [exact Hcentre |].
    intros [vx vy]. destruct conic as [a b c d e f].
    unfold ConicPixel. cbn in *. field. nonzero.
Qed.

(** X25. For a conic with [b^2 <> 4 a c] the centre moves with the conic:
    the centre of the translated conic is the translated centre, and the
    centre of the flipped conic is the reflected centre. *)
Theorem ConicCenter_follows (translation : Vector2) (height : R)
    (conic : Vector6) :
  p1 conic * p1 conic <> 4 * p0 conic * p2 conic ->
  exists centre,
    ConicCenter conic = Return (Some centre) /\
    ConicCenter (TranslateConic translation conic)
    = Return (Some (mkVector2 (u0 centre + u0 translation)
                              (u1 centre + u1 translation))) /\
    ConicCenter (FlipConicHorizontal_call (FlipConicHorizontal_new height) conic)
    = Return (Some (mkVector2 (u0 centre) (height - 1 - u1 centre))).
Proof.
  intros N.
  destruct (ConicCenter_value conic N) as [Hdelta Hcentre].
  eexists. split; [exact Hcentre |].
  destruct conic as [a b c d e f]. destruct translation as [tx ty].
  cbn [p0 p1 p2 p3 p4 p5] in *.
  split.
  - assert (N' : p1 (TranslateConic (mkVector2 tx ty) (mkVector6 a b c d e f))
                 * p1 (TranslateConic (mkVector2 tx ty) (mkVector6 a b c d e f))
                 <> 4 * p0 (TranslateConic (mkVector2 tx ty) (mkVector6 a b c d e f))
                    * p2 (TranslateConic (mkVector2 tx ty) (mkVector6 a b c d e f)))
      by exact N.
    destruct (ConicCenter_value _ N') as [_ Hmoved]. rewrite Hmoved.
    do 2 f_equal. unfold TranslateConic. cbn.
    apply mkVector2_eq; field; nonzero.
  - assert (N' : p1 (FlipConicHorizontal_call (FlipConicHorizontal_new height)
                       (mkVector6 a b c d e f))
                 * p1 (FlipConicHorizontal_call (FlipConicHorizontal_new height)
                         (mkVector6 a b c d e f))
                 <> 4 * p0 (FlipConicHorizontal_call (FlipConicHorizontal_new height)
                              (mkVector6 a b c d e f))
                    * p2 (FlipConicHorizontal_call (FlipConicHorizontal_new height)
                            (mkVector6 a b c d e f))).
    { unfold FlipConicHorizontal_call. cbn. intros H. apply N. lra. }
    destruct (ConicCenter_value _ N') as [Hdelta' Hflipped]. rewrite Hflipped.
    do 2 f_equal. unfold FlipConicHorizontal_call, FlipConicHorizontal_new in *.
    cbn in *.
    apply mkVector2_eq; field; nonzero.
Qed.

Lemma ConicCenter_follows_witness :
  exists centre,
    ConicCenter tilted_ellipse = Return (Some centre) /\
    ConicCenter (TranslateConic (mkVector2 1 2) tilted_ellipse)
    = Return (Some (mkVector2 (u0 centre + 1) (u1 centre + 2))) /\
    ConicCenter (FlipConicHorizontal_call (FlipConicHorizontal_new 480)
                                          tilted_ellipse)
    = Return (Some (mkVector2 (u0 centre) (480 - 1 - u1 centre))).
Proof.
  apply (ConicCenter_follows (mkVector2 1 2) 480 tilted_ellipse).
  unfold tilted_ellipse; simpl; lra.
Defined.

(** *** Intersections and limits *)

(** The zeros of [a x^2 + 2 B x + C] for a root [s] of [B^2 - a C]. *)
Lemma quadratic_zeros (a B C s x : R) :
  a <> 0 -> s * s = B * B - a * C ->
  (a * (x * x) + 2 * B * x + C = 0 <-> x = (- B + s) / a \/ x = (- B - s) / a).
Proof.
  intros Ha Hs.
  assert (Hfact : a * (a * (x * x) + 2 * B * x + C)
                  = (a * x + B - s) * (a * x + B + s)).
  { replace ((a * x + B - s) * (a * x + B + s))
      with ((a * x + B) * (a * x + B) - s * s) by ring.
    rewrite Hs. ring. }
  split.
  - intros H0. rewrite H0, Rmult_0_r in Hfact. symmetry in Hfact.
    apply Rmult_integral in Hfact. destruct Hfact as [H1 | H1]; [left | right].
    + apply (Rmult_eq_reg_l a); [| exact Ha]. field_simplify; [lra | exact Ha].
    + apply (Rmult_eq_reg_l a); [| exact Ha]. field_simplify; [lra | exact Ha].
  - intros [-> | ->]; apply (Rmult_eq_reg_l a); try exact Ha;
      rewrite Hfact, Rmult_0_r.
    + replace (a * ((- B + s) / a) + B - s) with 0 by (field; exact Ha). ring.
    + replace (a * ((- B - s) / a) + B + s) with 0 by (field; exact Ha). ring.
Qed.

(** X26. For a conic with [a <> 0] and a line [y = const]:
    [ConicHorizontalIntersection] has no real value exactly when no point of
    the line lies on the conic; otherwise it returns two abscissas in
    increasing order, and the points of the line on the conic are the points
    with these abscissas. *)
Theorem ConicHorizontalIntersection_meets (conic : Vector6) (y : R) :
  let b := p1 conic * (1 / 2) * y + p3 conic * (1 / 2) in
  let c := (p2 conic * y + p4 conic) * y + p5 conic in
  p0 conic <> 0 ->
  (b * b - p0 conic * c < 0 /\
   ConicHorizontalIntersection conic y = None /\
   forall x, ConicPixel conic (mkVector2 x y) <> 0) \/
  (0 <= b * b - p0 conic * c /\
   exists x1 x2,
     ConicHorizontalIntersection conic y = Some (mkVector2 x1 x2) /\
     x1 <= x2 /\
     forall x, ConicPixel conic (mkVector2 x y) = 0 <-> x = x1 \/ x = x2).
Proof.
  intros b c Ha.
  assert (Hpixel : forall x, ConicPixel conic (mkVector2 x y)
                             = p0 conic * (x * x) + 2 * b * x + c).
  { intros x. subst b c. destruct conic as [a' b' c' d' e' f'].
    unfold ConicPixel. cbn. field. }
  destruct (Rlt_dec (b * b - p0 conic * c) 0) as [Hneg | Hpos].
  - left. split; [exact Hneg |]. split.
    + unfold ConicHorizontalIntersection. fold b. fold c.
      rewrite (square_root_negative _ Hneg). reflexivity.
    + intros x H0. rewrite Hpixel in H0.
      assert (Hsq : 0 <= (p0 conic * x + b) * (p0 conic * x + b))
        by apply Rle_0_sqr.
      assert (Hz : p0 conic * (p0 conic * (x * x) + 2 * b * x + c) = 0)
        by (rewrite H0; ring).
      nra.
  - right. apply Rnot_lt_le in Hpos. split; [exact Hpos |].
    pose proof (sqrt_sqrt _ Hpos) as Hs.
    set (s := sqrt (b * b - p0 conic * c)) in *.
    unfold ConicHorizontalIntersection. fold b. fold c.
    rewrite (square_root_defined _ Hpos). cbn [and_then]. fold s.
    rewrite !(divide_defined _ _ Ha). cbn [and_then].
    destruct (Rlt_dec ((- b + s) / p0 conic) ((- b - s) / p0 conic)) as [Hlt | Hge].
    + eexists _, _. split; [reflexivity |]. split; [lra |].
      intros x. rewrite Hpixel. apply quadratic_zeros; assumption.
    + eexists _, _. split; [reflexivity |]. split; [lra |].
      intros x. rewrite Hpixel.
      rewrite (quadratic_zeros (p0 conic) b c s x Ha Hs). tauto.
Qed.

Lemma ConicHorizontalIntersection_meets_witness :
  let b := p1 unit_circle * (1 / 2) * 0 + p3 unit_circle * (1 / 2) in
  let c := (p2 unit_circle * 0 + p4 unit_circle) * 0 + p5 unit_circle in
  (b * b - p0 unit_circle * c < 0 /\
   ConicHorizontalIntersection unit_circle 0 = None /\
   forall x, ConicPixel unit_circle (mkVector2 x 0) <> 0) \/
  (0 <= b * b - p0 unit_circle * c /\
   exists x1 x2,
     ConicHorizontalIntersection unit_circle 0 = Some (mkVector2 x1 x2) /\
     x1 <= x2 /\
     forall x, ConicPixel unit_circle (mkVector2 x 0) = 0 <-> x = x1 \/ x = x2).
Proof.
  apply (ConicHorizontalIntersection_meets unit_circle 0).
  unfold unit_circle; simpl; lra.
Defined.

(** The two limits are the zeros of the discriminant
    [delta t^2 + 2 beta t + gamma] of the conic along the other axis;
    [sigma] is a root of [beta^2 - delta gamma]. *)
Lemma limits_factor (delta beta gamma sigma t1 t2 : R) :
  delta <> 0 ->
  sigma * sigma = beta * beta - delta * gamma ->
  t1 = (- beta - sigma) / delta -> t2 = (- beta + sigma) / delta ->
  forall t, delta * (t * t) + 2 * beta * t + gamma = delta * (t - t1) * (t - t2).
Proof.
  intros Hdelta Hs -> -> t.
  replace (delta * (t - (- beta - sigma) / delta) * (t - (- beta + sigma) / delta))
    with (delta * (t * t) + 2 * beta * t + (beta * beta - sigma * sigma) / delta)
    by (field; exact Hdelta).
  rewrite Hs. field. exact Hdelta.
Qed.

Lemma limits_enclose (delta t1 t2 t : R) :
  delta < 0 -> 0 <= delta * (t - t1) * (t - t2) ->
  (t1 <= t <= t2) \/ (t2 <= t <= t1).
Proof.
  intros Hdelta Hq.
  destruct (Rle_dec t1 t) as [H1 | H1]; destruct (Rle_dec t t2) as [H2 | H2].
  - left. split; assumption.
  - apply Rnot_le_lt in H2.
    destruct (Rle_lt_or_eq_dec t1 t H1) as [H1' | <-]; [| right; lra].
    exfalso. assert (0 < (t - t1) * (t - t2)) by (apply Rmult_lt_0_compat; lra). nra.
  - apply Rnot_le_lt in H1.
    destruct (Rle_lt_or_eq_dec t t2 H2) as [H2' | ->]; [| right; lra].
    exfalso. assert (0 < (t1 - t) * (t2 - t)) by (apply Rmult_lt_0_compat; lra). nra.
  - right. split; lra.
Qed.

(** X27. Where [ConicUpperLowerLimit] has a real value (the conic is no
    parabola and the radicand is not negative) it returns two ordinates in
    increasing order, and the horizontal line at each of them touches the
    conic: along the line, [a] times the conic is a perfect square.  For an
    ellipse every point of the conic lies between the two. *)
Theorem ConicUpperLowerLimit_touches (conic : Vector6) :
  let a := p0 conic in
  let b := p1 conic * (1 / 2) in
  let c := p2 conic in
  let d := p3 conic * (1 / 2) in
  let e := p4 conic * (1 / 2) in
  let f := p5 conic in
  b * b - a * c <> 0 ->
  0 <= (b * d - a * e) * (b * d - a * e) - (b * b - a * c) * (d * d - a * f) ->
  exists lower upper,
    ConicUpperLowerLimit conic = Some (mkVector2 lower upper) /\
    lower <= upper /\
    (forall x, a * ConicPixel conic (mkVector2 x lower)
               = (a * x + b * lower + d) * (a * x + b * lower + d)) /\
    (forall x, a * ConicPixel conic (mkVector2 x upper)
               = (a * x + b * upper + d) * (a * x + b * upper + d)) /\
    (b * b - a * c < 0 ->
     forall x y, ConicPixel conic (mkVector2 x y) = 0 -> lower <= y <= upper).
Proof.
  intros a b c d e f Hdelta Hrad.
  set (delta := b * b - a * c) in *.
  set (beta := b * d - a * e) in *.
  set (gamma := d * d - a * f) in *.
  assert (Hrad' : 0 <= 8 * beta * (8 * beta) - 4 * (4 * delta) * (4 * gamma)) by nra.
  pose proof (sqrt_sqrt _ Hrad') as Hs.
  set (s := sqrt (8 * beta * (8 * beta) - 4 * (4 * delta) * (4 * gamma))) in *.
  assert (HL : 4 * delta * 2 <> 0) by lra.
  set (y1 := - (8 * beta / (4 * delta * 2) + s / (4 * delta * 2))).
  set (y2 := - (8 * beta / (4 * delta * 2) - s / (4 * delta * 2))).
  assert (Hfactor : forall y, delta * (y * y) + 2 * beta * y + gamma
                              = delta * (y - y1) * (y - y2)).
  { apply (limits_factor delta beta gamma (s / 8)).
    - exact Hdelta.
    - replace (s / 8 * (s / 8)) with (s * s / 64) by field. rewrite Hs. field.
    - subst y1. field. exact Hdelta.
    - subst y2. field. exact Hdelta. }
  assert (Hpixel : forall x y,
            a * ConicPixel conic (mkVector2 x y)
            = (a * x + b * y + d) * (a * x + b * y + d)
              - (delta * (y * y) + 2 * beta * y + gamma)).
  { intros x y. subst delta beta gamma a b c d e f.
    destruct conic as [a' b' c' d' e' f']. unfold ConicPixel. cbn. field. }
  assert (Htouch1 : forall x, a * ConicPixel conic (mkVector2 x y1)
                              = (a * x + b * y1 + d) * (a * x + b * y1 + d)).
  { intros x. rewrite Hpixel, Hfactor. ring. }
  assert (Htouch2 : forall x, a * ConicPixel conic (mkVector2 x y2)
                              = (a * x + b * y2 + d) * (a * x + b * y2 + d)).
  { intros x. rewrite Hpixel, Hfactor. ring. }
  assert (Hbetween : delta < 0 ->
            forall x y, ConicPixel conic (mkVector2 x y) = 0 ->
                        (y1 <= y <= y2) \/ (y2 <= y <= y1)).
  { intros Hneg x y H0. apply (limits_enclose delta y1 y2 y Hneg).
    rewrite <- Hfactor.
    pose proof (Hpixel x y) as Hp. rewrite H0, Rmult_0_r in Hp.
    pose proof (Rle_0_sqr (a * x + b * y + d)) as Hsq. unfold Rsqr in Hsq. lra. }
  unfold ConicUpperLowerLimit.
  fold a. fold b. fold c. fold d. fold e. fold f. fold delta. fold beta. fold gamma.
  rewrite (square_root_defined _ Hrad'). cbn [and_then]. fold s.
  rewrite !(divide_defined _ _ HL). cbn [and_then]. fold y1. fold y2.
  destruct (Rlt_dec y1 y2) as [Hlt | Hge].
  - exists y1, y2. split; [reflexivity |]. split; [lra |].
    split; [exact Htouch1 |]. split; [exact Htouch2 |].
    intros Hneg x y H0. destruct (Hbetween Hneg x y H0); lra.
  - exists y2, y1. split; [reflexivity |]. split; [lra |].
    split; [exact Htouch2 |]. split; [exact Htouch1 |].
    intros Hneg x y H0. destruct (Hbetween Hneg x y H0); lra.
Qed.

Lemma ConicUpperLowerLimit_touches_witness :
  let a := p0 tilted_ellipse in
  let b := p1 tilted_ellipse * (1 / 2) in
  let d := p3 tilted_ellipse * (1 / 2) in
  exists lower upper,
    ConicUpperLowerLimit tilted_ellipse = Some (mkVector2 lower upper) /\
    lower <= upper /\
    (forall x, a * ConicPixel tilted_ellipse (mkVector2 x lower)
               = (a * x + b * lower + d) * (a * x + b * lower + d)) /\
    (forall x, a * ConicPixel tilted_ellipse (mkVector2 x upper)
               = (a * x + b * upper + d) * (a * x + b * upper + d)) /\
    (b * b - a * p2 tilted_ellipse < 0 ->
     forall x y, ConicPixel tilted_ellipse (mkVector2 x y) = 0 ->
                 lower <= y <= upper).
Proof.
  apply (ConicUpperLowerLimit_touches tilted_ellipse);
    unfold tilted_ellipse; simpl; lra.
Defined.

(** X28. Where [ConicLeftRightLimit] has a real value ([c <> 0], the conic
    is no parabola, the radicand is not negative) it returns two abscissas
    in increasing order, and the vertical line at each of them touches the
    conic: along the line, [c] times the conic is a perfect square.  For an
    ellipse every point of the conic lies between the two. *)
Theorem ConicLeftRightLimit_touches (conic : Vector6) :
  let a := p0 conic in
  let b := p1 conic * (1 / 2) in
  let c := p2 conic in
  let d := p3 conic * (1 / 2) in
  let e := p4 conic * (1 / 2) in
  let f := p5 conic in
  c <> 0 ->
  b * b - a * c <> 0 ->
  0 <= (a * (e * e) + c * (d * d) + (b * b) * f - a * c * f - b * d * e * 2) / c ->
  exists left right,
    ConicLeftRightLimit conic = Some (mkVector2 left right) /\
    left <= right /\
    (forall y, c * ConicPixel conic (mkVector2 left y)
               = (b * left + c * y + e) * (b * left + c * y + e)) /\
    (forall y, c * ConicPixel conic (mkVector2 right y)
               = (b * right + c * y + e) * (b * right + c * y + e)) /\
    (b * b - a * c < 0 ->
     forall x y, ConicPixel conic (mkVector2 x y) = 0 -> left <= x <= right).
Proof.
  intros a b c d e f Hc Hdelta Hrad.
  set (S := a * (e * e) + c * (d * d) + (b * b) * f - a * c * f - b * d * e * 2) in *.
  set (delta := b * b - a * c) in *.
  set (beta := b * e - c * d).
  set (gamma := e * e - c * f).
  pose proof (sqrt_sqrt _ Hrad) as Hr.
  set (r := sqrt (S / c)) in *.
  assert (HD : a * c - b * b <> 0) by (subst delta; lra).
  set (x1 := (b * e - c * d + c * r) / (a * c - b * b)).
  set (x2 := - (- b * e + c * d + c * r) / (a * c - b * b)).
  assert (Hfactor : forall x, delta * (x * x) + 2 * beta * x + gamma
                              = delta * (x - x1) * (x - x2)).
  { apply (limits_factor delta beta gamma (c * r)).
    - exact Hdelta.
    - replace (c * r * (c * r)) with (c * c * (r * r)) by ring. rewrite Hr.
      subst S delta beta gamma. field. exact Hc.
    - subst x1 delta beta. field. nonzero.
    - subst x2 delta beta. field. nonzero. }
  assert (Hpixel : forall x y,
            c * ConicPixel conic (mkVector2 x y)
            = (b * x + c * y + e) * (b * x + c * y + e)
              - (delta * (x * x) + 2 * beta * x + gamma)).
  { intros x y. subst delta beta gamma a b c d e f.
    destruct conic as [a' b' c' d' e' f']. unfold ConicPixel. cbn. field. }
  assert (Htouch1 : forall y, c * ConicPixel conic (mkVector2 x1 y)
                              = (b * x1 + c * y + e) * (b * x1 + c * y + e)).
  { intros y. rewrite Hpixel, Hfactor. ring. }
  assert (Htouch2 : forall y, c * ConicPixel conic (mkVector2 x2 y)
                              = (b * x2 + c * y + e) * (b * x2 + c * y + e)).
  { intros y. rewrite Hpixel, Hfactor. ring. }
  assert (Hbetween : delta < 0 ->
            forall x y, ConicPixel conic (mkVector2 x y) = 0 ->
                        (x1 <= x <= x2) \/ (x2 <= x <= x1)).
  { intros Hneg x y H0. apply (limits_enclose delta x1 x2 x Hneg).
    rewrite <- Hfactor.
    pose proof (Hpixel x y) as Hp. rewrite H0, Rmult_0_r in Hp.
    pose proof (Rle_0_sqr (b * x + c * y + e)) as Hsq. unfold Rsqr in Hsq. lra. }
  unfold ConicLeftRightLimit.
  fold a. fold b. fold c. fold d. fold e. fold f. fold S.
  rewrite (divide_defined _ _ Hc). cbn [and_then].
  rewrite (square_root_defined _ Hrad). cbn [and_then]. fold r.
  rewrite !(divide_defined _ _ HD). cbn [and_then]. fold x1. fold x2.
  destruct (Rlt_dec x1 x2) as [Hlt | Hge].
  - exists x1, x2. split; [reflexivity |]. split; [lra |].
    split; [exact Htouch1 |]. split; [exact Htouch2 |].
    intros Hneg x y H0. destruct (Hbetween Hneg x y H0); lra.
  - exists x2, x1. split; [reflexivity |]. split; [lra |].
    split; [exact Htouch2 |]. split; [exact Htouch1 |].
    intros Hneg x y H0. destruct (Hbetween Hneg x y H0); lra.
Qed.

Lemma ConicLeftRightLimit_touches_witness :
  let b := p1 tilted_ellipse * (1 / 2) in
  let c := p2 tilted_ellipse in
  let e := p4 tilted_ellipse * (1 / 2) in
  exists left right,
    ConicLeftRightLimit tilted_ellipse = Some (mkVector2 left right) /\
    left <= right /\
    (forall y, c * ConicPixel tilted_ellipse (mkVector2 left y)
               = (b * left + c * y + e) * (b * left + c * y + e)) /\
    (forall y, c * ConicPixel tilted_ellipse (mkVector2 right y)
               = (b * right + c * y + e) * (b * right + c * y + e)) /\
    (b * b - p0 tilted_ellipse * c < 0 ->
     forall x y, ConicPixel tilted_ellipse (mkVector2 x y) = 0 ->
                 left <= x <= right).
Proof.
  apply (ConicLeftRightLimit_touches tilted_ellipse);
    unfold tilted_ellipse; simpl; lra.
Defined.

(** *** Classification *)




(** *** Eccentricity *)

(** X30. For a real ellipse ([b^2 < 4 a c], and the determinant and
    [a + c] of opposite signs) [ConicEccentricity] has a real value, the
    value lies in [[0, 1)], and it is zero exactly for the conics with
    [a = c] and [b = 0], the circles. *)
Theorem ConicEccentricity_of_ellipse (conic : Vector6) :
  IsConicEllipse conic = true ->
  ConicDeterminant conic * (p0 conic + p2 conic) < 0 ->
  exists eccentricity,
    ConicEccentricity conic = Some eccentricity /\
    0 <= eccentricity < 1 /\
    (eccentricity = 0 <-> p0 conic = p2 conic /\ p1 conic = 0).
Proof.
  intros Hell Hreal.
  unfold IsConicEllipse in Hell.
  destruct (Rlt_dec (p1 conic * p1 conic - 4 * p0 conic * p2 conic) 0)
    as [Hdisc | _]; [clear Hell | discriminate].
  set (a := p0 conic) in *. set (b := p1 conic) in *. set (c := p2 conic) in *.
  set (det := ConicDeterminant conic) in *.
  pose proof (Rle_0_sqr b) as Hb2. unfold Rsqr in Hb2.
  pose proof (Rle_0_sqr (a - c)) as Hac2. unfold Rsqr in Hac2.
  assert (Hpow : (a - c) ^ 2 = (a - c) * (a - c)) by ring.
  assert (Hrad : 0 <= (a - c) ^ 2 + b * (1 / 2) * (b * (1 / 2)))
    by (rewrite Hpow; lra).
  pose proof (sqrt_sqrt _ Hrad) as HU.
  pose proof (sqrt_pos ((a - c) ^ 2 + b * (1 / 2) * (b * (1 / 2)))) as HU0.
  set (U := sqrt ((a - c) ^ 2 + b * (1 / 2) * (b * (1 / 2)))) in *.
  rewrite Hpow in HU.
  assert (Hac : U * U < (a + c) * (a + c)) by (rewrite HU; lra).
  assert (Hzero : U = 0 <-> a = c /\ b = 0).
  { split.
    - intros H0. rewrite H0, Rmult_0_l in HU.
      assert (Hac0 : (a - c) * (a - c) = 0) by lra.
      assert (Hb0 : b * b = 0) by lra.
      apply Rmult_integral in Hac0. apply Rmult_integral in Hb0.
      split; [destruct Hac0; lra | destruct Hb0; assumption].
    - intros [Eac Eb]. rewrite Eac, Eb in HU.
      assert (HUU : U * U = 0) by (rewrite HU; ring).
      apply Rmult_integral in HUU. destruct HUU; assumption. }
  (* the quotient, for the sign [sgn] of the branch *)
  assert (Hquot : forall m, 0 < m -> U < m ->
            exists eccentricity,
              (let? q := divide (2 * U) (U + m) in square_root q) = Some eccentricity /\
              0 <= eccentricity < 1 /\ (eccentricity = 0 <-> U = 0)).
  { intros m Hm HUm.
    assert (Hden : U + m <> 0) by lra.
    assert (Hq0 : 0 <= 2 * U / (U + m)).
    { apply Rmult_le_pos; [lra |]. left. apply Rinv_0_lt_compat. lra. }
    assert (Hq1 : 2 * U / (U + m) < 1).
    { apply (Rmult_lt_reg_r (U + m)); [lra |].
      unfold Rdiv. rewrite Rmult_assoc, Rinv_l by exact Hden. lra. }
    rewrite (divide_defined _ _ Hden). cbn [and_then].
    rewrite (square_root_defined _ Hq0).
    eexists. split; [reflexivity |]. split; [split |].
    - apply sqrt_pos.
    - rewrite <- sqrt_1. apply sqrt_lt_1; lra.
    - split.
      + intros H0. apply sqrt_eq_0 in H0; [| exact Hq0].
        apply (Rmult_eq_compat_r (U + m)) in H0.
        unfold Rdiv in H0. rewrite Rmult_assoc, Rinv_l in H0 by exact Hden. lra.
      + intros ->. replace (2 * 0 / (0 + m)) with 0 by (field; lra).
        apply sqrt_0. }
  unfold ConicEccentricity. fold a. fold b. fold c. fold det.
  rewrite (square_root_defined _ Hrad). cbn [and_then]. fold U.
  destruct (Rlt_dec det 0) as [Hneg | Hpos].
  - assert (Hm : 0 < a + c) by nra.
    destruct (Hquot (a + c) Hm) as [ecc [He [Hr Hz]]]; [nra |].
    exists ecc. split; [exact He |]. split; [exact Hr |]. rewrite Hz. exact Hzero.
  - assert (Hm : 0 < - (a + c)) by nra.
    destruct (Hquot (- (a + c)) Hm) as [ecc [He [Hr Hz]]]; [nra |].
    exists ecc. replace (U - (a + c)) with (U + - (a + c)) by ring.
    split; [exact He |]. split; [exact Hr |]. rewrite Hz. exact Hzero.
Qed.

Lemma ConicEccentricity_of_ellipse_witness :
  exists eccentricity,
    ConicEccentricity flat_ellipse = Some eccentricity /\
    0 <= eccentricity < 1 /\
    (eccentricity = 0 <-> p0 flat_ellipse = p2 flat_ellipse /\ p1 flat_ellipse = 0).
Proof.
  apply (ConicEccentricity_of_ellipse flat_ellipse).
  - unfold IsConicEllipse, flat_ellipse. cbn [p0 p1 p2].
    destruct (Rlt_dec (0 * 0 - 4 * (1 / 4) * 1) 0) as [_ | N]; [reflexivity | lra].
  - unfold ConicDeterminant, flat_ellipse. simpl. lra.
Defined.

End ConicProofs.
